(** * byro: membership dues, balances and liabilities

    A shallow embedding of [src/byro/members/models.py]:
    [Membership.get_dues], [Member._calc_balance], [Member.create_balance],
    [Member.statute_barred_debt], [Member.update_liabilites] and
    [Member.adjust_balance], together with the calendar arithmetic
    ([datetime], [dateutil.relativedelta]) and the bookkeeping ledger they
    run on; the other methods of [Member] that read the ledger, the member
    numbers, names and searches, and the registration form of
    [src/byro/common/forms/registration.py].

    Conventions.
    - Money is a [Decimal] with two places; it is modelled as a number of
      cents in [Z].
    - Time zone support is on.  A [datetime] is an instant, given as its
      calendar date and its time of day in UTC, which is how the database
      hands it back.  A [date] given where a [datetime] is stored or
      compared is read as the midnight that begins this day in
      [settings.TIME_ZONE]; that zone is an argument of the methods that
      do so.
    - A Python [set] is a duplicate-free list in insertion order; [sorted]
      is the only place where the source fixes an iteration order.
    - A query returns its rows in the order of the table; only
      [with_active_membership] asks for another order.
    - The clock is an argument: a method that reads [now()] more than
      once is modelled at one instant. *)

From Stdlib Require Import ZArith List Bool Lia String Ascii.
From Stdlib Require Import Permutation Sorted.
Import ListNotations.
Open Scope Z_scope.

(* ================================================================= *)
(** ** Outcomes of Python code *)

Inductive exn : Type :=
| ValueError
| OverflowError
| KeyError
| Exception_ (msg : string)
| DatabaseError
| InvalidOperation.

(** What running a piece of Python gives: a value, an exception, or no
    answer at all (a loop that never ends). *)
Inductive outcome (A : Type) : Type :=
| Returns (a : A)
| Raises (e : exn)
| Diverges.

Arguments Returns {A} a.
Arguments Raises {A} e.
Arguments Diverges {A}.

Definition obind {A B} (x : outcome A) (k : A -> outcome B) : outcome B :=
  match x with
  | Returns a => k a
  | Raises e => Raises e
  | Diverges => Diverges
  end.

(** [try: x except ValueError: h] *)
Definition except_ValueError {A} (x : outcome A) (h : outcome A) : outcome A :=
  match x with
  | Raises ValueError => h
  | _ => x
  end.

(* ================================================================= *)
(** ** Calendar: [datetime.date], [datetime.datetime], [relativedelta] *)

Module Calendar.

Record date : Type := mkdate { year : Z; month : Z; day : Z }.

(** Time of day in microseconds since midnight. *)
Record datetime : Type := mkdatetime { dt_date : date; dt_time : Z }.

Definition MINYEAR : Z := 1.
Definition MAXYEAR : Z := 9999.

Definition isleap (y : Z) : bool :=
  (y mod 4 =? 0) && (negb (y mod 100 =? 0) || (y mod 400 =? 0)).

(** [calendar.monthrange(y, m)[1]] *)
Definition monthrange (y m : Z) : Z :=
  if m =? 2 then (if isleap y then 29 else 28)
  else if (m =? 4) || (m =? 6) || (m =? 9) || (m =? 11) then 30
  else 31.

Definition valid_date (d : date) : bool :=
  (MINYEAR <=? year d) && (year d <=? MAXYEAR) &&
  (1 <=? month d) && (month d <=? 12) &&
  (1 <=? day d) && (day d <=? monthrange (year d) (month d)).

Definition valid_datetime (t : datetime) : bool :=
  valid_date (dt_date t) && (0 <=? dt_time t) && (dt_time t <? 86400000000).

(** The constructor [date(y, m, d)], which [replace] goes through. *)
Definition date_checked (y m d : Z) : outcome date :=
  if valid_date (mkdate y m d) then Returns (mkdate y m d) else Raises ValueError.

Definition date_eqb (a b : date) : bool :=
  (year a =? year b) && (month a =? month b) && (day a =? day b).

Definition date_ltb (a b : date) : bool :=
  (year a <? year b) ||
  ((year a =? year b) &&
   ((month a <? month b) || ((month a =? month b) && (day a <? day b)))).

Definition date_leb (a b : date) : bool := negb (date_ltb b a).

(** [datetime.datetime(d.year, d.month, d.day)] *)
Definition midnight (d : date) : datetime := mkdatetime d 0.

Definition datetime_ltb (a b : datetime) : bool :=
  date_ltb (dt_date a) (dt_date b) ||
  (date_eqb (dt_date a) (dt_date b) && (dt_time a <? dt_time b)).

Definition datetime_leb (a b : datetime) : bool := negb (datetime_ltb b a).

(** [t.replace(day=d)] *)
Definition replace_day (t : datetime) (d : Z) : outcome datetime :=
  obind (date_checked (year (dt_date t)) (month (dt_date t)) d)
        (fun d' => Returns (mkdatetime d' (dt_time t))).

(** [t.replace(month=m, day=d)] *)
Definition replace_month_day (t : datetime) (m d : Z) : outcome datetime :=
  obind (date_checked (year (dt_date t)) m d)
        (fun d' => Returns (mkdatetime d' (dt_time t))).

Definition next_day (d : date) : date :=
  if day d <? monthrange (year d) (month d)
  then mkdate (year d) (month d) (day d + 1)
  else if month d <? 12 then mkdate (year d) (month d + 1) 1
  else mkdate (year d + 1) 1 1.

Definition prev_day (d : date) : date :=
  if 1 <? day d then mkdate (year d) (month d) (day d - 1)
  else if 1 <? month d
       then mkdate (year d) (month d - 1) (monthrange (year d) (month d - 1))
       else mkdate (year d - 1) 12 31.

(** [d + timedelta(days=n)] *)
Definition add_days (d : date) (n : Z) : outcome date :=
  let r := match n with
           | Z0 => d
           | Zpos p => Pos.iter next_day d p
           | Zneg p => Pos.iter prev_day d p
           end in
  if (MINYEAR <=? year r) && (year r <=? MAXYEAR)
  then Returns r else Raises OverflowError.

(** The microseconds of a day. *)
Definition day_us : Z := 86400000000.

(** A time zone, [settings.TIME_ZONE]: the offset from UTC, in
    microseconds and positive to the east, that is in force at the
    midnight that begins a day there. *)
Definition zone : Type := date -> Z.

Definition UTC : zone := fun _ => 0.

(** The day [n] days after [d], before it when [n] is negative. *)
Definition shift_days (d : date) (n : Z) : date :=
  match n with
  | Z0 => d
  | Zpos p => Pos.iter next_day d p
  | Zneg p => Pos.iter prev_day d p
  end.

(** How Django turns a date handed to a [DateTimeField] into a datetime:
    [make_aware(datetime.datetime(d.year, d.month, d.day), tz)], the
    instant at which the day [d] begins in the zone [tz].  East of UTC
    that instant lies in the evening of the day before; the days are
    counted on without the bounds of the calendar, so that the eve of the
    first day of year 1 is a day of year 0. *)
Definition make_aware (tz : zone) (d : date) : datetime :=
  let t := - tz d in
  mkdatetime (shift_days d (t / day_us)) (t mod day_us).

(** ["%0{width}d" % n] for a number of at most [width] digits *)
Fixpoint zfill (width : nat) (n : Z) : string :=
  match width with
  | O => EmptyString
  | S width' =>
      let digit := ascii_of_N (Z.to_N (48 + n mod 10)) in
      (zfill width' (n / 10) ++ String digit EmptyString)%string
  end.

(** [str(d)] *)
Definition date___str__ (d : date) : string :=
  (zfill 4 (year d) ++ "-" ++ zfill 2 (month d) ++ "-" ++ zfill 2 (day d))%string.

(** [str(t)] of an aware datetime in UTC: the microseconds are printed
    unless they are zero. *)
Definition datetime___str__ (t : datetime) : string :=
  let seconds := dt_time t / 1000000 in
  let microsecond := dt_time t mod 1000000 in
  let hour := seconds / 3600 in
  let minute := seconds / 60 mod 60 in
  let second := seconds mod 60 in
  (date___str__ (dt_date t) ++ " "
   ++ zfill 2 hour ++ ":" ++ zfill 2 minute ++ ":" ++ zfill 2 second
   ++ (if Z.eqb microsecond 0 then "" else "." ++ zfill 6 microsecond)
   ++ "+00:00")%string.

(** The fields of [relativedelta] this code uses: the relative [years],
    [months], [days] and the absolute [day]. *)
Record relativedelta : Type := mkrd {
  rd_years : Z;
  rd_months : Z;
  rd_days : Z;
  rd_day : option Z
}.

(** [relativedelta._fix]: months outside -11..11 carry into years. *)
Definition rd_fix (r : relativedelta) : relativedelta :=
  if 11 <? Z.abs (rd_months r) then
    let s := Z.sgn (rd_months r) in
    let q := (rd_months r * s) / 12 in
    let m := (rd_months r * s) mod 12 in
    mkrd (rd_years r + q * s) (m * s) (rd_days r) (rd_day r)
  else r.

(** The constructor [relativedelta(years=, months=, days=, day=)]. *)
Definition relativedelta_ (years months days : Z) (day : option Z) : relativedelta :=
  rd_fix (mkrd years months days day).

Definition rd_zero : relativedelta := relativedelta_ 0 0 0 None.
Definition rd_of_months (n : Z) : relativedelta := relativedelta_ 0 n 0 None.
Definition rd_of_years (n : Z) : relativedelta := relativedelta_ n 0 0 None.

(** [relativedelta.__bool__] *)
Definition rd_bool (r : relativedelta) : bool :=
  negb ((rd_years r =? 0) && (rd_months r =? 0) && (rd_days r =? 0) &&
        match rd_day r with None => true | Some _ => false end).

(** [relativedelta.__sub__] *)
Definition rd_sub (a b : relativedelta) : relativedelta :=
  relativedelta_ (rd_years a - rd_years b) (rd_months a - rd_months b)
                 (rd_days a - rd_days b)
                 (match rd_day a with Some d => Some d | None => rd_day b end).

(** [relativedelta.__neg__] *)
Definition rd_neg (a : relativedelta) : relativedelta :=
  relativedelta_ (- rd_years a) (- rd_months a) (- rd_days a) (rd_day a).

(** [relativedelta.__radd__]: [d + r].  Years and months first, the day
    clipped to the length of the month reached, then the days. *)
Definition date_add (d : date) (r : relativedelta) : outcome date :=
  let y := year d + rd_years r in
  let m := month d in
  let '(y, m) :=
    if rd_months r =? 0 then (y, m)
    else let m := m + rd_months r in
         if 12 <? m then (y + 1, m - 12)
         else if m <? 1 then (y - 1, m + 12)
         else (y, m) in
  let want := match rd_day r with
              | Some a => if a =? 0 then day d else a
              | None => day d
              end in
  let dd := Z.min (monthrange y m) want in
  obind (date_checked y m dd) (fun d' => add_days d' (rd_days r)).

(** [relativedelta.__rsub__]: [d - r] *)
Definition date_sub (d : date) (r : relativedelta) : outcome date :=
  date_add d (rd_neg r).

Definition datetime_add (t : datetime) (r : relativedelta) : outcome datetime :=
  obind (date_add (dt_date t) r) (fun d => Returns (mkdatetime d (dt_time t))).

Definition datetime_sub (t : datetime) (r : relativedelta) : outcome datetime :=
  datetime_add t (rd_neg r).

(** Months since year 0, the measure the dues loop moves along. *)
Definition month_index (d : date) : Z := 12 * year d + month d.

(** The months a relativedelta moves a date by. *)
Definition rd_total_months (r : relativedelta) : Z := 12 * rd_years r + rd_months r.

End Calendar.

(* ================================================================= *)
(** ** The database: rows, tables and statements *)

Module Store.
Import Calendar.

(** Modelled from the spec: the accounts of byro.bookkeeping, the three
    [SpecialAccounts] that section 3 names and every other account by
    primary key. *)
Inductive account : Type :=
| fees
| fees_receivable
| donations
| Account (pk : Z).

Definition account_eqb (a b : account) : bool :=
  match a, b with
  | fees, fees => true
  | fees_receivable, fees_receivable => true
  | donations, donations => true
  | Account x, Account y => x =? y
  | _, _ => false
  end.

(** Modelled from the spec: the [Transaction] row of byro.bookkeeping
    (section 3: value_datetime, booking_datetime, memo, reversed_by); a
    transaction is active iff [t_reversed_by] is null. *)
Record Transaction : Type := mkTransaction {
  t_pk : Z;
  t_value_datetime : datetime;
  t_booking_datetime : option datetime;
  t_memo : string;
  t_user_or_context : string;
  t_reversed_by : option Z
}.

(** Modelled from the spec: the [Booking] row of byro.bookkeeping.  A
    booking made by [t.debit] has its debit account set, one made by
    [t.credit] its credit account. *)
Record Booking : Type := mkBooking {
  b_pk : Z;
  b_transaction : Z;
  b_debit_account : option account;
  b_credit_account : option account;
  b_amount : Z;
  b_member : option Z
}.

(** The [Membership] model: the fee [ms_amount] is due every [ms_interval]
    months from [ms_start] until [ms_end], or without end. *)
Record Membership : Type := mkMembership {
  ms_member : Z;
  ms_start : date;
  ms_end : option date;
  ms_amount : Z;
  ms_interval : Z
}.

(** The choices of [MemberBalance.state]. *)
Inductive balance_state : Type := paid | partial | unpaid.

(** The [MemberBalance] model: the amount a member owes over the window
    from [mb_start] to [mb_end].  The amount is a
    [DecimalField(max_digits=8, decimal_places=2)]; what is saved has to
    fit it, see [amount_fits]. *)
Record MemberBalance : Type := mkMemberBalance {
  mb_member : Z;
  mb_reference : option string;
  mb_amount : Z;
  mb_start : datetime;
  mb_end : datetime;
  mb_state : balance_state
}.

Definition max_digits : Z := 8.

(** An amount that the column holds: at most [max_digits] digits, the
    hundredths among them. *)
Definition amount_fits (amount : Z) : bool := Z.abs amount <? 10 ^ max_digits.

(** Modelled from the spec: the [Configuration] singleton of byro.common,
    the [config.get()] of section 6, with the two settings read here. *)
Record Configuration : Type := mkConfiguration {
  liability_interval : Z;
  accounting_start : option date
}.

(** The tables these methods read and write. *)
Record Database : Type := mkDatabase {
  transactions : list Transaction;
  bookings : list Booking;
  memberships : list Membership;
  balances : list MemberBalance;
  configuration : Configuration
}.

(** A write statement, as issued. *)
Inductive write : Type :=
| WCreate (pk : Z) (value_datetime : datetime) (memo : string)
| WDebit (transaction : Z) (acc : account) (amount : Z) (member : option Z)
| WCredit (transaction : Z) (acc : account) (amount : Z) (member : option Z)
| WSave (transaction : Z)
| WReverse (transaction : Z) (memo : string)
| WBalance (row : MemberBalance).

(** The world a method runs in: the database, the statements issued so far,
    and how many more statements the database will take before one fails
    ([None]: it never fails). *)
Record world : Type := mkworld {
  db : Database;
  issued : list write;
  fault_in : option nat
}.

(** A method body: from a world to what it gives and the world it leaves,
    also when it raises. *)
Definition M (A : Type) : Type := world -> outcome A * world.

Definition ret {A} (a : A) : M A := fun w => (Returns a, w).

Definition bind {A B} (x : M A) (k : A -> M B) : M B :=
  fun w => match x w with
           | (Returns a, w') => k a w'
           | (Raises e, w') => (Raises e, w')
           | (Diverges, w') => (Diverges, w')
           end.

Definition raise {A} (e : exn) : M A := fun w => (Raises e, w).

Definition lift {A} (x : outcome A) : M A := fun w => (x, w).

Declare Scope M_scope.
Delimit Scope M_scope with M.
Notation "x <- c ;; k" := (bind c (fun x => k))
  (at level 61, c at next level, right associativity) : M_scope.
Notation "c ;;; k" := (bind c (fun _ => k))
  (at level 61, right associativity) : M_scope.
Open Scope M_scope.

(** Every statement first asks the database whether it still answers. *)
Definition statement : M unit :=
  fun w => match fault_in w with
           | None => (Returns tt, w)
           | Some O => (Raises DatabaseError, w)
           | Some (S n) => (Returns tt, mkworld (db w) (issued w) (Some n))
           end.

(** A statement that reads. *)
Definition query {A} (f : Database -> A) : M A :=
  statement ;;; fun w => (Returns (f (db w)), w).

(** A statement that writes. *)
Definition execute (ev : write) (f : Database -> Database) : M unit :=
  statement ;;; fun w => (Returns tt, mkworld (f (db w)) (issued w ++ [ev]) (fault_in w)).

(** [for x in xs: body x] *)
Fixpoint for_each {A} (xs : list A) (body : A -> M unit) : M unit :=
  match xs with
  | [] => ret tt
  | x :: xs' => body x ;;; for_each xs' body
  end.

(** [@transaction.atomic]: when the body does not return, the database is
    what it was on entry. *)
Definition atomic {A} (body : M A) : M A :=
  fun w => match body w with
           | (Returns a, w') => (Returns a, w')
           | (r, w') => (r, mkworld (db w) (issued w') (fault_in w'))
           end.

(** *** Querysets over bookings joined with their transaction *)

(** A booking with its transaction, and a queryset as the condition its
    rows satisfy; it is evaluated when it is iterated or aggregated. *)
Definition row : Type := (Booking * Transaction)%type.
Definition queryset : Type := row -> bool.

(** [Booking.objects], [qs.filter(q)] and [qs.exclude(q)] *)
Definition Booking_objects : queryset := fun _ => true.
Definition filter_ (qs : queryset) (q : row -> bool) : queryset :=
  fun r => qs r && q r.
Definition exclude (qs : queryset) (q : row -> bool) : queryset :=
  fun r => qs r && negb (q r).

(** The join of the bookings with their transactions. *)
Definition transaction_of (d : Database) (b : Booking) : option Transaction :=
  find (fun t => t_pk t =? b_transaction b) (transactions d).

(** Every booking with its transaction, in the order of the bookings. *)
Definition rows (d : Database) : list row :=
  flat_map (fun b => match transaction_of d b with
                     | Some t => [(b, t)]
                     | None => []
                     end) (bookings d).

(** [qs.all()], evaluated *)
Definition all (qs : queryset) : M (list row) :=
  query (fun d => filter qs (rows d)).

(** The SQL sum of the amounts: [None] over no rows *)
Definition Sum_amount (rs : list row) : option Z :=
  match rs with
  | [] => None
  | _ => Some (fold_right (fun r acc => b_amount (fst r) + acc) 0 rs)
  end.

(** [qs.aggregate(Sum("amount"))], evaluated *)
Definition aggregate_Sum_amount (qs : queryset) : M (option Z) :=
  query (fun d => Sum_amount (filter qs (rows d))).

(** Field lookups *)
Definition member_is (m : Z) : row -> bool :=
  fun r => match b_member (fst r) with Some x => x =? m | None => false end.
Definition debit_account_is (a : account) : row -> bool :=
  fun r => match b_debit_account (fst r) with
           | Some x => account_eqb x a | None => false end.
Definition credit_account_is (a : account) : row -> bool :=
  fun r => match b_credit_account (fst r) with
           | Some x => account_eqb x a | None => false end.
Definition transaction__reversed_by__isnull : row -> bool :=
  fun r => match t_reversed_by (snd r) with None => true | Some _ => false end.
Definition transaction__value_datetime__lte (t : datetime) : row -> bool :=
  fun r => datetime_leb (t_value_datetime (snd r)) t.
Definition transaction__value_datetime__gte (t : datetime) : row -> bool :=
  fun r => datetime_leb t (t_value_datetime (snd r)).

End Store.

(* ================================================================= *)
(** ** The ledger operations of byro.bookkeeping *)

Module Bookkeeping.
Import Calendar Store.

(** The next primary key of a table: one more than the largest so far. *)
Definition next_pk (pks : list Z) : Z := 1 + fold_right Z.max 0 pks.

Definition insert_transaction (t : Transaction) (d : Database) : Database :=
  mkDatabase (transactions d ++ [t]) (bookings d) (memberships d)
             (balances d) (configuration d).

Definition insert_bookings (bs : list Booking) (d : Database) : Database :=
  mkDatabase (transactions d) (bookings d ++ bs) (memberships d)
             (balances d) (configuration d).

(** Modelled from the spec: [Transaction.objects.create] of
    byro.bookkeeping, the [ledger.create_transaction] of section 6.  It
    appends an active transaction and hands back its reference. *)
Definition Transaction_objects_create (value_datetime : datetime)
    (booking_datetime : option datetime) (memo user_or_context : string) : M Z :=
  fun w =>
    let pk := next_pk (map t_pk (transactions (db w))) in
    (execute (WCreate pk value_datetime memo)
             (insert_transaction
                (mkTransaction pk value_datetime booking_datetime memo
                               user_or_context None)) ;;;
     ret pk) w.

(** Modelled from the spec: [Transaction.debit] of byro.bookkeeping, the
    [ledger.post] of section 6 on the debit side. *)
Definition debit (t : Z) (acc : account) (amount : Z) (member : option Z) : M unit :=
  fun w =>
    let pk := next_pk (map b_pk (bookings (db w))) in
    execute (WDebit t acc amount member)
            (insert_bookings [mkBooking pk t (Some acc) None amount member]) w.

(** Modelled from the spec: [Transaction.credit] of byro.bookkeeping, the
    [ledger.post] of section 6 on the credit side. *)
Definition credit (t : Z) (acc : account) (amount : Z) (member : option Z) : M unit :=
  fun w =>
    let pk := next_pk (map b_pk (bookings (db w))) in
    execute (WCredit t acc amount member)
            (insert_bookings [mkBooking pk t None (Some acc) amount member]) w.

(** Modelled from the spec: [Transaction.save] of byro.bookkeeping; the
    row is written again as it is. *)
Definition save (t : Z) : M unit := execute (WSave t) (fun d => d).

(** The booking that cancels [b]: the same amount and member on the other
    side of the same account. *)
Definition mirror (pk t' : Z) (b : Booking) : Booking :=
  mkBooking pk t' (b_credit_account b) (b_debit_account b) (b_amount b) (b_member b).

Fixpoint mirror_all (pk t' : Z) (bs : list Booking) : list Booking :=
  match bs with
  | [] => []
  | b :: bs' => mirror pk t' b :: mirror_all (pk + 1) t' bs'
  end.

(** The link from the reversed transaction [t] to [t'], set once. *)
Definition mark_reversed (t t' : Z) (x : Transaction) : Transaction :=
  if (t_pk x =? t) && match t_reversed_by x with None => true | Some _ => false end
  then mkTransaction (t_pk x) (t_value_datetime x) (t_booking_datetime x)
                     (t_memo x) (t_user_or_context x) (Some t')
  else x.

(** Modelled from the spec: the database after [Transaction.reverse]. *)
Definition reverse_in (t : Transaction) (memo user_or_context : string)
    (d : Database) : Database :=
  let t' := next_pk (map t_pk (transactions d)) in
  let mine := filter (fun b => b_transaction b =? t_pk t) (bookings d) in
  mkDatabase
    (map (mark_reversed (t_pk t) t') (transactions d)
       ++ [mkTransaction t' (t_value_datetime t) None memo user_or_context None])
    (bookings d ++ mirror_all (next_pk (map b_pk (bookings d))) t' mine)
    (memberships d) (balances d) (configuration d).

(** Modelled from the spec: [Transaction.reverse] of byro.bookkeeping, the
    [ledger.reverse] of section 6.  The transaction is kept; a new, linked
    transaction with the same value date carries the cancelling bookings,
    and [reversed_by] is set once. *)
Definition reverse (t : Transaction) (memo user_or_context : string) : M unit :=
  execute (WReverse (t_pk t) memo) (reverse_in t memo user_or_context).

End Bookkeeping.

(* ================================================================= *)
(** ** Python sets and dicts keyed by (date, amount) *)

Module Py.
Import Calendar.

(** A due: the date it falls on and the amount in cents. *)
Definition due : Type := (date * Z)%type.

Definition due_eqb (a b : due) : bool :=
  date_eqb (fst a) (fst b) && (snd a =? snd b).

(** Tuple comparison: by date, then by amount. *)
Definition due_ltb (a b : due) : bool :=
  date_ltb (fst a) (fst b) || (date_eqb (fst a) (fst b) && (snd a <? snd b)).

Definition due_leb (a b : due) : bool := negb (due_ltb b a).

Definition due_lt (a b : due) : Prop := due_ltb a b = true.
Definition due_le (a b : due) : Prop := due_leb a b = true.

Definition mem (x : due) (s : list due) : bool := existsb (due_eqb x) s.

(** [s.add(x)] *)
Definition add (x : due) (s : list due) : list due :=
  if mem x s then s else s ++ [x].

(** [s |= t] *)
Definition union (s t : list due) : list due :=
  fold_left (fun acc x => add x acc) t s.

(** [s - t] *)
Definition difference (s t : list due) : list due :=
  filter (fun x => negb (mem x t)) s.

Fixpoint insert_sorted (x : due) (l : list due) : list due :=
  match l with
  | [] => [x]
  | y :: l' => if due_leb x y then x :: l else y :: insert_sorted x l'
  end.

(** [sorted(s)] *)
Definition sorted (s : list due) : list due :=
  fold_right insert_sorted [] s.

(** A dict as an association list in insertion order: [d[k] = v] *)
Fixpoint dict_set {V} (k : due) (v : V) (d : list (due * V)) : list (due * V) :=
  match d with
  | [] => [(k, v)]
  | (k', v') :: d' =>
      if due_eqb k k' then (k', v) :: d' else (k', v') :: dict_set k v d'
  end.

(** [d[k]] *)
Fixpoint dict_get {V} (k : due) (d : list (due * V)) : option V :=
  match d with
  | [] => None
  | (k', v') :: d' => if due_eqb k k' then Some v' else dict_get k d'
  end.

(** [set(d.keys())] *)
Definition keys {V} (d : list (due * V)) : list due := map fst d.

End Py.

(* ================================================================= *)
(** ** byro.members.models *)

Module Members.
Import Calendar Store Bookkeeping Py.

(** *** Membership.get_dues *)

(** An upper bound on the turns of the [while] loop of [get_dues]: every
    turn moves the date by [interval] months, so with a positive interval
    the date passes [end_] within the months between the two, and with a
    negative one it leaves the calendar within the months since year 0.
    With [interval = 0] the loop never ends. *)
Definition dues_fuel (interval : Z) (start end_ : date) : nat :=
  S (Z.to_nat (if 0 <? interval
               then month_index end_ - month_index start + 1
               else month_index start)).

(** [while date <= end: dues.add((date, self.amount));
     date += relativedelta(months=self.interval)] *)
Fixpoint dues_while (fuel : nat) (self : Membership) (end_ date_ : date)
    (dues : list due) : outcome (list due) :=
  match fuel with
  | O => Diverges
  | S fuel' =>
      if date_leb date_ end_ then
        let dues := add (date_, ms_amount self) dues in
        obind (date_add date_ (rd_of_months (ms_interval self)))
              (fun date_ => dues_while fuel' self end_ date_ dues)
      else Returns dues
  end.

(** The first half of [get_dues]: the window the dues are generated in. *)
Definition dues_range (self : Membership) (_now : datetime) (_from : option date)
  : outcome (date * date) :=
  let end_ := ms_end self in
  let start := ms_start self in
  let start := match _from with
               | Some f => if date_ltb start f then f else start
               | None => start
               end in
  obind (match end_ with
         | Some e => Returns e
         | None =>
             except_ValueError
               (obind (replace_day _now (day start))
                      (fun t => Returns (dt_date t)))
               (obind (datetime_add _now (relativedelta_ 0 1 (-1) (Some 1)))
                      (fun t => Returns (dt_date t)))
         end)
        (fun end_ => Returns (start, end_)).

Definition get_dues (self : Membership) (_now : datetime) (_from : option date)
  : outcome ((date * date) * list due) :=
  obind (dues_range self _now _from) (fun '(start, end_) =>
  obind (dues_while (dues_fuel (ms_interval self) start end_) self end_ start [])
        (fun dues => Returns ((start, end_), dues))).

(** *** Member._calc_balance *)

Definition or_else {A} (x : option A) (dflt : A) : A :=
  match x with Some a => a | None => dflt end.

(** [x or Decimal("0.00")] on the result of an aggregate *)
Definition or_zero (x : option Z) : Z :=
  match x with
  | Some a => if a =? 0 then 0 else a
  | None => 0
  end.

Definition _calc_balance (self : Z) (now_ : datetime)
    (liability_cutoff asset_cutoff liability_start asset_start : option datetime)
  : M Z :=
  let _now := now_ in
  let fees_receivable_account := fees_receivable in
  let qs := filter_ Booking_objects (member_is self) in
  let debits :=
    filter_ qs (fun r => debit_account_is fees_receivable_account r &&
                         transaction__value_datetime__lte
                           (or_else liability_cutoff _now) r) in
  let debits := match liability_start with
                | Some s => filter_ debits (transaction__value_datetime__gte s)
                | None => debits
                end in
  let credits :=
    filter_ qs (fun r => credit_account_is fees_receivable_account r &&
                         transaction__value_datetime__lte
                           (or_else asset_cutoff _now) r) in
  let credits := match asset_start with
                 | Some s => filter_ credits (transaction__value_datetime__gte s)
                 | None => credits
                 end in
  liability <- aggregate_Sum_amount debits ;;
  asset <- aggregate_Sum_amount credits ;;
  ret (or_zero asset - or_zero liability).

(** *** Member.create_balance *)

Definition balances_of (self : Z) (d : Database) : list MemberBalance :=
  filter (fun b => mb_member b =? self) (balances d).

Definition insert_balance (b : MemberBalance) (d : Database) : Database :=
  mkDatabase (transactions d) (bookings d) (memberships d)
             (balances d ++ [b]) (configuration d).

(** [balance.save()]: Django formats the amount for its column before it
    sends the statement, and [Decimal.quantize] raises
    [decimal.InvalidOperation] for an amount of more than [max_digits]
    digits.  (The PostgreSQL backend leaves the amount as it is, and there
    it is the database that refuses the row.)  Nothing is stored then. *)
Definition MemberBalance_save (balance : MemberBalance) : M unit :=
  if amount_fits (mb_amount balance)
  then execute (WBalance balance) (insert_balance balance)
  else raise InvalidOperation.

(** [str(x)] of a field that may be unset *)
Definition str_or_None (x : option string) : string :=
  match x with
  | Some s => s
  | None => "None"
  end.

(** [Member.__str__]: ["Member {self.number} ({self.name})"] *)
Definition Member___str__ (number name : option string) : string :=
  ("Member " ++ str_or_None number ++ " (" ++ str_or_None name ++ ")")%string.

(** ["Cannot create overlapping balance: {} from {} to {}".format(self,
    start, end)] *)
Definition overlapping_balance (number name : option string) (start end_ : datetime)
  : string :=
  ("Cannot create overlapping balance: " ++ Member___str__ number name
   ++ " from " ++ datetime___str__ start ++ " to " ++ datetime___str__ end_)%string.

(** [self] is the key of the member, [number] and [name] are the two of
    its fields that [__str__] prints. *)
Definition create_balance (self : Z) (number name : option string) (now_ : datetime)
    (start end_ : datetime) (commit create_if_zero : bool) : M (option MemberBalance) :=
  any <- query (fun d => negb (match balances_of self d with
                               | [] => true | _ => false end)) ;;
  (if any then
     clash <- query (fun d =>
       existsb (fun b =>
                  (datetime_leb (mb_start b) start && datetime_leb start (mb_end b))
                  || (datetime_leb (mb_start b) end_ && datetime_leb end_ (mb_end b)))
               (balances_of self d)) ;;
     if clash then raise (Exception_ (overlapping_balance number name start end_))
     else ret tt
   else ret tt) ;;;
  amount <- _calc_balance self now_ (Some end_) (Some end_) (Some start) (Some start) ;;
  if (amount =? 0) && negb create_if_zero then ret None
  else
    let balance := mkMemberBalance self None amount start end_ unpaid in
    (if commit then MemberBalance_save balance
     else ret tt) ;;;
    ret (Some balance).

(** *** Member.statute_barred_debt *)

(** The date handed to [_calc_balance] by [statute_barred_debt]. *)
Definition last_unenforceable_date (cfg : Configuration) (now_ : datetime)
    (future_limit : option relativedelta) : outcome datetime :=
  let future_limit :=
    match future_limit with
    | Some f => if rd_bool f then f else rd_zero
    | None => rd_zero
    end in
  let limit := rd_sub (rd_of_months (liability_interval cfg)) future_limit in
  obind (replace_month_day now_ 12 31) (fun dec31 =>
  obind (datetime_sub dec31 limit) (fun t =>
  datetime_sub t (rd_of_years 1))).

Definition statute_barred_debt (self : Z) (now_ : datetime)
    (future_limit : option relativedelta) : M Z :=
  cfg <- query configuration ;;
  cutoff <- lift (last_unenforceable_date cfg now_ future_limit) ;;
  bal <- _calc_balance self now_ (Some cutoff) None None None ;;
  ret (Z.max 0 (- bal)).

(** *** Member.update_liabilites *)

(** Step 1: the loop over [self.memberships.all()]. *)
Fixpoint collect_dues (ms : list Membership) (_now : datetime) (_from : option date)
    (membership_ranges : list (date * date)) (dues : list due)
  : outcome (list (date * date) * list due) :=
  match ms with
  | [] => Returns (membership_ranges, dues)
  | membership :: rest =>
      if ms_amount membership =? 0 then
        collect_dues rest _now _from membership_ranges dues
      else
        obind (get_dues membership _now _from)
              (fun '(membership_range, membership_dues) =>
                 collect_dues rest _now _from
                              (membership_ranges ++ [membership_range])
                              (union dues membership_dues))
  end.

(** [Q(value_datetime__gte=start) & Q(value_datetime__lte=end)]: the two
    dates are compared as the instants at which they begin in [tz]. *)
Definition range_q (tz : zone) (rng : date * date) : row -> bool :=
  fun r => transaction__value_datetime__gte (make_aware tz (fst rng)) r &&
           transaction__value_datetime__lte (make_aware tz (snd rng)) r.

(** [reduce(lambda a, b: a | b, qs)]; only called on a non-empty list. *)
Definition reduce_or (qs : list (row -> bool)) : row -> bool :=
  match qs with
  | [] => fun _ => false
  | q :: qs' => fold_left (fun a b r => a r || b r) qs' q
  end.

(** [(b.transaction.value_datetime.date(), b.amount)]: the date is the UTC
    date of the stored instant. *)
Definition due_key (r : row) : due :=
  (dt_date (t_value_datetime (snd r)), b_amount (fst r)).

(** The active due bookings of a member from the accounting start on:
    what step 2 and step 6 both start from. *)
Definition liabilities_qs (tz : zone) (self : Z) (_from : option date) : queryset :=
  let qs := filter_ Booking_objects
              (fun r => member_is self r && credit_account_is fees r &&
                        transaction__reversed_by__isnull r) in
  match _from with
  | Some f => filter_ qs (transaction__value_datetime__gte (make_aware tz f))
  | None => qs
  end.

Definition memo_changed : string :=
  "Due amount canceled because of change in membership amount".
Definition memo_due : string := "Membership due".
Definition memo_stray : string := "Due amount outside of membership canceled".
Definition ctx_changed : string :=
  "internal: update_liabilites, membership amount changed".
Definition ctx_missing : string :=
  "internal: update_liabilites, add missing liabilities".
Definition ctx_stray : string :=
  "internal: update_liabilites, reverse stray liabilities".

(** Step 4 *)
Definition cancel_wrong (dues_in_db : list (due * row)) (wrong_dues_in_db : list due)
  : M unit :=
  for_each (sorted wrong_dues_in_db) (fun wrong_due =>
    match dict_get wrong_due dues_in_db with
    | Some booking => reverse (snd booking) memo_changed ctx_changed
    | None => raise KeyError
    end).

(** Step 5: [value_datetime=date] stores the instant at which the date
    begins in [tz]. *)
Definition add_missing (tz : zone) (self : Z) (_now : datetime)
    (missing_dues : list due) : M unit :=
  for_each (sorted missing_dues) (fun '(date_, amount) =>
    t <- Transaction_objects_create (make_aware tz date_) (Some _now) memo_due
                                    ctx_missing ;;
    credit t fees amount (Some self) ;;;
    debit t fees_receivable amount (Some self) ;;;
    save t).

(** Step 6 *)
Definition cancel_stray (tz : zone) (self : Z) (_from : option date)
    (membership_ranges : list (date * date)) : M unit :=
  let date_range_q := reduce_or (map (range_q tz) membership_ranges) in
  let stray_liabilities_qs := liabilities_qs tz self _from in
  let stray_liabilities_qs :=
    match membership_ranges with
    | [] => stray_liabilities_qs
    | _ => exclude stray_liabilities_qs date_range_q
    end in
  strays <- all stray_liabilities_qs ;;
  for_each strays (fun stray_liability =>
    reverse (snd stray_liability) memo_stray ctx_stray).

(** Steps 1 to 3: what is due, what is booked, and how they differ. *)
Definition compare_dues (tz : zone) (self : Z) (now_ : datetime)
  : M (option date * list (date * date) * list (due * row) * list due * list due) :=
  config <- query configuration ;;
  let _now := now_ in
  let _from := accounting_start config in
  ms <- query (fun d => filter (fun m => ms_member m =? self) (memberships d)) ;;
  step1 <- lift (collect_dues ms _now _from [] []) ;;
  let '(membership_ranges, dues) := step1 in
  let dues_qs := liabilities_qs tz self _from in
  let date_range_q := reduce_or (map (range_q tz) membership_ranges) in
  let dues_qs := match membership_ranges with
                 | [] => dues_qs
                 | _ => filter_ dues_qs date_range_q
                 end in
  found <- all dues_qs ;;
  let dues_in_db := fold_left (fun d b => dict_set (due_key b) b d) found [] in
  let dues_in_db_as_set := keys dues_in_db in
  let wrong_dues_in_db := difference dues_in_db_as_set dues in
  let missing_dues := difference dues dues_in_db_as_set in
  ret (_from, membership_ranges, dues_in_db, wrong_dues_in_db, missing_dues).

(** The body of [update_liabilites], without its decorator. *)
Definition update_liabilites_body (tz : zone) (self : Z) (now_ : datetime) : M unit :=
  cmp <- compare_dues tz self now_ ;;
  let '(_from, membership_ranges, dues_in_db, wrong_dues_in_db, missing_dues) := cmp in
  cancel_wrong dues_in_db wrong_dues_in_db ;;;
  add_missing tz self now_ missing_dues ;;;
  cancel_stray tz self _from membership_ranges.

Definition update_liabilites (tz : zone) (self : Z) (now_ : datetime) : M unit :=
  atomic (update_liabilites_body tz self now_).

(** *** Member.adjust_balance *)

Definition adjust_balance_body (self : Z) (now_ : datetime)
    (user_or_context memo : string) (amount : Z) (from_ to_ : account)
    (value_datetime : datetime) : M bool :=
  if amount =? 0 then ret false
  else
    let '(amount, from_, to_) :=
      if amount <? 0 then (- amount, to_, from_) else (amount, from_, to_) in
    let from_member := if account_eqb from_ fees_receivable then Some self else None in
    let to_member := if account_eqb to_ fees_receivable then Some self else None in
    t <- Transaction_objects_create value_datetime (Some now_) memo user_or_context ;;
    debit t to_ amount to_member ;;;
    credit t from_ amount from_member ;;;
    ret true.

Definition adjust_balance (self : Z) (now_ : datetime)
    (user_or_context memo : string) (amount : Z) (from_ to_ : account)
    (value_datetime : datetime) : M bool :=
  atomic (adjust_balance_body self now_ user_or_context memo amount from_ to_
                              value_datetime).

End Members.

(* ================================================================= *)
(** ** Python values outside the ledger *)

(** The exceptions of the code below: those of [exn] and four more. *)
Inductive error : Type :=
| Of (e : exn)
| IndexError
| AttributeError
| TypeError
| ValidationError (msg : string).

(** What a call without a loop gives: a value or an exception. *)
Inductive result (A : Type) : Type :=
| Ok (a : A)
| Raise (e : error).

Arguments Ok {A} a.
Arguments Raise {A} e.

Definition rbind {A B} (x : result A) (k : A -> result B) : result B :=
  match x with
  | Ok a => k a
  | Raise e => Raise e
  end.

(* ================================================================= *)
(** ** Python [str] *)

Module Str.

(** A [str] is read as the sequence of its code points, and every code
    point is below 256: the strings of this module are those of Latin-1,
    and what it says of [isspace], [isdigit] and [int] is said of these
    characters only.  Further up, Unicode has decimal digits that [int]
    reads as well. *)
Definition code (c : ascii) : N := N_of_ascii c.

(** [c.isspace()]: the ASCII blanks and separators, NEL and the
    no-break space. *)
Definition isspace (c : ascii) : bool :=
  (((9 <=? code c) && (code c <=? 13)) || ((28 <=? code c) && (code c <=? 32))
   || (code c =? 133) || (code c =? 160))%N.

Definition nonblank (c : ascii) : bool := negb (isspace c).

(** A character that [int] reads as a digit: below code point 256 these
    are 0 to 9. *)
Definition isdecimal (c : ascii) : bool :=
  ((48 <=? code c) && (code c <=? 57))%N.

(** [c.isdigit()] below code point 256: 0 to 9 and the superscripts two,
    three and one. *)
Definition isdigit_char (c : ascii) : bool :=
  (isdecimal c || (code c =? 178) || (code c =? 179) || (code c =? 185))%N.

Fixpoint all_chars (p : ascii -> bool) (s : string) : bool :=
  match s with
  | EmptyString => true
  | String c s' => p c && all_chars p s'
  end.

(** [s.isdigit()] *)
Definition isdigit (s : string) : bool :=
  match s with
  | EmptyString => false
  | _ => all_chars isdigit_char s
  end.

Definition digit_value (c : ascii) : Z := Z.of_N (code c) - 48.

Fixpoint int_loop (acc : Z) (s : string) : result Z :=
  match s with
  | EmptyString => Ok acc
  | String c s' =>
      if isdecimal c then int_loop (10 * acc + digit_value c) s'
      else Raise (Of ValueError)
  end.

(** [int(s)] for a string of characters below code point 256 with no
    sign, no blank and no underscore, which is all that [isdigit] lets
    through. *)
Definition int_ (s : string) : result Z :=
  match s with
  | EmptyString => Raise (Of ValueError)
  | _ => int_loop 0 s
  end.

(** The loop of [s.split()]: [word] is the word read so far. *)
Fixpoint split_loop (word s : string) : list string :=
  match s with
  | EmptyString => match word with EmptyString => [] | _ => [word] end
  | String c s' =>
      if isspace c
      then match word with
           | EmptyString => split_loop EmptyString s'
           | _ => word :: split_loop EmptyString s'
           end
      else split_loop (word ++ String c EmptyString) s'
  end.

(** [s.split()]: the words between runs of whitespace. *)
Definition split (s : string) : list string := split_loop EmptyString s.

(** [s.lstrip()], [s.rstrip()] and [s.strip()] *)
Fixpoint lstrip (s : string) : string :=
  match s with
  | EmptyString => EmptyString
  | String c s' => if isspace c then lstrip s' else s
  end.

Fixpoint rstrip (s : string) : string :=
  match s with
  | EmptyString => EmptyString
  | String c s' =>
      match rstrip s' with
      | EmptyString => if isspace c then EmptyString else String c EmptyString
      | rest => String c rest
      end
  end.

Definition strip (s : string) : string := rstrip (lstrip s).

Fixpoint drop (n : nat) (s : string) : string :=
  match n, s with
  | O, _ => s
  | S n', String _ s' => drop n' s'
  | S _, EmptyString => EmptyString
  end.

(** The cut of [s] at the last place where [sep] stands, if there is one. *)
Fixpoint rpartition (sep s : string) : option (string * string) :=
  match s with
  | EmptyString => None
  | String c s' =>
      match rpartition sep s' with
      | Some (l, r) => Some (String c l, r)
      | None => if prefix sep s then Some (EmptyString, drop (String.length sep) s)
                else None
      end
  end.

(** [s.rsplit(sep, 1)] for a separator that is not empty *)
Definition rsplit_1 (sep s : string) : list string :=
  match rpartition sep s with
  | Some (l, r) => [l; r]
  | None => [s]
  end.

(** [s.endswith(suffix)] *)
Fixpoint endswith (suffix s : string) : bool :=
  String.eqb s suffix ||
  match s with
  | EmptyString => false
  | String _ s' => endswith suffix s'
  end.

End Str.

(* ================================================================= *)
(** ** Members: numbers, names and active memberships *)

Module Profile.
Import Calendar Store Str.

(** The [Member] row. *)
Record Member : Type := mkMember {
  m_pk : Z;
  m_number : option string;
  m_name : option string;
  m_direct_address_name : option string;
  m_order_name : option string;
  m_address : option string;
  m_email : option string;
  m_membership_type : string;
  m_member_contact_type : string
}.

(** [MemberTypes] *)
Definition MEMBER : string := "member".
Definition EXTERNAL : string := "external".

(** *** get_next_member_number *)

(** [max(xs)] of a sequence *)
Definition max_ (xs : list Z) : result Z :=
  match xs with
  | [] => Raise (Of ValueError)
  | x :: xs' => Ok (fold_left Z.max xs' x)
  end.

(** [int(n) for n in ns], consumed to its end *)
Fixpoint ints (ns : list string) : result (list Z) :=
  match ns with
  | [] => Ok []
  | n :: ns' => rbind (int_ n) (fun x => rbind (ints ns') (fun xs => Ok (x :: xs)))
  end.

(** [n for n in all_numbers if n is not None and n.isdigit()] *)
Definition numeric (all_numbers : list (option string)) : list string :=
  flat_map (fun n => match n with
                     | Some s => if isdigit s then [s] else []
                     | None => []
                     end) all_numbers.

(** [get_next_member_number()] over the rows of [Member.all_objects] *)
Definition get_next_member_number (all_objects : list Member) : Z :=
  let all_numbers := map m_number all_objects in
  let numeric_numbers := numeric all_numbers in
  match rbind (rbind (ints numeric_numbers) max_) (fun m => Ok (m + 1)) with
  | Ok next => next
  | Raise _ => 1
  end.

(** *** Member.get_query_for_search *)

(** A [Q] object over the three lookups used here: the empty [Q()], a
    lookup, or two of them joined by [|]. *)
Inductive Q : Type :=
| Q_
| name__icontains (part : string)
| profile_profile__nick__icontains (part : string)
| number (search : string)
| Or (a b : Q).

(** [a | b]: an empty side is left out. *)
Definition or_ (a b : Q) : Q :=
  match a, b with
  | _, Q_ => a
  | Q_, _ => b
  | _, _ => Or a b
  end.

(** [for part in search_parts: query |= ...] *)
Fixpoint search_loop (search : string) (search_parts : list string) (query : Q) : Q :=
  match search_parts with
  | [] => query
  | part :: rest =>
      let query := or_ query (name__icontains part) in
      let query := or_ query (profile_profile__nick__icontains part) in
      let query := or_ query (number search) in
      search_loop search rest query
  end.

Definition get_query_for_search (search : string) : Q :=
  let search_parts := split (strip search) in
  search_loop search search_parts Q_.

(** Whether a member row with its profile satisfies a [Q]; [icontains] is
    the comparison of the database, and a lookup on NULL finds nothing. *)
Fixpoint satisfies (icontains : string -> string -> bool) (q : Q)
    (m : Member) (nick : option string) : bool :=
  match q with
  | Q_ => true
  | name__icontains part =>
      match m_name m with Some s => icontains s part | None => false end
  | profile_profile__nick__icontains part =>
      match nick with Some s => icontains s part | None => false end
  | number search =>
      match m_number m with Some s => String.eqb s search | None => false end
  | Or a b => satisfies icontains a m nick || satisfies icontains b m nick
  end.

(** *** Member.update_name_fields *)

(** The two settings of [Configuration] read here. *)
Record NameConfiguration : Type := mkNameConfiguration {
  default_order_name : string;
  default_direct_address_name : string
}.

(** [bool(s)] of a nullable string *)
Definition truthy (s : option string) : bool :=
  match s with
  | Some (String _ _) => true
  | _ => false
  end.

(** [xs[0]] and [xs[-1]] *)
Definition first_ (xs : list string) : result string :=
  match xs with
  | [] => Raise IndexError
  | x :: _ => Ok x
  end.
Definition last_ (xs : list string) : result string :=
  match rev xs with
  | [] => Raise IndexError
  | x :: _ => Ok x
  end.

(** [name_parts[0] if default == "first" else name_parts[-1]] *)
Definition name_part (default : string) (name_parts : list string) : result string :=
  if String.eqb default "first" then first_ name_parts else last_ name_parts.

Definition set_order_name (self : Member) (v : string) : Member :=
  mkMember (m_pk self) (m_number self) (m_name self) (m_direct_address_name self)
           (Some v) (m_address self) (m_email self) (m_membership_type self)
           (m_member_contact_type self).

Definition set_direct_address_name (self : Member) (v : string) : Member :=
  mkMember (m_pk self) (m_number self) (m_name self) (Some v)
           (m_order_name self) (m_address self) (m_email self)
           (m_membership_type self) (m_member_contact_type self).

(** A method on a member object: what it gives, the object afterwards and
    the rows that [self.save()] has written, oldest first. *)
Definition method : Type := Member * list Member -> result unit * (Member * list Member).

Definition save_if (save : bool) (self : Member) (saved : list Member) : list Member :=
  if save then saved ++ [self] else saved.

Definition update_order_name (config : NameConfiguration) (force save : bool) : method :=
  fun '(self, saved) =>
    if negb (truthy (m_order_name self)) || force then
      match m_name self with
      | None => (Raise AttributeError, (self, saved))
      | Some name =>
          let name_parts := split name in
          match name_part (default_order_name config) name_parts with
          | Raise e => (Raise e, (self, saved))
          | Ok part =>
              let self := set_order_name self part in
              (Ok tt, (self, save_if save self saved))
          end
      end
    else (Ok tt, (self, saved)).

Definition update_direct_address_name (config : NameConfiguration) (force save : bool)
  : method :=
  fun '(self, saved) =>
    if negb (truthy (m_direct_address_name self)) || force then
      match m_name self with
      | None => (Raise AttributeError, (self, saved))
      | Some name =>
          let name_parts := split name in
          match name_part (default_direct_address_name config) name_parts with
          | Raise e => (Raise e, (self, saved))
          | Ok part =>
              let self := set_direct_address_name self part in
              (Ok tt, (self, save_if save self saved))
          end
      end
    else (Ok tt, (self, saved)).

Definition update_name_fields (config : NameConfiguration) (force save : bool) : method :=
  fun st =>
    match update_order_name config force save st with
    | (Ok _, st') => update_direct_address_name config force save st'
    | r => r
    end.

(** *** Member.is_active and MemberQuerySet.with_active_membership *)

(** [self.memberships]: the memberships of the member [self]. *)
Definition memberships_ (self : Z) (d : Database) : list Membership :=
  filter (fun m => ms_member m =? self) (memberships d).

(** [membership.start <= today and
     (membership.end is None or membership.end >= today)] *)
Definition running (today : date) (membership : Membership) : bool :=
  date_leb (ms_start membership) today &&
  match ms_end membership with
  | None => true
  | Some e => date_leb today e
  end.

(** The [for] loop of [is_active]. *)
Fixpoint is_active_loop (today : date) (ms : list Membership) : bool :=
  match ms with
  | [] => false
  | membership :: rest =>
      if running today membership then true else is_active_loop today rest
  end.

(** [Member.is_active]; the clock is read as [now_] each time. *)
Definition is_active (self : Z) (now_ : datetime) (d : Database) : bool :=
  if Nat.eqb (List.length (memberships_ self d)) 0 then false
  else is_active_loop (dt_date now_) (memberships_ self d).

(** A queryset over members: the condition on the member row. *)
Definition MemberQuerySet : Type := Member -> bool.

Fixpoint insert_desc (m : Member) (l : list Member) : list Member :=
  match l with
  | [] => [m]
  | x :: l' => if m_pk x <=? m_pk m then m :: l else x :: insert_desc m l'
  end.

(** [ORDER BY id DESC] *)
Definition order_by_id_desc (l : list Member) : list Member :=
  fold_right insert_desc [] l.

(** [SELECT DISTINCT]: the rows are those of one table, so two of them
    are the same row when they have the same primary key. *)
Fixpoint distinct (l : list Member) : list Member :=
  match l with
  | [] => []
  | x :: l' => x :: filter (fun y => negb (m_pk y =? m_pk x)) (distinct l')
  end.

(** [MemberQuerySet.with_active_membership]: the member rows joined with
    their memberships, one filter on the joined row. *)
Definition with_active_membership (qs : MemberQuerySet) (now_ : datetime)
    (members : list Member) (d : Database) : list Member :=
  let joined :=
    flat_map (fun m => map (fun membership => (m, membership))
                           (memberships_ (m_pk m) d))
             (filter qs members) in
  let hits := filter (fun r => running (dt_date now_) (snd r)) joined in
  distinct (order_by_id_desc (map fst hits)).

(** [MemberManager.get_queryset] *)
Definition MemberManager_get_queryset : MemberQuerySet :=
  fun m => String.eqb (m_membership_type m) MEMBER.

(** [Member.objects.with_active_membership()] *)
Definition MemberManager_with_active_membership (now_ : datetime)
    (members : list Member) (d : Database) : list Member :=
  with_active_membership MemberManager_get_queryset now_ members d.

End Profile.

(* ================================================================= *)
(** ** Members: what the ledger says about a member *)

Module MemberLedger.
Import Calendar Store Members.

(** [Member.balance] *)
Definition balance (self : Z) (now_ : datetime) : M Z :=
  _calc_balance self now_ None None None None.

(** The later of two datetimes. *)
Definition datetime_max (a b : datetime) : datetime :=
  if datetime_ltb a b then b else a.

(** The SQL maximum of the value dates: [None] over no rows *)
Definition Max_value_datetime (rs : list row) : option datetime :=
  match rs with
  | [] => None
  | r :: rs' =>
      Some (fold_left (fun acc x => datetime_max acc (t_value_datetime (snd x)))
                      rs' (t_value_datetime (snd r)))
  end.

(** The queryset of [_calc_last_membership_fee_transaction_timestamp]. *)
Definition fee_transactions (self : Z) (_now : datetime) : queryset :=
  let fees_receivable_account := fees_receivable in
  filter_ Booking_objects
    (fun r => (debit_account_is fees_receivable_account r
               || credit_account_is fees_receivable_account r)
              && member_is self r
              && transaction__value_datetime__lte _now r).

Definition _calc_last_membership_fee_transaction_timestamp (self : Z) (now_ : datetime)
  : M (option datetime) :=
  let _now := now_ in
  query (fun d => Max_value_datetime (filter (fee_transactions self _now) (rows d))).

(** [Member.last_membership_fee_transaction_timestamp] *)
Definition last_membership_fee_transaction_timestamp (self : Z) (now_ : datetime)
  : M (option datetime) :=
  _calc_last_membership_fee_transaction_timestamp self now_.

(** [Member.donations] *)
Definition donations (self : Z) (now_ : datetime) : queryset :=
  filter_ Booking_objects
    (fun r => credit_account_is Store.donations r
              && member_is self r
              && transaction__value_datetime__lte now_ r).

(** [Member.donation_balance] *)
Definition donation_balance (self : Z) (now_ : datetime) : M Z :=
  donations_ <- aggregate_Sum_amount (donations self now_) ;;
  ret (or_zero donations_).

(** [Member.fee_payments] *)
Definition fee_payments (self : Z) (now_ : datetime) : queryset :=
  filter_ Booking_objects
    (fun r => debit_account_is fees_receivable r
              && member_is self r
              && transaction__value_datetime__lte now_ r).

End MemberLedger.

(* ================================================================= *)
(** ** byro.common.forms.registration *)

Module Registration.
Import Str.

(** The values a cleaned form field or a stored setting holds; a
    [Decimal] has two places and is counted in hundredths. *)
Inductive value : Type :=
| VNone
| VBool (b : bool)
| VInt (z : Z)
| VDecimal (hundredths : Z)
| VStr (s : string).

(** The number a value stands for, in hundredths, if it is one. *)
Definition as_number (v : value) : option Z :=
  match v with
  | VBool b => Some (if b then 100 else 0)
  | VInt z => Some (100 * z)
  | VDecimal h => Some h
  | _ => None
  end.

(** [a == b]: numbers by what they stand for, [True] as 1. *)
Definition value_eqb (a b : value) : bool :=
  match a, b with
  | VNone, VNone => true
  | VStr x, VStr y => String.eqb x y
  | _, _ => match as_number a, as_number b with
            | Some x, Some y => x =? y
            | _, _ => false
            end
  end.

(** A dict in insertion order. *)
Section Dict.
Context {K V : Type} (eqb : K -> K -> bool).

(** [d[k] = v] *)
Fixpoint setitem (k : K) (v : V) (d : list (K * V)) : list (K * V) :=
  match d with
  | [] => [(k, v)]
  | (k', v') :: d' =>
      if eqb k k' then (k', v) :: d' else (k', v') :: setitem k v d'
  end.

(** [d.get(k)] *)
Fixpoint get (k : K) (d : list (K * V)) : option V :=
  match d with
  | [] => None
  | (k', v') :: d' => if eqb k k' then Some v' else get k d'
  end.

End Dict.

(** The cleaned data of the form, a stored entry, and the dict of dicts
    that [save] builds. *)
Definition cleaned : Type := list (string * value).
Definition entry : Type := list (string * value).

(** *** RegistrationConfigForm.clean *)

(** [set(xs)] *)
Fixpoint set_ (xs : list value) : list value :=
  match xs with
  | [] => []
  | x :: xs' => x :: filter (fun y => negb (value_eqb y x)) (set_ xs')
  end.

Definition is_None (v : value) : bool :=
  match v with VNone => true | _ => false end.

(** [[value for (key, value) in ret.items()
      if key.endswith("__position") and value is not None]] *)
Definition positions_of (ret : cleaned) : list value :=
  flat_map (fun '(key, value) =>
              if endswith "__position" key && negb (is_None value) then [value] else [])
           ret.

(** [clean], on what [super().clean()] gives *)
Definition clean (ret : cleaned) : result cleaned :=
  let positions := positions_of ret in
  if negb (Nat.eqb (List.length positions) (List.length (set_ positions)))
  then Raise (ValidationError "Every position must be unique!")
  else Ok ret.

(** *** RegistrationConfigForm.save *)

(** [data.setdefault(name, {})[key] = value] *)
Definition setdefault_setitem (name key : string) (v : value)
    (data : list (string * entry)) : list (string * entry) :=
  match get String.eqb name data with
  | Some inner => setitem String.eqb name (setitem String.eqb key v inner) data
  | None => setitem String.eqb name (setitem String.eqb key v []) data
  end.

(** The [for] loop of [save]; [name, key = ...] raises ValueError when
    the split gives one part. *)
Fixpoint save_loop (items : cleaned) (data : list (string * entry))
  : result (list (string * entry)) :=
  match items with
  | [] => Ok data
  | (full_name, v) :: rest =>
      match rsplit_1 "__" full_name with
      | [name; key] => save_loop rest (setdefault_setitem name key v data)
      | _ => Raise (Of ValueError)
      end
  end.

(** [dict(name=key, **value)]: a keyword given twice is a TypeError. *)
Definition named (key : string) (v : entry) : result entry :=
  match get String.eqb "name"%string v with
  | Some _ => Raise TypeError
  | None => Ok (("name"%string, VStr key) :: v)
  end.

Fixpoint named_all (data : list (string * entry)) : result (list entry) :=
  match data with
  | [] => Ok []
  | (key, v) :: rest =>
      rbind (named key v) (fun e => rbind (named_all rest) (fun es => Ok (e :: es)))
  end.

(** What [json.dumps] takes: a [Decimal] is not JSON serializable. *)
Definition serializable (v : value) : bool :=
  match v with
  | VDecimal _ => false
  | _ => true
  end.

(** [config.save()]: [registration_form] is a [JSONField], so the list is
    encoded as JSON; this raises TypeError at a value that JSON cannot
    hold and stores nothing then.  What is stored reads back as it was
    written. *)
Definition config_save (registration_form : list entry) : result (list entry) :=
  if forallb (fun e : entry => forallb (fun kv => serializable (snd kv)) e)
             registration_form
  then Ok registration_form
  else Raise TypeError.

(** [save]: the list it assigns to [config.registration_form] and, when
    it returns, has stored there. *)
Definition save (cleaned_data : cleaned) : result (list entry) :=
  rbind (rbind (save_loop cleaned_data []) named_all) config_save.

(** *** RegistrationConfigForm.__init__: reading the stored settings *)

(** The loop over [config]: the entries by their name. *)
Fixpoint by_name (config : list entry) (data : list (value * entry))
  : list (value * entry) :=
  match config with
  | [] => data
  | e :: rest =>
      match get String.eqb "name"%string e with
      | None => by_name rest data
      | Some n => by_name rest (setitem value_eqb n e data)
      end
  end.

(** [entry.get(value_name, form_field.initial)] for the form field
    [full_name] of the model field [key] *)
Definition initial (registration_form : option (list entry)) (key full_name : string)
    (field_initial : value) : value :=
  let config := match registration_form with
                | Some (e :: es) => e :: es
                | _ => []
                end in
  let data := by_name config [] in
  let entry_ := match get value_eqb (VStr key) data with
                | Some e => e
                | None => []
                end in
  let value_name := List.last (rsplit_1 "__" full_name) EmptyString in
  match get String.eqb value_name entry_ with
  | Some v => v
  | None => field_initial
  end.

End Registration.

(* ================================================================= *)
(** ** The specification in its own words *)

Module Spec.
Import Calendar Store Bookkeeping Py Members.

(** *** Section 4.1: the window of the dues *)

(** The later of two dates. *)
Definition date_max (a b : date) : date := if date_ltb a b then b else a.

(** [max(membership.start, from)], or [membership.start] without [from]. *)
Definition range_start (m : Membership) (from : option date) : date :=
  match from with
  | Some f => date_max (ms_start m) f
  | None => ms_start m
  end.

(** The last day of the month of [today]. *)
Definition last_day_of_month (today : date) : date :=
  mkdate (year today) (month today) (monthrange (year today) (month today)).

(** The day [dom] of the month of [today], or the last day of that month
    when it has no such day. *)
Definition same_day_this_month (today : date) (dom : Z) : date :=
  if dom <=? monthrange (year today) (month today)
  then mkdate (year today) (month today) dom
  else last_day_of_month today.

(** [range_end] with the day-of-month of [membership.start]. *)
Definition range_end_of_start (m : Membership) (now_ : datetime) : date :=
  match ms_end m with
  | Some e => e
  | None => same_day_this_month (dt_date now_) (day (ms_start m))
  end.

(** [range_end] with the day-of-month of [range_start]. *)
Definition range_end (m : Membership) (now_ : datetime) (from : option date) : date :=
  match ms_end m with
  | Some e => e
  | None => same_day_this_month (dt_date now_) (day (range_start m from))
  end.

(** *** Section 4.5: the cutoff of the statute of limitations *)

(** [future_limit or relativedelta()] *)
Definition future_limit_or_zero (f : option relativedelta) : relativedelta :=
  match f with
  | Some f => if rd_bool f then f else rd_zero
  | None => rd_zero
  end.

(** [Dec 31 - m months - 1 year - f], taken off one after the other. *)
Definition cutoff_minus_future_limit (cfg : Configuration) (now_ : datetime)
    (f : option relativedelta) : outcome datetime :=
  obind (replace_month_day now_ 12 31) (fun t =>
  obind (datetime_sub t (rd_of_months (liability_interval cfg))) (fun t =>
  obind (datetime_sub t (rd_of_years 1)) (fun t =>
  datetime_sub t (future_limit_or_zero f)))).

(** [Dec 31 + (f - m months) - 1 year] *)
Definition cutoff_plus_future_limit (cfg : Configuration) (now_ : datetime)
    (f : option relativedelta) : outcome datetime :=
  obind (replace_month_day now_ 12 31) (fun t =>
  obind (datetime_add t (rd_sub (future_limit_or_zero f)
                                (rd_of_months (liability_interval cfg)))) (fun t =>
  datetime_sub t (rd_of_years 1))).

(** *** Sections 4.4 and 8: balances and snapshots *)

(** The sum of the amounts of the rows that satisfy [p]. *)
Definition total_rows (p : row -> bool) (rs : list row) : Z :=
  fold_right (fun r acc => if p r then b_amount (fst r) + acc else acc) 0 rs.

(** The same over the joined booking rows of the database. *)
Definition total (p : row -> bool) (d : Database) : Z := total_rows p (rows d).

(** The sum of the amounts of the bookings that satisfy [f]. *)
Definition total_bookings (f : Booking -> bool) (bs : list Booking) : Z :=
  fold_right (fun b acc => if f b then b_amount b + acc else acc) 0 bs.

(** A booking is active when its transaction has not been reversed. *)
Definition active : row -> bool := transaction__reversed_by__isnull.

(** Credits minus debits on fees receivable up to [T], over the bookings of
    the member that are in [scope]. *)
Definition balance_over (scope : row -> bool) (self : Z) (T : datetime)
    (d : Database) : Z :=
  total (fun r => scope r && member_is self r &&
                  credit_account_is fees_receivable r &&
                  datetime_leb (t_value_datetime (snd r)) T) d
  - total (fun r => scope r && member_is self r &&
                    debit_account_is fees_receivable r &&
                    datetime_leb (t_value_datetime (snd r)) T) d.

(** No restriction on the bookings. *)
Definition every_booking : row -> bool := fun _ => true.

(** The rows of the bookings of transaction [pk]. *)
Definition of_transaction (pk : Z) : row -> bool :=
  fun r => b_transaction (fst r) =? pk.

(** The conditions of the two sums of the balance, on a booking and the
    value date of its transaction. *)
Definition counts_as_credit (self : Z) (T : datetime) (b : Booking) (v : datetime)
  : bool :=
  match b_member b with Some x => x =? self | None => false end
  && match b_credit_account b with
     | Some x => account_eqb x fees_receivable | None => false end
  && datetime_leb v T.
Definition counts_as_debit (self : Z) (T : datetime) (b : Booking) (v : datetime)
  : bool :=
  match b_member b with Some x => x =? self | None => false end
  && match b_debit_account b with
     | Some x => account_eqb x fees_receivable | None => false end
  && datetime_leb v T.

(** Transactions have distinct keys and every booking has its transaction. *)
Definition well_formed (d : Database) : Prop :=
  NoDup (map t_pk (transactions d)) /\
  forall b, In b (bookings d) -> In (b_transaction b) (map t_pk (transactions d)).

(** Two windows [s1, e1] and [s2, e2] share a moment. *)
Definition overlapping (s1 e1 s2 e2 : datetime) : bool :=
  datetime_leb s1 e2 && datetime_leb s2 e1.

(** *** Section 4.3: the statements of steps 4 to 6, in the order issued *)

(** Step 4 over the keys [ks]: one reversal per key. *)
Definition reversal_writes (dues_in_db : list (due * row)) (ks : list due)
  : list write :=
  flat_map (fun k => match dict_get k dues_in_db with
                     | Some b => [WReverse (t_pk (snd b)) memo_changed]
                     | None => []
                     end) ks.

(** Step 5 over the dues [ds], the first new transaction getting key [t]. *)
Fixpoint posting_writes (tz : zone) (self t : Z) (ds : list due) : list write :=
  match ds with
  | [] => []
  | (d, a) :: ds' =>
      WCreate t (make_aware tz d) memo_due
      :: WCredit t fees a (Some self)
      :: WDebit t fees_receivable a (Some self)
      :: WSave t
      :: posting_writes tz self (t + 1) ds'
  end.

(** Step 6 over the stray rows. *)
Definition stray_writes (strays : list row) : list write :=
  map (fun r => WReverse (t_pk (snd r)) memo_stray) strays.

(** *** Sections 4.3 and 7: faults *)

(** The same world with a database that never fails. *)
Definition calm (w : world) : world := mkworld (db w) (issued w) None.

(** A computation that, when it returns, did not depend on the faults that
    were still to come. *)
Definition fault_blind {A} (x : M A) : Prop :=
  forall w a w', x w = (Returns a, w') -> x (calm w) = (Returns a, calm w').

(** The wrong and the missing dues that steps 1 to 3 find. *)
Definition wrong_and_missing (tz : zone) (self : Z) (now_ : datetime) (w : world)
  : outcome (list due * list due) :=
  obind (fst (compare_dues tz self now_ w))
        (fun '(_, _, _, wrong, missing) => Returns (wrong, missing)).

(** *** Section 4.3: the ledger across a run *)

(** The database after step 5 has booked the due [k]. *)
Definition posted (tz : zone) (self : Z) (_now : datetime) (k : due) (d : Database)
  : Database :=
  let t := next_pk (map t_pk (transactions d)) in
  let d1 := insert_transaction
              (mkTransaction t (make_aware tz (fst k)) (Some _now) memo_due ctx_missing
                             None)
              d in
  let d2 := insert_bookings
              [mkBooking (next_pk (map b_pk (bookings d1))) t None (Some fees) (snd k)
                         (Some self)] d1 in
  insert_bookings
    [mkBooking (next_pk (map b_pk (bookings d2))) t (Some fees_receivable) None (snd k)
               (Some self)] d2.

(** The row of the credit booking of a due [k] booked as transaction [t]. *)
Definition due_row (tz : zone) (self : Z) (_now : datetime) (k : due) (pk t : Z)
  : row :=
  (mkBooking pk t None (Some fees) (snd k) (Some self),
   mkTransaction t (make_aware tz (fst k)) (Some _now) memo_due ctx_missing None).

(** The row of the debit booking next to it. *)
Definition receivable_row (tz : zone) (self : Z) (_now : datetime) (k : due)
    (pk t : Z) : row :=
  (mkBooking pk t (Some fees_receivable) None (snd k) (Some self),
   mkTransaction t (make_aware tz (fst k)) (Some _now) memo_due ctx_missing None).

(** A later state [d'] of the ledger [d]: well formed, with the
    transactions of [d] still there and every new booking on a new
    transaction, for the same memberships and configuration. *)
Definition extends (d d' : Database) : Prop :=
  well_formed d' /\
  incl (map t_pk (transactions d)) (map t_pk (transactions d')) /\
  (forall b, In b (bookings d') ->
             In b (bookings d) \/ ~ In (b_transaction b) (map t_pk (transactions d))) /\
  memberships d' = memberships d /\ configuration d' = configuration d.

(** A condition that only active due bookings of the member satisfy. *)
Definition liability_like (self : Z) (P : row -> bool) : Prop :=
  forall r, P r = true ->
            member_is self r = true /\ credit_account_is fees r = true /\
            t_reversed_by (snd r) = None.

(** No transaction that holds a due of the member, a credit on the fees
    account, also holds a debit of the member on that account.  The
    reversal of such a transaction would be a due again. *)
Definition no_fee_debits (self : Z) (d : Database) : Prop :=
  forall b b', In b (bookings d) -> In b' (bookings d) ->
               b_transaction b = b_transaction b' ->
               b_member b = Some self -> b_credit_account b = Some fees ->
               b_member b' = Some self -> b_debit_account b' <> Some fees.

(** The database after the transactions of the rows [L] have been
    reversed one after the other. *)
Definition reversed (memo user_or_context : string) (L : list row) (d : Database)
  : Database :=
  fold_left (fun d r => reverse_in (snd r) memo user_or_context d) L d.

(** The database after step 5 has booked the dues [ks] one after the
    other. *)
Definition posted_all (tz : zone) (self : Z) (_now : datetime) (ks : list due)
    (d : Database) : Database :=
  fold_left (fun d k => posted tz self _now k d) ks d.

(** The rows whose transaction is one of those of the rows [L]. *)
Definition of_any (L : list row) : row -> bool :=
  fun r => existsb (fun l => of_transaction (t_pk (snd l)) r) L.

(** The bookings that step 4 takes from the dict for the keys [ks]. *)
Definition dict_rows (dues_in_db : list (due * row)) (ks : list due) : list row :=
  flat_map (fun k => match dict_get k dues_in_db with
                     | Some b => [b]
                     | None => []
                     end) ks.

(** The query of step 2 and the query of step 6. *)
Definition found_q (tz : zone) (self : Z) (_from : option date)
    (ranges : list (date * date)) : queryset :=
  match ranges with
  | [] => liabilities_qs tz self _from
  | _ => filter_ (liabilities_qs tz self _from) (reduce_or (map (range_q tz) ranges))
  end.
Definition stray_q (tz : zone) (self : Z) (_from : option date)
    (ranges : list (date * date)) : queryset :=
  match ranges with
  | [] => liabilities_qs tz self _from
  | _ => exclude (liabilities_qs tz self _from) (reduce_or (map (range_q tz) ranges))
  end.

(** The ledger [d] after step 4 has reversed the bookings of the wrong
    dues and step 5 has booked the missing dues, each in sorted order. *)
Definition after_step_5 (tz : zone) (self : Z) (_now : datetime)
    (dues_in_db : list (due * row)) (wrong missing : list due) (d : Database)
  : Database :=
  posted_all tz self _now (sorted missing)
    (reversed memo_changed ctx_changed (dict_rows dues_in_db (sorted wrong)) d).

(** The memberships of a member. *)
Definition memberships_of (self : Z) (d : Database) : list Membership :=
  filter (fun m => ms_member m =? self) (memberships d).

(** A zone at or west of UTC, less than a day away: there the day that
    begins at a local midnight is also the UTC date of that instant. *)
Definition at_or_west_of_UTC (tz : zone) : Prop :=
  forall d, - day_us < tz d <= 0.

(** A ledger that is tidy for a member: well formed, with valid dates; no
    transaction holds a due of the member together with a debit of the
    member on the fees account; and among the member's active dues since
    the accounting start no two are on one transaction and no two have one
    (date, amount). *)
Definition tidy (tz : zone) (self : Z) (d : Database) : Prop :=
  let _from := accounting_start (configuration d) in
  well_formed d /\ no_fee_debits self d /\
  (forall m, In m (memberships_of self d) -> valid_date (ms_start m) = true) /\
  (forall f, _from = Some f -> valid_date f = true) /\
  NoDup (map (fun r => b_transaction (fst r))
             (filter (liabilities_qs tz self _from) (rows d))) /\
  NoDup (map due_key (filter (liabilities_qs tz self _from) (rows d))).

(** The dict that step 2 builds from the rows it finds. *)
Definition dict_of (found : list row) : list (due * row) :=
  fold_left (fun d b => dict_set (due_key b) b d) found [].

End Spec.

(* ================================================================= *)
(** ** Properties of the methods, in words *)

Module Properties.
Import Calendar Store Str.

(** A superscript two, three or one: the characters below code point 256
    that [isdigit] accepts and [int] does not read. *)
Definition superscript (c : ascii) : bool :=
  ((code c =? 178) || (code c =? 179) || (code c =? 185))%N.

(** Some character of [s] satisfies [p]. *)
Fixpoint some_char (p : ascii -> bool) (s : string) : bool :=
  match s with
  | EmptyString => false
  | String c s' => p c || some_char p s'
  end.

(** A method that only reads: whatever it gives, it leaves the rows of
    the database and the statements written as they were. *)
Definition reads_only {A} (x : M A) : Prop :=
  forall w, db (snd (x w)) = db w /\ issued (snd (x w)) = issued w.

(** The sum of the amounts of the rows that satisfy [p]. *)
Definition amounts (p : row -> bool) (rs : list row) : Z :=
  fold_right (fun r acc => if p r then b_amount (fst r) + acc else acc) 0 rs.

(** The booking [r] is one of the member [self] on the fees-receivable
    account, on its credit side ([side = true]) or its debit side. *)
Definition receivable (self : Z) (side : bool) (r : row) : bool :=
  member_is self r &&
  (if side then credit_account_is fees_receivable r
   else debit_account_is fees_receivable r).

(** The value date of [r] lies in the window from [start] to [end_]. *)
Definition dated_within (start end_ : datetime) (r : row) : bool :=
  datetime_leb start (t_value_datetime (snd r)) &&
  datetime_leb (t_value_datetime (snd r)) end_.

(** What the member paid less what fell due in the window. *)
Definition window_balance (self : Z) (start end_ : datetime) (d : Database) : Z :=
  amounts (fun r => receivable self true r && dated_within start end_ r) (rows d)
  - amounts (fun r => receivable self false r && dated_within start end_ r) (rows d).

End Properties.

(* ================================================================= *)
(** ** Concrete members, ledgers and clocks *)

Module Examples.
Import Calendar Store Bookkeeping Py Members Spec.

Definition config_36 : Configuration := mkConfiguration 36 None.
Definition empty_db : Database := mkDatabase [] [] [] [] config_36.
Definition calm_empty : world := mkworld empty_db [] None.

(** A monthly membership since 2023-01-15, seen on 2023-08-20 with the
    accounting started on 2023-03-01. *)
Definition since_jan_15 : Membership :=
  mkMembership 1 (mkdate 2023 1 15) None 3000 1.
Definition aug_20 : datetime := mkdatetime (mkdate 2023 8 20) 0.
Definition from_mar_1 : option date := Some (mkdate 2023 3 1).

(** A monthly membership since 2023-01-31, seen on 2023-06-15. *)
Definition since_jan_31 : Membership :=
  mkMembership 1 (mkdate 2023 1 31) None 3000 1.
Definition jun_15 : datetime := mkdatetime (mkdate 2023 6 15) 0.

(** A membership with no fee next to a paying one. *)
Definition free_2023 : Membership :=
  mkMembership 1 (mkdate 2023 1 1) None 0 1.

(** 17 May 2024 and a future limit of six months. *)
Definition may_17_2024 : datetime := mkdatetime (mkdate 2024 5 17) 0.
Definition six_months : option relativedelta := Some (rd_of_months 6).

(** A due of 30.00 on 2023-01-01 for member 7, booked by step 5 and then
    reversed by step 4. *)
Definition due_2023 : datetime := midnight (mkdate 2023 1 1).
Definition ledger_reversed_due : Database :=
  mkDatabase
    [mkTransaction 1 due_2023 (Some due_2023) memo_due ctx_missing (Some 2);
     mkTransaction 2 due_2023 None memo_changed ctx_changed None]
    [mkBooking 1 1 None (Some fees) 3000 (Some 7);
     mkBooking 2 1 (Some fees_receivable) None 3000 (Some 7);
     mkBooking 3 2 (Some fees) None 3000 (Some 7);
     mkBooking 4 2 None (Some fees_receivable) 3000 (Some 7)]
    [] [] config_36.

(** The same due, with the reversing transaction dated a month later. *)
Definition feb_2023 : datetime := midnight (mkdate 2023 2 1).
Definition ledger_late_reversal : Database :=
  mkDatabase
    [mkTransaction 1 due_2023 (Some due_2023) memo_due ctx_missing (Some 2);
     mkTransaction 2 feb_2023 None memo_changed ctx_changed None]
    [mkBooking 1 1 None (Some fees) 3000 (Some 7);
     mkBooking 2 1 (Some fees_receivable) None 3000 (Some 7);
     mkBooking 3 2 (Some fees) None 3000 (Some 7);
     mkBooking 4 2 None (Some fees_receivable) 3000 (Some 7)]
    [] [] config_36.

(** A balance snapshot of member 7 for March to May 2023, and the whole
    year 2023 as a second window. *)
Definition spring_2023 : MemberBalance :=
  mkMemberBalance 7 None 0 (midnight (mkdate 2023 3 1)) (midnight (mkdate 2023 5 31))
                  unpaid.
Definition db_with_spring : Database :=
  mkDatabase [] [] [] [spring_2023] config_36.
Definition jan_1 : datetime := midnight (mkdate 2023 1 1).
Definition dec_31 : datetime := midnight (mkdate 2023 12 31).
Definition year_2023 : MemberBalance :=
  mkMemberBalance 7 None 0 jan_1 dec_31 unpaid.

(** Member 7 pays 30.00 a month in January 2023; two transactions of
    2023-01-10 each hold a due of 25.00 for them. *)
Definition jan_2023 : Membership :=
  mkMembership 7 (mkdate 2023 1 1) (Some (mkdate 2023 1 31)) 3000 1.
Definition jan_10 : datetime := midnight (mkdate 2023 1 10).
Definition feb_15 : datetime := mkdatetime (mkdate 2023 2 15) 0.
Definition ledger_two_wrong_dues : Database :=
  mkDatabase
    [mkTransaction 1 jan_10 None "due" "office" None;
     mkTransaction 2 jan_10 None "due" "office" None]
    [mkBooking 1 1 None (Some fees) 2500 (Some 7);
     mkBooking 2 1 (Some fees_receivable) None 2500 (Some 7);
     mkBooking 3 2 None (Some fees) 2500 (Some 7);
     mkBooking 4 2 (Some fees_receivable) None 2500 (Some 7)]
    [jan_2023] [] config_36.

Definition before_first_run : world := mkworld ledger_two_wrong_dues [] None.
Definition after_first_run : world :=
  snd (update_liabilites UTC 7 feb_15 before_first_run).
Definition after_second_run : world :=
  snd (update_liabilites UTC 7 feb_15 after_first_run).

(** The ledger that a first run builds for member 7 from nothing. *)
Definition nothing_booked : world :=
  mkworld (mkDatabase [] [] [jan_2023] [] config_36) [] None.
Definition fresh_after_first_run : world :=
  snd (update_liabilites UTC 7 feb_15 nothing_booked).

(** Two zones without daylight saving: five hours west and one hour east
    of UTC. *)
Definition EST : zone := fun _ => -18000000000.
Definition CET : zone := fun _ => 3600000000.

(** The same first run and a second one with the settings on [CET]. *)
Definition fresh_after_first_run_CET : world :=
  snd (update_liabilites CET 7 feb_15 nothing_booked).
Definition fresh_after_second_run_CET : world :=
  snd (update_liabilites CET 7 feb_15 fresh_after_first_run_CET).

(** The ledger that the first run above left, with one of the two wrong
    dues reversed, run again with the settings on [EST]. *)
Definition after_run_EST : world :=
  snd (update_liabilites EST 7 feb_15 after_first_run).

(** Member 7 pays 30.00 in March 2023 by one membership and 30.00 in
    January 2023 by another.  Booked for them are a due of 25.00 on
    2023-03-10 and then one on 2023-01-10, and two dues outside of both
    months. *)
Definition mar_2023 : Membership :=
  mkMembership 7 (mkdate 2023 3 1) (Some (mkdate 2023 3 31)) 3000 1.
Definition mar_10 : datetime := midnight (mkdate 2023 3 10).
Definition may_1 : datetime := midnight (mkdate 2023 5 1).
Definition dec_1_2022 : datetime := midnight (mkdate 2022 12 1).
Definition ledger_out_of_order : Database :=
  mkDatabase
    [mkTransaction 1 mar_10 None "due" "office" None;
     mkTransaction 2 jan_10 None "due" "office" None;
     mkTransaction 3 may_1 None "due" "office" None;
     mkTransaction 4 dec_1_2022 None "due" "office" None]
    [mkBooking 1 1 None (Some fees) 2500 (Some 7);
     mkBooking 2 1 (Some fees_receivable) None 2500 (Some 7);
     mkBooking 3 2 None (Some fees) 2500 (Some 7);
     mkBooking 4 2 (Some fees_receivable) None 2500 (Some 7);
     mkBooking 5 3 None (Some fees) 3000 (Some 7);
     mkBooking 6 3 (Some fees_receivable) None 3000 (Some 7);
     mkBooking 7 4 None (Some fees) 3000 (Some 7);
     mkBooking 8 4 (Some fees_receivable) None 3000 (Some 7)]
    [mar_2023; jan_2023] [] config_36.
Definition out_of_order : world := mkworld ledger_out_of_order [] None.

(** What steps 1 to 3 find there. *)
Definition two_ranges : list (date * date) :=
  [(mkdate 2023 3 1, mkdate 2023 3 31); (mkdate 2023 1 1, mkdate 2023 1 31)].
Definition two_dues_in_db : list (due * row) :=
  [((mkdate 2023 3 10, 2500),
    (mkBooking 1 1 None (Some fees) 2500 (Some 7),
     mkTransaction 1 mar_10 None "due" "office" None));
   ((mkdate 2023 1 10, 2500),
    (mkBooking 3 2 None (Some fees) 2500 (Some 7),
     mkTransaction 2 jan_10 None "due" "office" None))].
Definition two_wrong : list due := [(mkdate 2023 3 10, 2500); (mkdate 2023 1 10, 2500)].
Definition two_missing : list due := [(mkdate 2023 3 1, 3000); (mkdate 2023 1 1, 3000)].

(** The same ledger on a database that fails at its sixth statement. *)
Definition failing_at_sixth : world := mkworld ledger_two_wrong_dues [] (Some 5%nat).

Import Str Profile.
Local Open Scope string_scope.

(** A member whose name is two blanks, and a member with a name. *)
Definition nobody : Member :=
  mkMember 3 None (Some "  ") None None None None MEMBER "person".
Definition ada : Member :=
  mkMember 4 (Some "41") (Some "Ada  Lovelace") None None None None MEMBER "person".

(** A member whose number is a superscript two. *)
Definition superscript_two : string := String (ascii_of_N 178) EmptyString.
Definition squared : Member :=
  mkMember 5 (Some superscript_two) (Some "Emmy Noether") None None None None MEMBER
           "person".

(** Two memberships of member 4, both running in February 2023, and an
    ended one of member 5. *)
Definition club_2023 : Database :=
  mkDatabase [] []
    [mkMembership 4 (mkdate 2022 1 1) None 3000 1;
     mkMembership 4 (mkdate 2023 1 1) (Some (mkdate 2023 12 31)) 1000 12;
     mkMembership 5 (mkdate 2020 1 1) (Some (mkdate 2020 12 31)) 3000 1]
    [] (mkConfiguration 36 None).

(** A membership for January 2023 with the interval 0. *)
Definition stuck_2023 : Membership :=
  mkMembership 7 (mkdate 2023 1 1) (Some (mkdate 2023 1 31)) 3000 0.

(** Cleaned data of the registration form with the name and the e-mail
    address both at position 3. *)
Definition two_at_3 : Registration.cleaned :=
  [("member__name__position", Registration.VInt 3); ("member__name__default", Registration.VStr "");
   ("member__email__position", Registration.VInt 3); ("member__number__position", Registration.VNone)].

(** A due of 30.00 on 2019-06-01 for member 7 and the payment of it on
    2024-02-01. *)
Definition ledger_old_due : Database :=
  mkDatabase
    [mkTransaction 1 (midnight (mkdate 2019 6 1)) None "Membership due" "office" None;
     mkTransaction 2 (midnight (mkdate 2024 2 1)) None "Payment" "office" None]
    [mkBooking 1 1 None (Some fees) 3000 (Some 7);
     mkBooking 2 1 (Some fees_receivable) None 3000 (Some 7);
     mkBooking 3 2 (Some (Account 1)) None 3000 None;
     mkBooking 4 2 None (Some fees_receivable) 3000 (Some 7)]
    [] [] (mkConfiguration 36 None).
Definition nobody_config : NameConfiguration := mkNameConfiguration "last" "first".

(** A comparison for the searches of the examples: [part] occurs in [s],
    letter for letter. *)
Definition contains (s part : string) : bool :=
  match index 0 part s with
  | Some _ => true
  | None => false
  end.

(** The dues of [since_jan_31] up to June 2023. *)
Definition six_dues : list due :=
  [(mkdate 2023 1 31, 3000); (mkdate 2023 2 28, 3000); (mkdate 2023 3 28, 3000);
   (mkdate 2023 4 28, 3000); (mkdate 2023 5 28, 3000); (mkdate 2023 6 28, 3000)].

End Examples.

(* ================================================================= *)
(** ** Facts *)

Import Calendar Store Bookkeeping Py Members Spec Examples.

(** *** Calendar arithmetic *)

Lemma monthrange_bounds y m : 28 <= monthrange y m <= 31.
Proof.
  unfold monthrange.
  destruct (m =? 2); [destruct (isleap y); lia|].
  destruct ((m =? 4) || (m =? 6) || (m =? 9) || (m =? 11)); lia.
Qed.

Lemma valid_date_spec d :
  valid_date d = true <->
  MINYEAR <= year d <= MAXYEAR /\ 1 <= month d <= 12 /\
  1 <= day d <= monthrange (year d) (month d).
Proof.
  unfold valid_date. rewrite !andb_true_iff, !Z.leb_le. tauto.
Qed.

Lemma date_ltb_spec a b :
  date_ltb a b = true <->
  year a < year b \/
  (year a = year b /\ (month a < month b \/ (month a = month b /\ day a < day b))).
Proof.
  unfold date_ltb.
  rewrite orb_true_iff, andb_true_iff, orb_true_iff, andb_true_iff,
    !Z.ltb_lt, !Z.eqb_eq. tauto.
Qed.

Lemma date_eqb_eq a b : date_eqb a b = true <-> a = b.
Proof.
  unfold date_eqb. rewrite !andb_true_iff, !Z.eqb_eq.
  destruct a, b; simpl. split.
  - intros [[-> ->] ->]. reflexivity.
  - intros [= -> -> ->]. auto.
Qed.

Lemma rd_fix_total r : rd_total_months (rd_fix r) = rd_total_months r.
Proof.
  unfold rd_fix, rd_total_months.
  destruct (11 <? Z.abs (rd_months r)) eqn:E; [|reflexivity].
  cbn [rd_years rd_months]. apply Z.ltb_lt in E.
  destruct (Z.sgn_spec (rd_months r)) as [[? Hs]|[[? Hs]|[? Hs]]]; rewrite Hs;
    [|lia|].
  - pose proof (Z.div_mod (rd_months r * 1) 12 ltac:(lia)) as H1.
    generalize dependent (rd_months r * 1 / 12).
    generalize dependent ((rd_months r * 1) mod 12). intros; lia.
  - pose proof (Z.div_mod (rd_months r * - (1)) 12 ltac:(lia)) as H1.
    generalize dependent (rd_months r * - (1) / 12).
    generalize dependent ((rd_months r * - (1)) mod 12). intros; lia.
Qed.

Lemma rd_fix_months_small r : Z.abs (rd_months (rd_fix r)) <= 11.
Proof.
  unfold rd_fix.
  destruct (11 <? Z.abs (rd_months r)) eqn:E; [|apply Z.ltb_ge in E; exact E].
  cbn [rd_months].
  destruct (Z.sgn_spec (rd_months r)) as [[? Hs]|[[? Hs]|[? Hs]]]; rewrite Hs.
  - pose proof (Z.mod_pos_bound (rd_months r * 1) 12 ltac:(lia)) as H1.
    generalize dependent ((rd_months r * 1) mod 12). intros; lia.
  - lia.
  - pose proof (Z.mod_pos_bound (rd_months r * - (1)) 12 ltac:(lia)) as H1.
    generalize dependent ((rd_months r * - (1)) mod 12). intros; lia.
Qed.

Lemma rd_fix_days r : rd_days (rd_fix r) = rd_days r.
Proof. unfold rd_fix. destruct (11 <? _); reflexivity. Qed.

Lemma rd_fix_day r : rd_day (rd_fix r) = rd_day r.
Proof. unfold rd_fix. destruct (11 <? _); reflexivity. Qed.

(** Moving a valid date by [n] whole months: the month index moves by [n]
    and the day is clipped, or the date leaves the calendar. *)
Lemma date_add_months_cases d n :
  valid_date d = true ->
  (exists d', date_add d (rd_of_months n) = Returns d' /\
              valid_date d' = true /\
              month_index d' = month_index d + n /\
              day d' = Z.min (monthrange (year d') (month d')) (day d))
  \/ (date_add d (rd_of_months n) = Raises ValueError /\
      ~ (12 * MINYEAR + 1 <= month_index d + n <= 12 * MAXYEAR + 12)).
Proof.
  intros Hv. apply valid_date_spec in Hv. destruct Hv as (Hy & Hm & Hd).
  unfold rd_of_months, relativedelta_.
  pose proof (rd_fix_total (mkrd 0 n 0 None)) as Ht.
  pose proof (rd_fix_months_small (mkrd 0 n 0 None)) as Hs.
  pose proof (rd_fix_days (mkrd 0 n 0 None)) as Hdays.
  pose proof (rd_fix_day (mkrd 0 n 0 None)) as Hday.
  destruct (rd_fix (mkrd 0 n 0 None)) as [ys ms ds da].
  unfold rd_total_months in Ht.
  cbn [rd_years rd_months rd_days rd_day] in *. subst ds da.
  unfold date_add, month_index in *.
  cbn [rd_years rd_months rd_days rd_day].
  set (ym := if ms =? 0 then (year d + ys, month d)
             else if 12 <? month d + ms then (year d + ys + 1, month d + ms - 12)
                  else if month d + ms <? 1 then (year d + ys - 1, month d + ms + 12)
                       else (year d + ys, month d + ms)).
  assert (Hym : 12 * fst ym + snd ym = 12 * year d + month d + n /\ 1 <= snd ym <= 12).
  { subst ym. destruct (ms =? 0) eqn:E0; cbn [fst snd]; [apply Z.eqb_eq in E0; lia|].
    destruct (12 <? month d + ms) eqn:E1; cbn [fst snd]; [apply Z.ltb_lt in E1; lia|].
    apply Z.ltb_ge in E1.
    destruct (month d + ms <? 1) eqn:E2; cbn [fst snd]; [apply Z.ltb_lt in E2; lia|].
    apply Z.ltb_ge in E2. lia. }
  destruct ym as [y m]. cbn [fst snd] in Hym. destruct Hym as [Hidx Hm'].
  pose proof (monthrange_bounds y m) as Hmr.
  unfold date_checked.
  destruct (valid_date (mkdate y m (Z.min (monthrange y m) (day d)))) eqn:Hvalid.
  - left. cbn [obind]. unfold add_days. cbn [year].
    pose proof Hvalid as Hv'. apply valid_date_spec in Hv'. cbn [year month day] in Hv'.
    assert (Hyr : (MINYEAR <=? y) && (y <=? MAXYEAR) = true).
    { apply andb_true_iff. rewrite !Z.leb_le. lia. }
    rewrite Hyr. eexists. split; [reflexivity|]. cbn [year month day]. auto.
  - right. cbn [obind]. split; [reflexivity|]. intros Hr.
    assert (valid_date (mkdate y m (Z.min (monthrange y m) (day d))) = true) as Hc;
      [|congruence].
    apply valid_date_spec. cbn [year month day]. unfold MINYEAR, MAXYEAR in *. lia.
Qed.

(** *** The window and the loop of [get_dues] *)

Lemma date_leb_month_index a b :
  1 <= month a <= 12 -> 1 <= month b <= 12 ->
  date_leb a b = true -> month_index a <= month_index b.
Proof.
  unfold date_leb, month_index. intros Ha Hb H.
  apply negb_true_iff in H.
  destruct (Z_lt_le_dec (12 * year b + month b) (12 * year a + month a)) as [Hlt|]; [|lia].
  assert (date_ltb b a = true) as Hc; [|congruence].
  apply date_ltb_spec. lia.
Qed.

(** With a positive interval and enough calendar left after [end_], the
    loop of [get_dues] returns within its fuel. *)
Lemma dues_while_returns self end_ :
  1 <= ms_interval self ->
  valid_date end_ = true ->
  month_index end_ + ms_interval self <= 12 * MAXYEAR + 12 ->
  forall fuel date_ dues,
    valid_date date_ = true ->
    (1 <= fuel)%nat ->
    (date_leb date_ end_ = true ->
     month_index end_ - month_index date_ + 2 <= Z.of_nat fuel) ->
    exists dues', dues_while fuel self end_ date_ dues = Returns dues'.
Proof.
  intros Hi He Hcal. induction fuel as [|fuel IH]; intros date_ dues Hv Hf Hfuel; [lia|].
  cbn [dues_while]. destruct (date_leb date_ end_) eqn:Hle; [|eauto].
  specialize (Hfuel eq_refl).
  pose proof Hv as Hv'. apply valid_date_spec in Hv'.
  pose proof He as He'. apply valid_date_spec in He'.
  pose proof (date_leb_month_index _ _ (proj1 (proj2 Hv')) (proj1 (proj2 He')) Hle) as Hidx.
  destruct (date_add_months_cases date_ (ms_interval self) Hv)
    as [(d' & Hadd & Hvd' & Hidx' & _)|[_ Hout]].
  - rewrite Hadd. cbn [obind]. apply IH; [exact Hvd'|lia|]. intros _. lia.
  - exfalso. apply Hout. unfold month_index, MINYEAR, MAXYEAR in *. lia.
Qed.

Lemma dues_range_start m now_ from :
  forall r, dues_range m now_ from = Returns r -> fst r = range_start m from.
Proof.
  unfold dues_range, range_start, date_max. intros r.
  destruct (match ms_end m with Some e => Returns e | None => _ end); cbn [obind];
    intros [= <-]; cbn [fst]; destruct from; reflexivity.
Qed.

Lemma implicit_end now_ dom :
  valid_date (dt_date now_) = true -> 1 <= dom ->
  month_index (dt_date now_) + 1 <= 12 * MAXYEAR + 12 ->
  except_ValueError
    (obind (replace_day now_ dom) (fun t => Returns (dt_date t)))
    (obind (datetime_add now_ (relativedelta_ 0 1 (-1) (Some 1)))
           (fun t => Returns (dt_date t)))
  = Returns (same_day_this_month (dt_date now_) dom).
Proof.
  intros Hv Hdom Hcal. destruct now_ as [[y m d] tod].
  apply valid_date_spec in Hv. cbn [dt_date year month day] in *.
  unfold same_day_this_month, replace_day, date_checked. cbn [dt_date year month day].
  destruct (dom <=? monthrange y m) eqn:E.
  - apply Z.leb_le in E.
    assert (valid_date (mkdate y m dom) = true) as ->.
    { apply valid_date_spec. cbn [year month day]. lia. }
    reflexivity.
  - apply Z.leb_gt in E.
    assert (valid_date (mkdate y m dom) = false) as ->.
    { apply not_true_iff_false. intros Hc. apply valid_date_spec in Hc.
      cbn [year month day] in Hc. lia. }
    cbn [obind except_ValueError].
    unfold datetime_add, date_add, relativedelta_, rd_fix, last_day_of_month, month_index in *.
    cbn [dt_date dt_time year month day rd_years rd_months rd_days rd_day Z.abs] in *.
    change (11 <? 1) with false. cbv iota.
    cbn [rd_years rd_months rd_days rd_day].
    change (1 =? 0) with false. cbv iota.
    unfold MINYEAR, MAXYEAR in *.
    destruct (12 <? m + 1) eqn:E12.
    + apply Z.ltb_lt in E12. assert (m = 12) by lia. subst m.
      unfold date_checked.
      assert (valid_date (mkdate (y + 0 + 1) (12 + 1 - 12) (Z.min (monthrange (y + 0 + 1) (12 + 1 - 12)) 1)) = true) as ->.
      { apply valid_date_spec. cbn [year month day].
        pose proof (monthrange_bounds (y + 0 + 1) (12 + 1 - 12)).
        unfold MINYEAR, MAXYEAR. lia. }
      cbn [obind]. unfold add_days, prev_day. cbn [Pos.iter year month day].
      pose proof (monthrange_bounds (y + 0 + 1) (12 + 1 - 12)).
      replace (Z.min (monthrange (y + 0 + 1) (12 + 1 - 12)) 1) with 1 by lia.
      change (1 <? 1) with false. change (1 <? 12 + 1 - 12) with false. cbv iota.
      cbn [year].
      assert ((MINYEAR <=? y + 0 + 1 - 1) && (y + 0 + 1 - 1 <=? MAXYEAR) = true) as ->.
      { apply andb_true_iff. rewrite !Z.leb_le. unfold MINYEAR, MAXYEAR. lia. }
      cbn [obind dt_date]. f_equal. f_equal. lia.
    + apply Z.ltb_ge in E12.
      assert ((m + 1 <? 1) = false) as -> by (apply Z.ltb_ge; lia).
      unfold date_checked.
      pose proof (monthrange_bounds (y + 0) (m + 1)).
      assert (valid_date (mkdate (y + 0) (m + 1) (Z.min (monthrange (y + 0) (m + 1)) 1)) = true) as ->.
      { apply valid_date_spec. cbn [year month day]. unfold MINYEAR, MAXYEAR. lia. }
      cbn [obind]. unfold add_days, prev_day. cbn [Pos.iter year month day].
      replace (Z.min (monthrange (y + 0) (m + 1)) 1) with 1 by lia.
      change (1 <? 1) with false. cbv iota.
      assert ((1 <? m + 1) = true) as -> by (apply Z.ltb_lt; lia).
      cbn [year].
      assert ((MINYEAR <=? y + 0) && (y + 0 <=? MAXYEAR) = true) as ->.
      { apply andb_true_iff. rewrite !Z.leb_le. unfold MINYEAR, MAXYEAR. lia. }
      cbn [obind dt_date]. f_equal.
      replace (y + 0) with y by lia. replace (m + 1 - 1) with m by lia. reflexivity.
Qed.

Lemma same_day_this_month_valid today dom :
  valid_date today = true -> 1 <= dom ->
  valid_date (same_day_this_month today dom) = true /\
  month_index (same_day_this_month today dom) = month_index today.
Proof.
  intros Hv Hdom. apply valid_date_spec in Hv.
  unfold same_day_this_month, last_day_of_month.
  pose proof (monthrange_bounds (year today) (month today)).
  destruct (dom <=? monthrange (year today) (month today)) eqn:E;
    (split; [apply valid_date_spec; cbn [year month day]|reflexivity]).
  - apply Z.leb_le in E. lia.
  - lia.
Qed.

Lemma range_start_valid m from :
  valid_date (ms_start m) = true ->
  (forall f, from = Some f -> valid_date f = true) ->
  valid_date (range_start m from) = true.
Proof.
  intros Hs Hf. unfold range_start, date_max. destruct from as [f|]; [|exact Hs].
  destruct (date_ltb (ms_start m) f); auto.
Qed.

Lemma dues_range_returns m now_ from :
  valid_date (ms_start m) = true ->
  (forall f, from = Some f -> valid_date f = true) ->
  valid_date (dt_date now_) = true ->
  month_index (range_end m now_ from) + 1 <= 12 * MAXYEAR + 12 ->
  dues_range m now_ from = Returns (range_start m from, range_end m now_ from).
Proof.
  intros Hs Hf Hn Hcal.
  pose proof (range_start_valid m from Hs Hf) as Hrs.
  unfold dues_range.
  change (match from with
          | Some f => if date_ltb (ms_start m) f then f else ms_start m
          | None => ms_start m
          end) with (range_start m from).
  unfold range_end in *. destruct (ms_end m) as [e|]; [reflexivity|].
  apply valid_date_spec in Hrs.
  destruct (same_day_this_month_valid (dt_date now_) (day (range_start m from)) Hn)
    as [_ Hidx]; [lia|].
  rewrite implicit_end; [reflexivity|exact Hn|lia|lia].
Qed.

(** C8 (amended): for a membership with valid dates and a positive interval,
    whose window ends at least one interval before the end of the calendar,
    [get_dues] returns, and its window starts at [max(membership.start,
    from)] (at [membership.start] without [from]) and ends at
    [membership.end] when that is set, otherwise at the day-of-month of the
    window start (not of [membership.start]) in the month of [now], or at
    the last day of that month when it has no such day. *)
Theorem get_dues_range m now_ from :
  valid_date (ms_start m) = true ->
  (forall f, from = Some f -> valid_date f = true) ->
  (forall e, ms_end m = Some e -> valid_date e = true) ->
  valid_date (dt_date now_) = true ->
  1 <= ms_interval m ->
  month_index (range_end m now_ from) + ms_interval m <= 12 * MAXYEAR + 12 ->
  exists dues,
    get_dues m now_ from
    = Returns ((range_start m from, range_end m now_ from), dues).
Proof.
  intros Hs Hf He Hn Hi Hcal.
  pose proof (range_start_valid m from Hs Hf) as Hrs.
  unfold get_dues. rewrite dues_range_returns by (auto; lia). cbn [obind].
  assert (Hre : valid_date (range_end m now_ from) = true).
  { unfold range_end. destruct (ms_end m) as [e|]; [auto|].
    apply same_day_this_month_valid; [exact Hn|].
    apply valid_date_spec in Hrs. lia. }
  destruct (dues_while_returns m (range_end m now_ from) Hi Hre Hcal
              (dues_fuel (ms_interval m) (range_start m from) (range_end m now_ from))
              (range_start m from) [] Hrs) as [dues Hd].
  - unfold dues_fuel. lia.
  - intros _. unfold dues_fuel.
    assert ((0 <? ms_interval m) = true) as -> by (apply Z.ltb_lt; lia). lia.
  - rewrite Hd. cbn [obind]. eauto.
Qed.

Lemma get_dues_range_witness :
  exists dues, get_dues since_jan_15 aug_20 from_mar_1
               = Returns ((mkdate 2023 3 1, mkdate 2023 8 1), dues).
Proof.
  apply (get_dues_range since_jan_15 aug_20 from_mar_1).
  - reflexivity.
  - intros f [= <-]. reflexivity.
  - intros e [=].
  - reflexivity.
  - vm_compute. discriminate.
  - vm_compute. discriminate.
Defined.

(** C8, as claimed, fails: with the accounting started on 2023-03-01, a
    membership that started on 2023-01-15 gets on 2023-08-20 the window end
    2023-08-01, the day-of-month of the accounting start, and not
    2023-08-15. *)
Lemma get_dues_range_end_not_of_start :
  (exists dues, get_dues since_jan_15 aug_20 from_mar_1
                = Returns ((mkdate 2023 3 1, mkdate 2023 8 1), dues)) /\
  range_end_of_start since_jan_15 aug_20 = mkdate 2023 8 15 /\
  mkdate 2023 8 1 <> mkdate 2023 8 15.
Proof.
  split; [|split; [reflexivity|discriminate]]. eexists. vm_compute. reflexivity.
Qed.

(** June has no 31st: the window ends on its last day, and the dues drift
    to the 28th once February has clipped them. *)
Example get_dues_window_ends_on_last_day :
  get_dues since_jan_31 jun_15 None
  = Returns ((mkdate 2023 1 31, mkdate 2023 6 30),
             [(mkdate 2023 1 31, 3000); (mkdate 2023 2 28, 3000);
              (mkdate 2023 3 28, 3000); (mkdate 2023 4 28, 3000);
              (mkdate 2023 5 28, 3000); (mkdate 2023 6 28, 3000)]).
Proof. vm_compute. reflexivity. Qed.

(** *** The dues of one membership and of a member *)

(** C6: the membership [{start = 2023-01-01, end = null, amount = 30.00,
    interval = 3}] seen at any time of 2023-08-01, with no accounting
    start, has exactly the dues (2023-01-01, 30.00), (2023-04-01, 30.00)
    and (2023-07-01, 30.00). *)
Theorem get_dues_quarterly_2023 member tod :
  get_dues (mkMembership member (mkdate 2023 1 1) None 3000 3)
           (mkdatetime (mkdate 2023 8 1) tod) None
  = Returns ((mkdate 2023 1 1, mkdate 2023 8 1),
             [(mkdate 2023 1 1, 3000); (mkdate 2023 4 1, 3000);
              (mkdate 2023 7 1, 3000)]).
Proof. vm_compute. reflexivity. Qed.

(** C7: a membership whose amount is 0 is skipped by step 1 of
    [update_liabilites]: the ranges and the due set collected from the
    memberships are what they are without it. *)
Theorem collect_dues_skips_zero_amount ms1 m ms2 now_ from :
  ms_amount m = 0 ->
  forall ranges dues,
    collect_dues (ms1 ++ m :: ms2) now_ from ranges dues
    = collect_dues (ms1 ++ ms2) now_ from ranges dues.
Proof.
  intros Hz. induction ms1 as [|m1 ms1 IH]; intros ranges dues; cbn [app collect_dues].
  - rewrite Hz. reflexivity.
  - destruct (ms_amount m1 =? 0); [apply IH|].
    destruct (get_dues m1 now_ from) as [[rng ds]| |]; cbn [obind]; auto.
Qed.

Lemma collect_dues_skips_zero_amount_witness :
  collect_dues ([since_jan_15] ++ free_2023 :: []) aug_20 None [] []
  = collect_dues ([since_jan_15] ++ []) aug_20 None [] [].
Proof.
  apply (collect_dues_skips_zero_amount [since_jan_15] free_2023 [] aug_20 None).
  reflexivity.
Defined.

(** The skip is the guard of step 1: [get_dues] itself, asked about a
    membership with no fee, lists its dates with the amount 0. *)
Example get_dues_alone_lists_zero_dues :
  get_dues (mkMembership 1 (mkdate 2023 7 1) None 0 1) aug_20 None
  = Returns ((mkdate 2023 7 1, mkdate 2023 8 1),
             [(mkdate 2023 7 1, 0); (mkdate 2023 8 1, 0)]).
Proof. vm_compute. reflexivity. Qed.

(** *** No due of amount zero *)

Lemma add_In x y s : In y (add x s) -> y = x \/ In y s.
Proof.
  unfold add. destruct (mem x s); [auto|]. rewrite in_app_iff. cbn [In].
  intros [H|[H|[]]]; auto.
Qed.

Lemma union_In x s t : In x (union s t) -> In x s \/ In x t.
Proof.
  unfold union. revert s. induction t as [|y t IH]; intros s; cbn [fold_left]; [auto|].
  intros H. destruct (IH _ H) as [H1|H1]; [|right; right; exact H1].
  destruct (add_In _ _ _ H1) as [->|H2]; [right; left; reflexivity|left; exact H2].
Qed.

Lemma dues_while_amount self end_ :
  forall fuel date_ dues dues',
    dues_while fuel self end_ date_ dues = Returns dues' ->
    forall x, In x dues' -> In x dues \/ snd x = ms_amount self.
Proof.
  induction fuel as [|fuel IH]; intros date_ dues dues'; cbn [dues_while]; [discriminate|].
  destruct (date_leb date_ end_); [|intros [= <-]; auto].
  destruct (date_add date_ _) as [d'| |]; cbn [obind]; try discriminate.
  intros H x Hx. destruct (IH _ _ _ H x Hx) as [H1|H1]; [|auto].
  destruct (add_In _ _ _ H1) as [->|H2]; auto.
Qed.

Lemma get_dues_amount m now_ from r dues :
  get_dues m now_ from = Returns (r, dues) ->
  forall x, In x dues -> snd x = ms_amount m.
Proof.
  unfold get_dues. destruct (dues_range m now_ from) as [[s e]| |]; cbn [obind]; try discriminate.
  destruct (dues_while _ _ _ _ _) as [ds| |] eqn:E; cbn [obind]; try discriminate.
  intros [= _ <-] x Hx. destruct (dues_while_amount _ _ _ _ _ _ E x Hx) as [[]|H]. exact H.
Qed.

(** Step 1 of [update_liabilites] never collects a due of amount zero. *)
Lemma collect_dues_no_zero_amount ms now_ from :
  forall ranges dues ranges' dues',
    (forall x, In x dues -> snd x <> 0) ->
    collect_dues ms now_ from ranges dues = Returns (ranges', dues') ->
    forall x, In x dues' -> snd x <> 0.
Proof.
  induction ms as [|m ms IH]; intros ranges dues ranges' dues' Hnz; cbn [collect_dues].
  - intros [= _ <-]. exact Hnz.
  - destruct (ms_amount m =? 0) eqn:Ez; [apply IH; exact Hnz|].
    destruct (get_dues m now_ from) as [[rng ds]| |] eqn:E; cbn [obind]; try discriminate.
    apply IH. intros x Hx. destruct (union_In _ _ _ Hx) as [H|H]; [auto|].
    rewrite (get_dues_amount _ _ _ _ _ E x H). apply Z.eqb_neq. exact Ez.
Qed.

(** *** The cutoff of the statute of limitations *)

Lemma rd_eq a b :
  rd_years a = rd_years b -> rd_months a = rd_months b ->
  rd_days a = rd_days b -> rd_day a = rd_day b -> a = b.
Proof. destruct a, b; cbn. intros -> -> -> ->. reflexivity. Qed.

Lemma rd_fix_fixed r : Z.abs (rd_months r) <= 11 -> rd_fix r = r.
Proof.
  intros H. unfold rd_fix.
  assert ((11 <? Z.abs (rd_months r)) = false) as -> by (apply Z.ltb_ge; exact H).
  reflexivity.
Qed.

Lemma rd_fix_opp y m d a :
  rd_fix (mkrd (- y) (- m) (- d) a)
  = mkrd (- rd_years (rd_fix (mkrd y m d a))) (- rd_months (rd_fix (mkrd y m d a)))
         (- d) a.
Proof.
  unfold rd_fix. cbn [rd_years rd_months rd_days rd_day].
  rewrite Z.abs_opp.
  destruct (11 <? Z.abs m) eqn:E; cbn [rd_years rd_months rd_days rd_day]; [|reflexivity].
  rewrite Z.sgn_opp, Z.mul_opp_opp.
  apply rd_eq; cbn [rd_years rd_months rd_days rd_day]; try reflexivity; lia.
Qed.

Lemma rd_neg_sub a b :
  rd_day a = None -> rd_neg (rd_sub a b) = rd_sub b a.
Proof.
  intros Ha. unfold rd_neg, rd_sub, relativedelta_.
  set (x := mkrd (rd_years a - rd_years b) (rd_months a - rd_months b)
                 (rd_days a - rd_days b)
                 (match rd_day a with Some d => Some d | None => rd_day b end)).
  replace (rd_years b - rd_years a) with (- rd_years x) by (subst x; cbn; lia).
  replace (rd_months b - rd_months a) with (- rd_months x) by (subst x; cbn; lia).
  replace (rd_days b - rd_days a) with (- rd_days x) by (subst x; cbn; lia).
  replace (match rd_day b with Some d => Some d | None => rd_day a end)
    with (rd_day x) by (subst x; cbn; rewrite Ha; destruct (rd_day b); reflexivity).
  rewrite rd_fix_days, rd_fix_day.
  destruct x as [y m d da]. cbn [rd_years rd_months rd_days rd_day].
  rewrite (rd_fix_opp y m d da).
  apply rd_fix_fixed. cbn [rd_months]. rewrite Z.abs_opp. apply rd_fix_months_small.
Qed.

Lemma rd_of_months_day n : rd_day (rd_of_months n) = None.
Proof. unfold rd_of_months, relativedelta_. rewrite rd_fix_day. reflexivity. Qed.

(** C4 (amended): the cutoff of [statute_barred_debt] is December 31 of the
    current year plus the future limit minus the liability interval, minus
    one year: the future limit is taken off the liability interval, which
    moves the cutoff later. *)
Theorem last_unenforceable_date_adds_future_limit cfg now_ f :
  last_unenforceable_date cfg now_ f = cutoff_plus_future_limit cfg now_ f.
Proof.
  unfold last_unenforceable_date, cutoff_plus_future_limit, datetime_sub.
  fold (future_limit_or_zero f).
  rewrite rd_neg_sub by apply rd_of_months_day. reflexivity.
Qed.

(** C4, as claimed, fails: on 2024-05-17 with a liability interval of 36
    months and a future limit of 6 months the cutoff is 2021-06-30, six
    months after 2020-12-31 and not six months before it. *)
Lemma last_unenforceable_date_not_minus_future_limit :
  last_unenforceable_date config_36 may_17_2024 six_months
    = Returns (mkdatetime (mkdate 2021 6 30) 0) /\
  cutoff_minus_future_limit config_36 may_17_2024 six_months
    = Returns (mkdatetime (mkdate 2020 6 30) 0) /\
  last_unenforceable_date config_36 may_17_2024 six_months
    <> cutoff_minus_future_limit config_36 may_17_2024 six_months.
Proof.
  split; [vm_compute; reflexivity|]. split; [vm_compute; reflexivity|].
  vm_compute. discriminate.
Qed.

(** *** The future limit counts against the liability interval *)

Lemma relativedelta_total y m d a :
  rd_total_months (relativedelta_ y m d a) = 12 * y + m.
Proof. unfold relativedelta_. rewrite rd_fix_total. reflexivity. Qed.

Lemma relativedelta_small y m d a : Z.abs (rd_months (relativedelta_ y m d a)) <= 11.
Proof. apply rd_fix_months_small. Qed.

Lemma relativedelta_days y m d a : rd_days (relativedelta_ y m d a) = d.
Proof. unfold relativedelta_. rewrite rd_fix_days. reflexivity. Qed.

Lemma relativedelta_day y m d a : rd_day (relativedelta_ y m d a) = a.
Proof. unfold relativedelta_. rewrite rd_fix_day. reflexivity. Qed.

Lemma rd_neg_total r : rd_total_months (rd_neg r) = - rd_total_months r.
Proof. unfold rd_neg. rewrite relativedelta_total. unfold rd_total_months. lia. Qed.

Lemma rd_sub_total a b :
  rd_total_months (rd_sub a b) = rd_total_months a - rd_total_months b.
Proof. unfold rd_sub. rewrite relativedelta_total. unfold rd_total_months. lia. Qed.

(** Two relativedeltas that agree on the total of months, the days and the
    absolute day move a date alike. *)
Lemma date_add_total d r1 r2 :
  1 <= month d <= 12 ->
  Z.abs (rd_months r1) <= 11 -> Z.abs (rd_months r2) <= 11 ->
  rd_total_months r1 = rd_total_months r2 ->
  rd_days r1 = rd_days r2 -> rd_day r1 = rd_day r2 ->
  date_add d r1 = date_add d r2.
Proof.
  intros Hm H1 H2 Ht Hd Ha. unfold date_add, rd_total_months in *.
  rewrite Hd, Ha.
  set (ym1 := if rd_months r1 =? 0 then _ else _).
  set (ym2 := if rd_months r2 =? 0 then _ else _).
  assert (E1 : 12 * fst ym1 + snd ym1 = 12 * year d + month d + (12 * rd_years r1 + rd_months r1)
               /\ 1 <= snd ym1 <= 12).
  { subst ym1. destruct (rd_months r1 =? 0) eqn:E0; cbn [fst snd]; [apply Z.eqb_eq in E0; lia|].
    destruct (12 <? month d + rd_months r1) eqn:E; cbn [fst snd]; [apply Z.ltb_lt in E; lia|].
    apply Z.ltb_ge in E.
    destruct (month d + rd_months r1 <? 1) eqn:E'; cbn [fst snd];
      [apply Z.ltb_lt in E'; lia|apply Z.ltb_ge in E'; lia]. }
  assert (E2 : 12 * fst ym2 + snd ym2 = 12 * year d + month d + (12 * rd_years r2 + rd_months r2)
               /\ 1 <= snd ym2 <= 12).
  { subst ym2. destruct (rd_months r2 =? 0) eqn:E0; cbn [fst snd]; [apply Z.eqb_eq in E0; lia|].
    destruct (12 <? month d + rd_months r2) eqn:E; cbn [fst snd]; [apply Z.ltb_lt in E; lia|].
    apply Z.ltb_ge in E.
    destruct (month d + rd_months r2 <? 1) eqn:E'; cbn [fst snd];
      [apply Z.ltb_lt in E'; lia|apply Z.ltb_ge in E'; lia]. }
  assert (ym1 = ym2) as ->; [|reflexivity].
  destruct ym1 as [y1 m1], ym2 as [y2 m2]. cbn [fst snd] in *.
  assert (y1 = y2) by lia. assert (m1 = m2) by lia. congruence.
Qed.

Lemma rd_of_months_zero : rd_of_months 0 = rd_zero.
Proof. reflexivity. Qed.

(** A future limit of [j] whole months gives the cutoff of a liability
    interval that is [j] months shorter. *)
Lemma future_limit_shortens_liability_interval cfg now_ j :
  last_unenforceable_date cfg now_ (Some (rd_of_months j))
  = last_unenforceable_date
      (mkConfiguration (liability_interval cfg - j) (accounting_start cfg)) now_ None.
Proof.
  unfold last_unenforceable_date. cbn [liability_interval].
  destruct (replace_month_day now_ 12 31) as [dec31| |] eqn:E; cbn [obind]; try reflexivity.
  assert (Hmonth : 1 <= month (dt_date dec31) <= 12).
  { unfold replace_month_day, date_checked in E.
    destruct (valid_date _) eqn:Hv; cbn [obind] in E; [|discriminate].
    injection E as <-. cbn [dt_date month]. lia. }
  assert (Hsame : datetime_sub dec31
                    (rd_sub (rd_of_months (liability_interval cfg))
                            (if rd_bool (rd_of_months j) then rd_of_months j else rd_zero))
                  = datetime_sub dec31
                      (rd_sub (rd_of_months (liability_interval cfg - j)) rd_zero)).
  { unfold datetime_sub, datetime_add. f_equal.
    apply date_add_total; try exact Hmonth;
      try (unfold rd_neg; apply relativedelta_small).
    - rewrite !rd_neg_total, !rd_sub_total.
      assert (Hj : rd_total_months
                     (if rd_bool (rd_of_months j) then rd_of_months j else rd_zero) = j).
      { destruct (rd_bool (rd_of_months j)) eqn:Eb.
        - apply relativedelta_total.
        - unfold rd_bool in Eb. apply negb_false_iff in Eb.
          rewrite !andb_true_iff, !Z.eqb_eq in Eb. destruct Eb as [[[Hy Hmo] _] _].
          pose proof (relativedelta_total 0 j 0 None) as Ht.
          fold (rd_of_months j) in Ht. unfold rd_total_months in Ht.
          rewrite Hy, Hmo in Ht. change (rd_total_months rd_zero) with 0. lia. }
      rewrite Hj. unfold rd_of_months. rewrite !relativedelta_total.
      change (rd_total_months rd_zero) with 0. lia.
    - unfold rd_neg, rd_sub. rewrite !relativedelta_days.
      unfold rd_of_months. rewrite !relativedelta_days.
      destruct (rd_bool _); [rewrite relativedelta_days|]; reflexivity.
    - unfold rd_neg, rd_sub. rewrite !relativedelta_day.
      unfold rd_of_months. rewrite !relativedelta_day.
      destruct (rd_bool _); [rewrite relativedelta_day|]; reflexivity. }
  rewrite Hsame. reflexivity.
Qed.

(** *** The monad in a world whose database never fails *)

Lemma statement_calm w : fault_in w = None -> statement w = (Returns tt, w).
Proof. unfold statement. intros ->. reflexivity. Qed.

Lemma query_calm {A} (f : Database -> A) w :
  fault_in w = None -> query f w = (Returns (f (db w)), w).
Proof. intros H. unfold query, bind. rewrite statement_calm by exact H. reflexivity. Qed.

Lemma execute_calm ev f w :
  fault_in w = None ->
  execute ev f w = (Returns tt, mkworld (f (db w)) (issued w ++ [ev]) None).
Proof.
  intros H. unfold execute, bind. rewrite statement_calm by exact H.
  rewrite H. reflexivity.
Qed.

Lemma bind_returns {A B} (x : M A) (k : A -> M B) w a w' :
  x w = (Returns a, w') -> bind x k w = k a w'.
Proof. unfold bind. intros ->. reflexivity. Qed.

Lemma atomic_returns {A} (body : M A) w a w' :
  body w = (Returns a, w') -> atomic body w = (Returns a, w').
Proof. unfold atomic. intros ->. reflexivity. Qed.

(** *** The balance *)

Lemma or_zero_Sum_amount rs :
  or_zero (Sum_amount rs) = fold_right (fun r acc => b_amount (fst r) + acc) 0 rs.
Proof.
  unfold Sum_amount, or_zero. destruct rs as [|r rs]; [reflexivity|].
  destruct (_ =? 0) eqn:E; [apply Z.eqb_eq in E; symmetry; exact E|reflexivity].
Qed.

Lemma sum_filter (p : row -> bool) rs :
  fold_right (fun r acc => b_amount (fst r) + acc) 0 (filter p rs)
  = fold_right (fun r acc => if p r then b_amount (fst r) + acc else acc) 0 rs.
Proof.
  induction rs as [|r rs IH]; [reflexivity|]. cbn [filter fold_right].
  destruct (p r); cbn [fold_right]; rewrite IH; reflexivity.
Qed.

Lemma total_ext p q d : (forall r, p r = q r) -> total p d = total q d.
Proof.
  intros H. unfold total, total_rows. induction (rows d) as [|r rs IH]; [reflexivity|].
  cbn [fold_right]. rewrite H, IH. reflexivity.
Qed.

(** C2 (amended): on a database that answers, the balance of a member with
    cutoff [T] is the sum of the credit-side fees-receivable amounts with
    value date up to [T] minus the sum of the debit-side ones, taken over
    every booking of the member, those of reversed transactions included. *)
Theorem _calc_balance_counts_every_booking self now_ T w :
  fault_in w = None ->
  _calc_balance self now_ (Some T) (Some T) None None w
  = (Returns (balance_over every_booking self T (db w)), w).
Proof.
  intros H. unfold _calc_balance, bind, aggregate_Sum_amount.
  rewrite query_calm by exact H. rewrite query_calm by exact H.
  unfold ret, balance_over. rewrite !or_zero_Sum_amount, !sum_filter.
  f_equal. f_equal. f_equal; apply total_ext; intros r;
    unfold filter_, Booking_objects, every_booking, transaction__value_datetime__lte,
      or_else; cbn [andb]; rewrite andb_assoc; reflexivity.
Qed.

Lemma _calc_balance_counts_every_booking_witness :
  _calc_balance 7 due_2023 (Some due_2023) (Some due_2023) None None
                (mkworld ledger_reversed_due [] None)
  = (Returns 0, mkworld ledger_reversed_due [] None).
Proof.
  exact (_calc_balance_counts_every_booking 7 due_2023 due_2023
           (mkworld ledger_reversed_due [] None) eq_refl).
Defined.

(** C2, as claimed, fails: for a due that was booked and reversed the
    balance is 0, where the active bookings alone sum to 30.00; and when the
    reversing transaction is dated after the cutoff the reversed booking
    makes the balance -30.00, where the active bookings sum to 0. *)
Lemma _calc_balance_counts_reversed_bookings :
  (fst (_calc_balance 7 due_2023 (Some due_2023) (Some due_2023) None None
                      (mkworld ledger_reversed_due [] None)) = Returns 0 /\
   balance_over active 7 due_2023 ledger_reversed_due = 3000) /\
  (fst (_calc_balance 7 due_2023 (Some due_2023) (Some due_2023) None None
                      (mkworld ledger_late_reversal [] None)) = Returns (-3000) /\
   balance_over active 7 due_2023 ledger_late_reversal = 0).
Proof. repeat split; vm_compute; reflexivity. Qed.

(** The ledger of the first example is what booking the due and reversing
    it leaves behind. *)
Example ledger_reversed_due_reached :
  db (snd ((add_missing UTC 7 due_2023 [(mkdate 2023 1 1, 3000)] ;;;
            reverse (mkTransaction 1 due_2023 (Some due_2023) memo_due ctx_missing None)
                    memo_changed ctx_changed)
           calm_empty))
  = ledger_reversed_due.
Proof. vm_compute. reflexivity. Qed.

(** *** Windows of balance snapshots *)

(** C3: with a snapshot for March to May 2023 in place, [create_balance]
    for the whole year 2023 does not raise: it returns the new snapshot and
    saves it, although the two windows overlap. *)
Theorem create_balance_accepts_enclosing_window number name now_ :
  create_balance 7 number name now_ jan_1 dec_31 true true
                 (mkworld db_with_spring [] None)
  = (Returns (Some year_2023),
     mkworld (insert_balance year_2023 db_with_spring) [WBalance year_2023] None)
  /\ balances (insert_balance year_2023 db_with_spring) = [spring_2023; year_2023]
  /\ overlapping (mb_start spring_2023) (mb_end spring_2023) jan_1 dec_31 = true.
Proof. split; [|split]; vm_compute; reflexivity. Qed.

Lemma datetime_leb_spec a b :
  datetime_leb a b = true <->
  ~ (year (dt_date b) < year (dt_date a) \/
     (year (dt_date b) = year (dt_date a) /\
      (month (dt_date b) < month (dt_date a) \/
       (month (dt_date b) = month (dt_date a) /\
        (day (dt_date b) < day (dt_date a) \/
         (day (dt_date b) = day (dt_date a) /\ dt_time b < dt_time a)))))).
Proof.
  unfold datetime_leb, datetime_ltb, date_eqb.
  rewrite negb_true_iff, <- not_true_iff_false.
  rewrite orb_true_iff, !andb_true_iff, date_ltb_spec, !Z.eqb_eq, Z.ltb_lt. lia.
Qed.

Lemma datetime_leb_trans a b c :
  datetime_leb a b = true -> datetime_leb b c = true -> datetime_leb a c = true.
Proof. rewrite !datetime_leb_spec. lia. Qed.

(** The check of [create_balance] finds every window that holds the new
    start or the new end. *)
Lemma create_balance_rejects_endpoint_inside self number name now_ start end_ commit
    ciz w b :
  fault_in w = None ->
  In b (balances_of self (db w)) ->
  (datetime_leb (mb_start b) start && datetime_leb start (mb_end b)
   || datetime_leb (mb_start b) end_ && datetime_leb end_ (mb_end b)) = true ->
  create_balance self number name now_ start end_ commit ciz w
  = (Raises (Exception_ (overlapping_balance number name start end_)), w).
Proof.
  intros Hcalm Hin Hb. unfold create_balance.
  rewrite (bind_returns _ _ _ _ _ (query_calm _ w Hcalm)).
  destruct (balances_of self (db w)) as [|b0 bs] eqn:E; [destruct Hin|].
  cbn [negb]. unfold bind at 1. unfold bind at 1.
  rewrite query_calm by exact Hcalm. rewrite E.
  assert (existsb (fun b1 : MemberBalance =>
             datetime_leb (mb_start b1) start && datetime_leb start (mb_end b1)
             || datetime_leb (mb_start b1) end_ && datetime_leb end_ (mb_end b1))
            (b0 :: bs) = true) as ->.
  { apply existsb_exists. exists b. auto. }
  reflexivity.
Qed.

(** A proper window that overlaps none of the member's snapshots is
    accepted and saved. *)
Lemma create_balance_accepts_disjoint self number name now_ start end_ w amount :
  fault_in w = None ->
  datetime_leb start end_ = true ->
  (forall b, In b (balances_of self (db w)) ->
             overlapping (mb_start b) (mb_end b) start end_ = false) ->
  _calc_balance self now_ (Some end_) (Some end_) (Some start) (Some start) w
  = (Returns amount, w) ->
  amount_fits amount = true ->
  exists balance,
    create_balance self number name now_ start end_ true true w
    = (Returns (Some balance),
       mkworld (insert_balance balance (db w)) (issued w ++ [WBalance balance]) None)
    /\ mb_member balance = self /\ mb_start balance = start /\ mb_end balance = end_
    /\ mb_amount balance = amount.
Proof.
  intros Hcalm Hse Hfree Hamount Hfits. unfold create_balance.
  rewrite (bind_returns _ _ _ _ _ (query_calm _ w Hcalm)).
  assert (Hguard :
    (if negb match balances_of self (db w) with [] => true | _ :: _ => false end
     then
       clash <- query (fun d =>
         existsb (fun b =>
            datetime_leb (mb_start b) start && datetime_leb start (mb_end b)
            || datetime_leb (mb_start b) end_ && datetime_leb end_ (mb_end b))
           (balances_of self d)) ;;
       (if clash then raise (Exception_ (overlapping_balance number name start end_))
        else ret tt)
     else ret tt) w = (Returns tt, w)).
  { destruct (balances_of self (db w)) as [|b0 bs] eqn:E; [reflexivity|].
    cbn [negb]. unfold bind. rewrite query_calm by exact Hcalm. rewrite E.
    assert (existsb (fun b1 : MemberBalance =>
               datetime_leb (mb_start b1) start && datetime_leb start (mb_end b1)
               || datetime_leb (mb_start b1) end_ && datetime_leb end_ (mb_end b1))
              (b0 :: bs) = false) as ->; [|reflexivity].
    apply not_true_iff_false. rewrite existsb_exists. intros (b & Hin & Hb).
    specialize (Hfree b Hin). unfold overlapping in Hfree.
    apply not_true_iff_false in Hfree. apply Hfree. apply andb_true_iff.
    apply orb_true_iff in Hb. destruct Hb as [Hb|Hb]; apply andb_true_iff in Hb;
      destruct Hb as [H1 H2]; split; auto.
    - eapply datetime_leb_trans; eassumption.
    - eapply datetime_leb_trans; eassumption. }
  rewrite (bind_returns _ _ _ _ _ Hguard).
  rewrite (bind_returns _ _ _ _ _ Hamount).
  cbn [negb andb]. rewrite andb_false_r.
  eexists. unfold MemberBalance_save. cbn [mb_amount]. rewrite Hfits.
  rewrite (bind_returns _ _ _ _ _ (execute_calm _ _ w Hcalm)).
  unfold ret. split; [reflexivity|]. auto.
Qed.

(** *** Posting a correction *)

Lemma fold_max_nonneg l : 0 <= fold_right Z.max 0 l.
Proof. induction l; cbn [fold_right]; lia. Qed.

Lemma next_pk_snoc l : next_pk (l ++ [next_pk l]) = next_pk l + 1.
Proof.
  unfold next_pk. rewrite fold_right_app. cbn [fold_right].
  pose proof (fold_max_nonneg l) as H.
  assert (G : forall a, 0 <= a ->
                fold_right Z.max a l = Z.max (fold_right Z.max 0 l) a).
  { intros a Ha. induction l as [|x l IH]; cbn [fold_right]; [lia|].
    rewrite IH by apply fold_max_nonneg. lia. }
  rewrite G by lia. lia.
Qed.

Lemma Transaction_objects_create_calm vdt bdt memo ctx w :
  fault_in w = None ->
  Transaction_objects_create vdt bdt memo ctx w
  = (Returns (next_pk (map t_pk (transactions (db w)))),
     mkworld (insert_transaction
                (mkTransaction (next_pk (map t_pk (transactions (db w))))
                               vdt bdt memo ctx None) (db w))
             (issued w ++ [WCreate (next_pk (map t_pk (transactions (db w)))) vdt memo])
             None).
Proof.
  intros H. unfold Transaction_objects_create, bind.
  rewrite execute_calm by exact H. reflexivity.
Qed.

Lemma debit_calm t acc amount member w :
  fault_in w = None ->
  debit t acc amount member w
  = (Returns tt,
     mkworld (insert_bookings
                [mkBooking (next_pk (map b_pk (bookings (db w)))) t (Some acc) None
                           amount member] (db w))
             (issued w ++ [WDebit t acc amount member]) None).
Proof. intros H. unfold debit. rewrite execute_calm by exact H. reflexivity. Qed.

Lemma credit_calm t acc amount member w :
  fault_in w = None ->
  credit t acc amount member w
  = (Returns tt,
     mkworld (insert_bookings
                [mkBooking (next_pk (map b_pk (bookings (db w)))) t None (Some acc)
                           amount member] (db w))
             (issued w ++ [WCredit t acc amount member]) None).
Proof. intros H. unfold credit. rewrite execute_calm by exact H. reflexivity. Qed.

(** What [adjust_balance] posts for a positive amount: the transaction, the
    debit and the credit, in the statements issued and in the tables. *)
Lemma adjust_balance_positive self now_ ctx memo amount from_ to_ vdt w :
  0 < amount -> fault_in w = None ->
  let t := next_pk (map t_pk (transactions (db w))) in
  let b := next_pk (map b_pk (bookings (db w))) in
  let to_member := if account_eqb to_ fees_receivable then Some self else None in
  let from_member := if account_eqb from_ fees_receivable then Some self else None in
  adjust_balance self now_ ctx memo amount from_ to_ vdt w
  = (Returns true,
     mkworld
       (mkDatabase
          (transactions (db w) ++ [mkTransaction t vdt (Some now_) memo ctx None])
          (bookings (db w)
             ++ [mkBooking b t (Some to_) None amount to_member;
                 mkBooking (b + 1) t None (Some from_) amount from_member])
          (memberships (db w)) (balances (db w)) (configuration (db w)))
       (issued w ++
          [WCreate t vdt memo; WDebit t to_ amount to_member;
           WCredit t from_ amount from_member])
       None).
Proof.
  intros Hpos Hcalm t b to_member from_member. unfold adjust_balance, adjust_balance_body.
  assert ((amount =? 0) = false) as -> by (apply Z.eqb_neq; lia).
  assert ((amount <? 0) = false) as -> by (apply Z.ltb_ge; lia).
  apply atomic_returns. unfold bind.
  rewrite Transaction_objects_create_calm by exact Hcalm.
  rewrite debit_calm by reflexivity. rewrite credit_calm by reflexivity.
  cbn [issued db bookings transactions memberships balances configuration
       insert_bookings insert_transaction].
  rewrite map_app. cbn [map b_pk]. rewrite next_pk_snoc.
  unfold insert_bookings, insert_transaction, ret.
  cbn [bookings transactions memberships balances configuration].
  rewrite <- !app_assoc. reflexivity.
Qed.

(** C10: [adjust_balance] with amount 0 returns False and leaves the world
    as it is: no statement is issued and no row is written; with any other
    amount, on a database that answers, it returns True; a negative amount
    is posted as the positive amount with [from_] and [to_] swapped; and a
    positive amount is posted as one new transaction with a debit on [to_]
    and a credit on [from_]: these three statements are issued, and the
    ledger afterwards is the one before with that transaction and these two
    bookings added, the member standing on the side of the fees receivable
    account. *)
Theorem adjust_balance_zero_and_sign self now_ ctx memo amount from_ to_ vdt w :
  (amount = 0 ->
   adjust_balance self now_ ctx memo amount from_ to_ vdt w = (Returns false, w)) /\
  (amount <> 0 -> fault_in w = None ->
   fst (adjust_balance self now_ ctx memo amount from_ to_ vdt w) = Returns true) /\
  (amount < 0 ->
   adjust_balance self now_ ctx memo amount from_ to_ vdt w
   = adjust_balance self now_ ctx memo (- amount) to_ from_ vdt w) /\
  (0 < amount -> fault_in w = None ->
   adjust_balance self now_ ctx memo amount from_ to_ vdt w
   = (Returns true,
      mkworld
        (mkDatabase
           (transactions (db w)
              ++ [mkTransaction (next_pk (map t_pk (transactions (db w)))) vdt
                                (Some now_) memo ctx None])
           (bookings (db w)
              ++ [mkBooking (next_pk (map b_pk (bookings (db w))))
                            (next_pk (map t_pk (transactions (db w))))
                            (Some to_) None amount
                            (if account_eqb to_ fees_receivable then Some self else None);
                  mkBooking (next_pk (map b_pk (bookings (db w))) + 1)
                            (next_pk (map t_pk (transactions (db w))))
                            None (Some from_) amount
                            (if account_eqb from_ fees_receivable then Some self
                             else None)])
           (memberships (db w)) (balances (db w)) (configuration (db w)))
        (issued w ++
           [WCreate (next_pk (map t_pk (transactions (db w)))) vdt memo;
            WDebit (next_pk (map t_pk (transactions (db w)))) to_ amount
                   (if account_eqb to_ fees_receivable then Some self else None);
            WCredit (next_pk (map t_pk (transactions (db w)))) from_ amount
                    (if account_eqb from_ fees_receivable then Some self else None)])
        None)).
Proof.
  assert (Hneg : amount < 0 ->
     adjust_balance self now_ ctx memo amount from_ to_ vdt w
     = adjust_balance self now_ ctx memo (- amount) to_ from_ vdt w).
  { intros Hn. unfold adjust_balance, adjust_balance_body.
    assert ((amount =? 0) = false) as -> by (apply Z.eqb_neq; lia).
    assert ((- amount =? 0) = false) as -> by (apply Z.eqb_neq; lia).
    assert ((amount <? 0) = true) as -> by (apply Z.ltb_lt; lia).
    assert ((- amount <? 0) = false) as -> by (apply Z.ltb_ge; lia).
    reflexivity. }
  split; [|split; [|split]].
  - intros ->. reflexivity.
  - intros Hnz Hcalm. destruct (Z_lt_le_dec amount 0) as [Hn|Hp].
    + rewrite (Hneg Hn).
      rewrite (adjust_balance_positive self now_ ctx memo (- amount) to_ from_ vdt w)
        by (lia || exact Hcalm).
      reflexivity.
    + rewrite (adjust_balance_positive self now_ ctx memo amount from_ to_ vdt w)
        by (lia || exact Hcalm).
      reflexivity.
  - exact Hneg.
  - intros Hp Hcalm.
    exact (adjust_balance_positive self now_ ctx memo amount from_ to_ vdt w Hp Hcalm).
Qed.

Lemma adjust_balance_zero_and_sign_witness :
  adjust_balance 7 feb_15 "office" "correction" 0 fees fees_receivable due_2023
                 (mkworld ledger_reversed_due [] None)
    = (Returns false, mkworld ledger_reversed_due [] None) /\
  fst (adjust_balance 7 feb_15 "office" "correction" (-500) fees fees_receivable
                      due_2023 (mkworld ledger_reversed_due [] None)) = Returns true /\
  adjust_balance 7 feb_15 "office" "correction" (-500) fees fees_receivable due_2023
                 (mkworld ledger_reversed_due [] None)
    = adjust_balance 7 feb_15 "office" "correction" (- (-500)) fees_receivable fees
                     due_2023 (mkworld ledger_reversed_due [] None) /\
  adjust_balance 7 feb_15 "office" "correction" 500 fees fees_receivable due_2023
                 (mkworld ledger_reversed_due [] None)
    = (Returns true,
       mkworld
         (mkDatabase
            (transactions ledger_reversed_due
               ++ [mkTransaction 3 due_2023 (Some feb_15) "correction" "office" None])
            (bookings ledger_reversed_due
               ++ [mkBooking 5 3 (Some fees_receivable) None 500 (Some 7);
                   mkBooking 6 3 None (Some fees) 500 None])
            [] [] config_36)
         [WCreate 3 due_2023 "correction"; WDebit 3 fees_receivable 500 (Some 7);
          WCredit 3 fees 500 None]
         None).
Proof.
  split; [|split; [|split]].
  - refine (proj1 (adjust_balance_zero_and_sign 7 feb_15 "office" "correction" 0
                     fees fees_receivable due_2023
                     (mkworld ledger_reversed_due [] None)) _). reflexivity.
  - refine (proj1 (proj2 (adjust_balance_zero_and_sign 7 feb_15 "office" "correction"
                            (-500) fees fees_receivable due_2023
                            (mkworld ledger_reversed_due [] None))) _ _);
      [lia|reflexivity].
  - refine (proj1 (proj2 (proj2 (adjust_balance_zero_and_sign 7 feb_15 "office"
                                   "correction" (-500) fees fees_receivable due_2023
                                   (mkworld ledger_reversed_due [] None)))) _). lia.
  - refine (proj2 (proj2 (proj2 (adjust_balance_zero_and_sign 7 feb_15 "office"
                                   "correction" 500 fees fees_receivable due_2023
                                   (mkworld ledger_reversed_due [] None)))) _ _);
      [lia|reflexivity].
Defined.

(** A negative amount on that ledger: what is posted is the positive
    amount the other way round, a debit of 5.00 on the fees account and a
    credit of 5.00 for the member on fees receivable. *)
Example adjust_balance_negative_posted :
  adjust_balance 7 feb_15 "office" "correction" (-500) fees fees_receivable due_2023
                 (mkworld ledger_reversed_due [] None)
  = (Returns true,
     mkworld
       (mkDatabase
          (transactions ledger_reversed_due
             ++ [mkTransaction 3 due_2023 (Some feb_15) "correction" "office" None])
          (bookings ledger_reversed_due
             ++ [mkBooking 5 3 (Some fees) None 500 None;
                 mkBooking 6 3 None (Some fees_receivable) 500 (Some 7)])
          [] [] config_36)
       [WCreate 3 due_2023 "correction"; WDebit 3 fees 500 None;
        WCredit 3 fees_receivable 500 (Some 7)]
       None).
Proof. vm_compute. reflexivity. Qed.

(** *** Sets of dues and their sorted order *)

Lemma due_eqb_eq a b : due_eqb a b = true <-> a = b.
Proof.
  unfold due_eqb. rewrite andb_true_iff, date_eqb_eq, Z.eqb_eq.
  destruct a, b; cbn [fst snd]. split; [intros [-> ->]; reflexivity|].
  intros [= -> ->]. auto.
Qed.

Lemma due_ltb_spec a b :
  due_ltb a b = true <->
  date_ltb (fst a) (fst b) = true \/ (fst a = fst b /\ snd a < snd b).
Proof.
  unfold due_ltb. rewrite orb_true_iff, andb_true_iff, date_eqb_eq, Z.ltb_lt. tauto.
Qed.

Lemma date_trichotomy a b : date_ltb a b = true \/ a = b \/ date_ltb b a = true.
Proof.
  rewrite !date_ltb_spec. destruct a as [y m d], b as [y' m' d']. cbn [year month day].
  destruct (Z.lt_trichotomy y y') as [?|[->|?]]; [lia| |lia].
  destruct (Z.lt_trichotomy m m') as [?|[->|?]]; [lia| |lia].
  destruct (Z.lt_trichotomy d d') as [?|[->|?]]; [lia| |lia].
  right. left. reflexivity.
Qed.

Lemma date_ltb_irrefl a : date_ltb a a = false.
Proof. apply not_true_iff_false. rewrite date_ltb_spec. lia. Qed.

Lemma date_ltb_trans a b c :
  date_ltb a b = true -> date_ltb b c = true -> date_ltb a c = true.
Proof. rewrite !date_ltb_spec. lia. Qed.

Lemma due_lt_irrefl a : ~ due_lt a a.
Proof.
  unfold due_lt. rewrite due_ltb_spec, date_ltb_irrefl. intros [?|[_ ?]]; [discriminate|lia].
Qed.

Lemma due_lt_trans a b c : due_lt a b -> due_lt b c -> due_lt a c.
Proof.
  unfold due_lt. rewrite !due_ltb_spec.
  intros [H1|[E1 H1]] [H2|[E2 H2]].
  - left. eapply date_ltb_trans; eassumption.
  - left. rewrite <- E2. exact H1.
  - left. rewrite E1. exact H2.
  - right. split; [congruence|lia].
Qed.

Lemma due_trichotomy a b : due_lt a b \/ a = b \/ due_lt b a.
Proof.
  unfold due_lt. rewrite !due_ltb_spec. destruct a as [d x], b as [d' x']. cbn [fst snd].
  destruct (date_trichotomy d d') as [?|[->|?]]; [tauto| |tauto].
  destruct (Z.lt_trichotomy x x') as [?|[->|?]]; [tauto| |tauto].
  right. left. reflexivity.
Qed.

Lemma due_le_spec a b : due_le a b <-> a = b \/ due_lt a b.
Proof.
  unfold due_le, due_leb. rewrite negb_true_iff. split.
  - intros H. destruct (due_trichotomy a b) as [?|[?|Hc]]; [tauto|tauto|].
    unfold due_lt in Hc. congruence.
  - intros [->|H]; apply not_true_iff_false; intros Hc.
    + exact (due_lt_irrefl _ Hc).
    + exact (due_lt_irrefl _ (due_lt_trans _ _ _ H Hc)).
Qed.

Lemma due_le_trans a b c : due_le a b -> due_le b c -> due_le a c.
Proof.
  rewrite !due_le_spec. intros [->|H1] [->|H2]; auto.
  right. eapply due_lt_trans; eassumption.
Qed.

Lemma due_le_total a b : due_le a b \/ due_le b a.
Proof. rewrite !due_le_spec. destruct (due_trichotomy a b) as [?|[?|?]]; auto. Qed.

Lemma due_le_antisym a b : due_le a b -> due_le b a -> a = b.
Proof.
  rewrite !due_le_spec. intros [?|H1] [?|H2]; auto.
  destruct (due_lt_irrefl _ (due_lt_trans _ _ _ H1 H2)).
Qed.

Lemma insert_sorted_perm x l : Permutation (insert_sorted x l) (x :: l).
Proof.
  induction l as [|y l IH]; cbn [insert_sorted]; [reflexivity|].
  destruct (due_leb x y); [reflexivity|].
  rewrite IH. apply perm_swap.
Qed.

Lemma sorted_perm s : Permutation (sorted s) s.
Proof.
  induction s as [|x s IH]; cbn; [reflexivity|].
  fold (sorted s). rewrite insert_sorted_perm. auto.
Qed.

Lemma insert_sorted_ascending x l :
  StronglySorted due_le l -> StronglySorted due_le (insert_sorted x l).
Proof.
  induction 1 as [|y l Hs IH Hall]; cbn [insert_sorted].
  - repeat constructor.
  - destruct (due_leb x y) eqn:E.
    + constructor; [constructor; assumption|]. constructor; [exact E|].
      eapply Forall_impl; [|exact Hall]. intros z Hz.
      eapply due_le_trans; [exact E|exact Hz].
    + constructor; [exact IH|].
      assert (Hyx : due_le y x).
      { destruct (due_le_total x y) as [Hc|Hc]; [unfold due_le in Hc; congruence|exact Hc]. }
      eapply Permutation_Forall; [symmetry; apply insert_sorted_perm|].
      constructor; assumption.
Qed.

Lemma sorted_ascending s : StronglySorted due_le (sorted s).
Proof.
  induction s as [|x s IH]; cbn; [constructor|].
  apply insert_sorted_ascending. exact IH.
Qed.

(** An ascending list is determined by its elements. *)
Lemma ascending_unique l1 :
  forall l2, StronglySorted due_le l1 -> StronglySorted due_le l2 ->
             Permutation l1 l2 -> l1 = l2.
Proof.
  induction l1 as [|a l1 IH]; intros l2 H1 H2 Hp.
  - apply Permutation_nil in Hp. subst. reflexivity.
  - destruct l2 as [|b l2]; [symmetry in Hp; apply Permutation_nil in Hp; discriminate|].
    inversion H1 as [|? ? Hs1 Ha]; subst. inversion H2 as [|? ? Hs2 Hb]; subst.
    assert (a = b).
    { apply due_le_antisym.
      - assert (In b (a :: l1)) as [->|Hin]
            by (eapply Permutation_in; [symmetry; exact Hp|left; reflexivity]).
        + apply due_le_spec; auto.
        + rewrite Forall_forall in Ha. auto.
      - assert (In a (b :: l2)) as [->|Hin]
            by (eapply Permutation_in; [exact Hp|left; reflexivity]).
        + apply due_le_spec; auto.
        + rewrite Forall_forall in Hb. auto. }
    subst b. f_equal. apply IH; auto. eapply Permutation_cons_inv; exact Hp.
Qed.

(** [sorted] does not depend on the order the set is iterated in. *)
Lemma sorted_order_independent s s' : Permutation s s' -> sorted s = sorted s'.
Proof.
  intros Hp. apply ascending_unique; try apply sorted_ascending.
  rewrite !sorted_perm. exact Hp.
Qed.

Lemma ascending_NoDup_strict l :
  StronglySorted due_le l -> NoDup l -> StronglySorted due_lt l.
Proof.
  induction 1 as [|a l Hs IH Hall]; intros Hnd; [constructor|].
  inversion Hnd as [|? ? Hnotin Hnd']; subst.
  constructor; [auto|]. rewrite Forall_forall in *. intros b Hb.
  destruct (proj1 (due_le_spec a b) (Hall b Hb)) as [->|?]; [contradiction|assumption].
Qed.

Lemma sorted_strict s : NoDup s -> StronglySorted due_lt (sorted s).
Proof.
  intros Hnd. apply ascending_NoDup_strict; [apply sorted_ascending|].
  eapply Permutation_NoDup; [symmetry; apply sorted_perm|exact Hnd].
Qed.

Lemma mem_In x s : mem x s = true <-> In x s.
Proof.
  unfold mem. rewrite existsb_exists. split.
  - intros (y & Hy & E). apply due_eqb_eq in E. subst. exact Hy.
  - intros H. exists x. split; [exact H|]. apply due_eqb_eq. reflexivity.
Qed.

Lemma add_NoDup x s : NoDup s -> NoDup (add x s).
Proof.
  intros H. unfold add. destruct (mem x s) eqn:E; [exact H|].
  apply NoDup_rev in H. rewrite <- (rev_involutive (s ++ [x])).
  apply NoDup_rev. rewrite rev_app_distr. cbn. constructor; [|exact H].
  rewrite <- in_rev. rewrite <- mem_In. congruence.
Qed.

Lemma union_NoDup s t : NoDup s -> NoDup (union s t).
Proof.
  unfold union. revert s. induction t as [|x t IH]; intros s H; cbn [fold_left]; [exact H|].
  apply IH. apply add_NoDup. exact H.
Qed.

Lemma difference_NoDup s t : NoDup s -> NoDup (difference s t).
Proof. apply NoDup_filter. Qed.

Lemma difference_In x s t : In x (difference s t) -> In x s.
Proof. unfold difference. rewrite filter_In. tauto. Qed.

Lemma dict_set_keys {V} k (v : V) d : keys (dict_set k v d) = add k (keys d).
Proof.
  unfold keys, add, mem. induction d as [|[k' v'] d IH]; cbn [dict_set map existsb fst]; [reflexivity|].
  destruct (due_eqb k k') eqn:E; cbn [orb map fst]; [reflexivity|].
  rewrite IH. destruct (existsb (due_eqb k) (map fst d)); reflexivity.
Qed.

Lemma dict_keys_NoDup {V} (key : V -> due) (found : list V) :
  forall d, NoDup (keys d) ->
            NoDup (keys (fold_left (fun d b => dict_set (key b) b d) found d)).
Proof.
  induction found as [|b found IH]; intros d H; cbn [fold_left]; [exact H|].
  apply IH. rewrite dict_set_keys. apply add_NoDup. exact H.
Qed.

Lemma dict_get_keys {V} k (d : list (due * V)) :
  In k (keys d) -> exists v, dict_get k d = Some v.
Proof.
  unfold keys. induction d as [|[k' v'] d IH]; cbn [map In dict_get fst]; [tauto|].
  intros [->|H].
  - assert (due_eqb k k = true) as -> by (apply due_eqb_eq; reflexivity). eauto.
  - destruct (due_eqb k k'); eauto.
Qed.

(** *** Running [update_liabilites] on a database that never fails *)

Lemma mark_reversed_pk t t' x : t_pk (mark_reversed t t' x) = t_pk x.
Proof. unfold mark_reversed. destruct (_ && _); reflexivity. Qed.

Lemma reverse_in_next_pk t memo ctx d :
  next_pk (map t_pk (transactions (reverse_in t memo ctx d)))
  = next_pk (map t_pk (transactions d)) + 1.
Proof.
  unfold reverse_in. cbn [transactions]. rewrite map_app, map_map. cbn [map t_pk].
  rewrite (map_ext _ t_pk) by apply mark_reversed_pk. apply next_pk_snoc.
Qed.

Lemma reverse_calm t memo ctx w :
  fault_in w = None ->
  reverse t memo ctx w
  = (Returns tt, mkworld (reverse_in t memo ctx (db w))
                         (issued w ++ [WReverse (t_pk t) memo]) None).
Proof. intros H. unfold reverse. rewrite execute_calm by exact H. reflexivity. Qed.

Lemma save_calm t w :
  fault_in w = None ->
  save t w = (Returns tt, mkworld (db w) (issued w ++ [WSave t]) None).
Proof. intros H. unfold save. rewrite execute_calm by exact H. reflexivity. Qed.

Lemma cancel_wrong_calm (dues_in_db : list (due * row)) ks :
  (forall k, In k ks -> In k (keys dues_in_db)) ->
  forall w, fault_in w = None ->
    for_each ks (fun wrong_due =>
      match dict_get wrong_due dues_in_db with
      | Some booking => reverse (snd booking) memo_changed ctx_changed
      | None => raise KeyError
      end) w
    = (Returns tt,
       mkworld (reversed memo_changed ctx_changed (dict_rows dues_in_db ks) (db w))
               (issued w ++ reversal_writes dues_in_db ks) None)
    /\ next_pk (map t_pk (transactions
                            (reversed memo_changed ctx_changed (dict_rows dues_in_db ks)
                                      (db w))))
       = next_pk (map t_pk (transactions (db w))) + Z.of_nat (List.length ks)
    /\ List.length (reversal_writes dues_in_db ks) = List.length ks.
Proof.
  induction ks as [|k ks IH]; intros Hin w Hcalm.
  - cbn [for_each reversal_writes dict_rows flat_map List.length]. unfold ret, reversed.
    cbn [fold_left]. rewrite app_nil_r, Z.add_0_r.
    destruct w; cbn in *; subst; auto.
  - destruct (dict_get_keys k dues_in_db (Hin k (or_introl eq_refl))) as [b Hb].
    cbn [for_each]. unfold bind at 1. rewrite Hb, reverse_calm by exact Hcalm.
    destruct (IH (fun k' H => Hin k' (or_intror H))
                 (mkworld (reverse_in (snd b) memo_changed ctx_changed (db w))
                          (issued w ++ [WReverse (t_pk (snd b)) memo_changed]) None)
                 eq_refl) as (Hrun & Hpk & Hlen).
    rewrite Hrun. cbn [issued db] in *.
    unfold reversal_writes, dict_rows, reversed in *. cbn [flat_map]. rewrite Hb.
    cbn [app fold_left List.length]. rewrite <- app_assoc.
    split; [reflexivity|]. split; [|rewrite Hlen; reflexivity].
    rewrite Hpk, reverse_in_next_pk. lia.
Qed.

Lemma post_due_calm tz self _now k w :
  fault_in w = None ->
  (let '(date_, amount) := k in
   t <- Transaction_objects_create (make_aware tz date_) (Some _now) memo_due ctx_missing ;;
   credit t fees amount (Some self) ;;;
   debit t fees_receivable amount (Some self) ;;;
   save t) w
  = (Returns tt,
     mkworld (posted tz self _now k (db w))
             (issued w ++ posting_writes tz self (next_pk (map t_pk (transactions (db w)))) [k])
             None).
Proof.
  intros Hcalm. destruct k as [date_ amount]. unfold bind.
  rewrite Transaction_objects_create_calm by exact Hcalm.
  rewrite credit_calm by reflexivity. rewrite debit_calm by reflexivity.
  rewrite save_calm by reflexivity. cbn [db issued posting_writes].
  rewrite <- !app_assoc. reflexivity.
Qed.

Lemma add_missing_calm tz self _now ks :
  forall w, fault_in w = None ->
    for_each ks (fun '(date_, amount) =>
      t <- Transaction_objects_create (make_aware tz date_) (Some _now) memo_due ctx_missing ;;
      credit t fees amount (Some self) ;;;
      debit t fees_receivable amount (Some self) ;;;
      save t) w
    = (Returns tt,
       mkworld (posted_all tz self _now ks (db w))
               (issued w ++ posting_writes tz self
                              (next_pk (map t_pk (transactions (db w)))) ks) None).
Proof.
  induction ks as [|k ks IH]; intros w Hcalm.
  - cbn [for_each posting_writes]. unfold ret, posted_all. cbn [fold_left].
    rewrite app_nil_r. destruct w; cbn in *; subst; auto.
  - cbn [for_each]. unfold bind at 1.
    pose proof (post_due_calm tz self _now k w Hcalm) as Hone.
    destruct k as [d a]. rewrite Hone. rewrite IH by reflexivity.
    cbn [db issued]. unfold posted_all. cbn [fold_left].
    assert (Hpk : next_pk (map t_pk (transactions (posted tz self _now (d, a) (db w))))
                  = next_pk (map t_pk (transactions (db w))) + 1).
    { unfold posted. cbn [transactions insert_bookings insert_transaction].
      rewrite map_app. cbn [map t_pk]. apply next_pk_snoc. }
    rewrite Hpk. cbn [posting_writes]. rewrite <- !app_assoc. reflexivity.
Qed.

Lemma stray_loop_calm memo ctx (strays : list row) :
  forall w, fault_in w = None ->
    for_each strays (fun stray_liability : row =>
      reverse (snd stray_liability) memo ctx) w
    = (Returns tt,
       mkworld (reversed memo ctx strays (db w))
               (issued w ++ map (fun r => WReverse (t_pk (snd r)) memo) strays) None).
Proof.
  induction strays as [|r rs IH]; intros w Hcalm.
  - cbn [for_each map]. unfold ret, reversed. cbn [fold_left]. rewrite app_nil_r.
    destruct w; cbn in *; subst; auto.
  - cbn [for_each]. unfold bind. rewrite reverse_calm by exact Hcalm.
    rewrite IH by reflexivity. cbn [issued db map]. unfold reversed. cbn [fold_left].
    rewrite <- app_assoc. reflexivity.
Qed.

Lemma cancel_stray_calm tz self _from membership_ranges w :
  fault_in w = None ->
  cancel_stray tz self _from membership_ranges w
  = (Returns tt,
     mkworld (reversed memo_stray ctx_stray
                       (filter (stray_q tz self _from membership_ranges) (rows (db w)))
                       (db w))
             (issued w
                ++ stray_writes (filter (stray_q tz self _from membership_ranges)
                                        (rows (db w))))
             None).
Proof.
  intros Hcalm. unfold cancel_stray, all.
  rewrite (bind_returns _ _ _ _ _ (query_calm _ w Hcalm)).
  rewrite stray_loop_calm by exact Hcalm. unfold stray_writes, stray_q.
  destruct membership_ranges; reflexivity.
Qed.

(** Steps 1 to 3 only read. *)
Lemma compare_dues_reads tz self now_ w r w' :
  fault_in w = None -> compare_dues tz self now_ w = (r, w') -> w' = w.
Proof.
  intros Hcalm. unfold compare_dues, bind, all, lift.
  rewrite !query_calm by exact Hcalm.
  destruct (collect_dues _ _ _ _ _) as [[ranges dues]| |]; try (intros [= _ <-]; reflexivity).
  rewrite query_calm by exact Hcalm. unfold ret. intros [= _ <-]. reflexivity.
Qed.

Lemma dues_while_NoDup self end_ :
  forall fuel date_ dues dues',
    NoDup dues -> dues_while fuel self end_ date_ dues = Returns dues' -> NoDup dues'.
Proof.
  induction fuel as [|fuel IH]; intros date_ dues dues' Hnd; cbn [dues_while]; [discriminate|].
  destruct (date_leb date_ end_); [|intros [= <-]; exact Hnd].
  destruct (date_add date_ _) as [d'| |]; cbn [obind]; try discriminate.
  apply IH. apply add_NoDup. exact Hnd.
Qed.

Lemma get_dues_NoDup m now_ from r dues :
  get_dues m now_ from = Returns (r, dues) -> NoDup dues.
Proof.
  unfold get_dues. destruct (dues_range m now_ from) as [[s e]| |]; cbn [obind]; try discriminate.
  destruct (dues_while _ _ _ _ _) as [ds| |] eqn:E; cbn [obind]; try discriminate.
  intros [= _ <-]. eapply dues_while_NoDup; [|exact E]. constructor.
Qed.

Lemma collect_dues_NoDup ms now_ from :
  forall ranges dues ranges' dues',
    NoDup dues ->
    collect_dues ms now_ from ranges dues = Returns (ranges', dues') -> NoDup dues'.
Proof.
  induction ms as [|m ms IH]; intros ranges dues ranges' dues' Hnd; cbn [collect_dues].
  - intros [= _ <-]. exact Hnd.
  - destruct (ms_amount m =? 0); [apply IH; exact Hnd|].
    destruct (get_dues m now_ from) as [[rng ds]| |]; cbn [obind]; try discriminate.
    apply IH. apply union_NoDup. exact Hnd.
Qed.

(** What steps 1 to 3 hand to the loops: two duplicate-free sets, and a
    booking for every wrong key. *)
Lemma compare_dues_sets tz self now_ w _from ranges dues_in_db wrong missing w' :
  fault_in w = None ->
  compare_dues tz self now_ w
  = (Returns (_from, ranges, dues_in_db, wrong, missing), w') ->
  NoDup wrong /\ NoDup missing /\ (forall k, In k wrong -> In k (keys dues_in_db)).
Proof.
  intros Hcalm. unfold compare_dues, bind, all, lift.
  rewrite !query_calm by exact Hcalm.
  destruct (collect_dues _ _ _ _ _) as [[rs ds]| |] eqn:E; try discriminate.
  rewrite query_calm by exact Hcalm. unfold ret. intros [= _ _ <- <- <- _].
  split; [|split].
  - apply difference_NoDup. apply dict_keys_NoDup. constructor.
  - apply difference_NoDup. eapply collect_dues_NoDup; [|exact E]. constructor.
  - intros k. apply difference_In.
Qed.

(** C9: on a database that answers, [update_liabilites] handles the wrong
    dues and then the missing dues each in strictly ascending (date, amount)
    order, whatever order the two sets are iterated in.  The sorted lists
    hold exactly the wrong and the missing dues, every wrong due gets its
    reversal, and the run is determined by its input: it issues the
    reversals of the wrong dues in that order, then the postings of the
    missing dues in that order, then the reversals of the bookings that the
    query of step 6 finds in the ledger after step 5, and it leaves the
    ledger that these statements make. *)
Theorem update_liabilites_write_order tz self now_ w
    _from ranges dues_in_db wrong missing w1 :
  fault_in w = None ->
  compare_dues tz self now_ w
  = (Returns (_from, ranges, dues_in_db, wrong, missing), w1) ->
  Permutation (sorted wrong) wrong /\
  Permutation (sorted missing) missing /\
  StronglySorted due_lt (sorted wrong) /\
  StronglySorted due_lt (sorted missing) /\
  (forall wrong' missing',
      Permutation wrong wrong' -> Permutation missing missing' ->
      sorted wrong' = sorted wrong /\ sorted missing' = sorted missing) /\
  List.length (reversal_writes dues_in_db (sorted wrong)) = List.length wrong /\
  update_liabilites tz self now_ w
  = (Returns tt,
     mkworld
       (reversed memo_stray ctx_stray
          (filter (stray_q tz self _from ranges)
                  (rows (after_step_5 tz self now_ dues_in_db wrong missing (db w))))
          (after_step_5 tz self now_ dues_in_db wrong missing (db w)))
       (issued w
          ++ reversal_writes dues_in_db (sorted wrong)
          ++ posting_writes tz self
               (next_pk (map t_pk (transactions (db w)))
                + Z.of_nat (List.length wrong))
               (sorted missing)
          ++ stray_writes
               (filter (stray_q tz self _from ranges)
                       (rows (after_step_5 tz self now_ dues_in_db wrong missing (db w)))))
       None).
Proof.
  intros Hcalm Hcmp.
  destruct (compare_dues_sets _ _ _ _ _ _ _ _ _ _ Hcalm Hcmp) as (Hw & Hm & Hkeys).
  pose proof (compare_dues_reads _ _ _ _ _ _ Hcalm Hcmp) as ->.
  split; [apply sorted_perm|]. split; [apply sorted_perm|].
  split; [apply sorted_strict; exact Hw|].
  split; [apply sorted_strict; exact Hm|].
  split.
  { intros wrong' missing' Pw Pm.
    split; symmetry; apply sorted_order_independent; assumption. }
  destruct (cancel_wrong_calm dues_in_db (sorted wrong)) with (w := w)
    as (Hrun2 & Hpk2 & Hlen2); [|exact Hcalm|].
  { intros k Hk. apply Hkeys. eapply Permutation_in; [apply sorted_perm|exact Hk]. }
  rewrite (Permutation_length (sorted_perm wrong)) in Hlen2, Hpk2.
  split; [exact Hlen2|].
  apply atomic_returns. unfold update_liabilites_body.
  rewrite (bind_returns _ _ _ _ _ Hcmp). cbv beta iota.
  fold (cancel_wrong dues_in_db wrong) in Hrun2.
  rewrite (bind_returns _ _ _ _ _ Hrun2).
  pose proof (add_missing_calm tz self now_ (sorted missing)
                (mkworld (reversed memo_changed ctx_changed
                                   (dict_rows dues_in_db (sorted wrong)) (db w))
                         (issued w ++ reversal_writes dues_in_db (sorted wrong)) None)
                eq_refl) as Hrun3.
  unfold add_missing at 1. rewrite (bind_returns _ _ _ _ _ Hrun3).
  rewrite cancel_stray_calm by reflexivity.
  cbn [issued db]. rewrite Hpk2. unfold after_step_5. rewrite <- !app_assoc. reflexivity.
Qed.

Lemma update_liabilites_write_order_witness :
  Permutation (sorted two_wrong) two_wrong /\
  Permutation (sorted two_missing) two_missing /\
  StronglySorted due_lt (sorted two_wrong) /\
  StronglySorted due_lt (sorted two_missing) /\
  (forall wrong' missing',
      Permutation two_wrong wrong' -> Permutation two_missing missing' ->
      sorted wrong' = sorted two_wrong /\ sorted missing' = sorted two_missing) /\
  List.length (reversal_writes two_dues_in_db (sorted two_wrong)) = List.length two_wrong /\
  update_liabilites UTC 7 feb_15 out_of_order
  = (Returns tt,
     mkworld
       (reversed memo_stray ctx_stray
          (filter (stray_q UTC 7 None two_ranges)
                  (rows (after_step_5 UTC 7 feb_15 two_dues_in_db two_wrong two_missing
                                   (db out_of_order))))
          (after_step_5 UTC 7 feb_15 two_dues_in_db two_wrong two_missing (db out_of_order)))
       (issued out_of_order
          ++ reversal_writes two_dues_in_db (sorted two_wrong)
          ++ posting_writes UTC 7
               (next_pk (map t_pk (transactions (db out_of_order)))
                + Z.of_nat (List.length two_wrong))
               (sorted two_missing)
          ++ stray_writes
               (filter (stray_q UTC 7 None two_ranges)
                       (rows (after_step_5 UTC 7 feb_15 two_dues_in_db two_wrong two_missing
                                        (db out_of_order)))))
       None).
Proof.
  apply (update_liabilites_write_order UTC 7 feb_15 out_of_order None two_ranges
           two_dues_in_db two_wrong two_missing out_of_order).
  - reflexivity.
  - vm_compute. reflexivity.
Defined.

(** The statements of that run, written out: the wrong due of January
    is reversed before that of March although the ledger and the dict hold
    them the other way round, the due of January is booked before that of
    March although step 1 collected them the other way round, and the two
    strays follow in the order of the table. *)
Example write_order_spelled_out :
  two_wrong = [(mkdate 2023 3 10, 2500); (mkdate 2023 1 10, 2500)] /\
  two_missing = [(mkdate 2023 3 1, 3000); (mkdate 2023 1 1, 3000)] /\
  issued (snd (update_liabilites UTC 7 feb_15 out_of_order))
  = [WReverse 2 memo_changed; WReverse 1 memo_changed;
     WCreate 7 (midnight (mkdate 2023 1 1)) memo_due;
     WCredit 7 fees 3000 (Some 7); WDebit 7 fees_receivable 3000 (Some 7); WSave 7;
     WCreate 8 (midnight (mkdate 2023 3 1)) memo_due;
     WCredit 8 fees 3000 (Some 7); WDebit 8 fees_receivable 3000 (Some 7); WSave 8;
     WReverse 3 memo_stray; WReverse 4 memo_stray].
Proof. repeat split; vm_compute; reflexivity. Qed.

(** *** A reversal takes the transaction out of the balance *)

Lemma total_rows_app p l1 l2 :
  total_rows p (l1 ++ l2) = total_rows p l1 + total_rows p l2.
Proof.
  unfold total_rows. induction l1 as [|r l1 IH]; cbn [app fold_right]; [lia|].
  destruct (p r); lia.
Qed.

Lemma total_rows_split p q rs :
  total_rows p rs
  = total_rows (fun r => p r && q r) rs + total_rows (fun r => p r && negb (q r)) rs.
Proof.
  unfold total_rows. induction rs as [|r rs IH]; cbn [fold_right]; [lia|].
  destruct (p r), (q r); cbn [andb negb]; lia.
Qed.

Lemma next_pk_above l x : In x l -> x < next_pk l.
Proof.
  unfold next_pk. induction l as [|y l IH]; cbn [In fold_right]; [tauto|].
  intros [->|H]; [lia|]. specialize (IH H). lia.
Qed.

Lemma find_over_app {A} (f : A -> bool) l1 l2 :
  find f (l1 ++ l2) = match find f l1 with Some x => Some x | None => find f l2 end.
Proof.
  induction l1 as [|x l1 IH]; cbn [app find]; [reflexivity|].
  destruct (f x); [reflexivity|exact IH].
Qed.

Lemma find_pk_In pk ts :
  In pk (map t_pk ts) ->
  exists x, find (fun t => t_pk t =? pk) ts = Some x /\ t_pk x = pk /\ In x ts.
Proof.
  induction ts as [|t ts IH]; cbn [map In find]; [tauto|].
  destruct (t_pk t =? pk) eqn:E.
  - intros _. exists t. apply Z.eqb_eq in E. auto.
  - intros [H|H]; [apply Z.eqb_neq in E; contradiction|].
    destruct (IH H) as (x & Hf & Hpk & Hin). eauto.
Qed.

Lemma find_pk_NoDup t ts :
  NoDup (map t_pk ts) -> In t ts -> find (fun x => t_pk x =? t_pk t) ts = Some t.
Proof.
  induction ts as [|x ts IH]; cbn [map In find]; [tauto|].
  intros Hnd [->|Hin].
  - rewrite Z.eqb_refl. reflexivity.
  - inversion Hnd as [|? ? Hnotin Hnd']; subst.
    destruct (t_pk x =? t_pk t) eqn:E; [|auto].
    apply Z.eqb_eq in E. exfalso. apply Hnotin. rewrite E. apply in_map. exact Hin.
Qed.

Lemma find_pk_fresh pk ts :
  ~ In pk (map t_pk ts) -> find (fun t => t_pk t =? pk) ts = None.
Proof.
  induction ts as [|t ts IH]; cbn [map In find]; [reflexivity|].
  intros H. destruct (t_pk t =? pk) eqn:E; [apply Z.eqb_eq in E; tauto|]. tauto.
Qed.

Lemma find_pk_map (g : Transaction -> Transaction) pk ts :
  (forall x, t_pk (g x) = t_pk x) ->
  find (fun t => t_pk t =? pk) (map g ts)
  = option_map g (find (fun t => t_pk t =? pk) ts).
Proof.
  intros Hg. induction ts as [|y ts IH]; cbn [find map]; [reflexivity|].
  rewrite Hg. destruct (t_pk y =? pk); [reflexivity|exact IH].
Qed.

Section Reversal.

Variables (d : Database) (t : Transaction) (memo ctx : string).
Hypothesis Hwf : well_formed d.
Hypothesis Hin : In t (transactions d).

Let t' : Z := next_pk (map t_pk (transactions d)).
Let reversing : Transaction :=
  mkTransaction t' (t_value_datetime t) None memo ctx None.
Let mark_row (r : row) : row := (fst r, mark_reversed (t_pk t) t' (snd r)).

Lemma transaction_of_old b :
  In b (bookings d) ->
  exists x, transaction_of d b = Some x /\
            transaction_of (reverse_in t memo ctx d) b
            = Some (mark_reversed (t_pk t) t' x).
Proof.
  intros Hb. destruct Hwf as [_ Href].
  destruct (find_pk_In _ _ (Href b Hb)) as (x & Hf & Hpk & Hx).
  exists x. split; [exact Hf|].
  unfold transaction_of, reverse_in. cbn [transactions]. fold t'.
  rewrite find_over_app.
  rewrite find_pk_map by apply mark_reversed_pk.
  unfold transaction_of in Hf. rewrite Hf. reflexivity.
Qed.

Lemma rows_old :
  flat_map (fun b => match transaction_of (reverse_in t memo ctx d) b with
                     | Some x => [(b, x)]
                     | None => []
                     end) (bookings d)
  = map mark_row (rows d).
Proof.
  unfold rows.
  assert (G : forall bs, (forall b, In b bs -> In b (bookings d)) ->
    flat_map (fun b => match transaction_of (reverse_in t memo ctx d) b with
                       | Some x => [(b, x)]
                       | None => []
                       end) bs
    = map mark_row (flat_map (fun b => match transaction_of d b with
                                       | Some x => [(b, x)]
                                       | None => []
                                       end) bs)).
  { induction bs as [|b bs IH]; intros Hsub; cbn [flat_map map]; [reflexivity|].
    destruct (transaction_of_old b (Hsub b (or_introl eq_refl))) as (x & -> & ->).
    rewrite map_app. cbn [map app]. rewrite IH by (intros; apply Hsub; right; assumption).
    reflexivity. }
  apply G. auto.
Qed.

Lemma rows_new bs :
  forall pk,
    (forall b, In b bs -> b_transaction b = t_pk t) ->
    flat_map (fun b => match transaction_of (reverse_in t memo ctx d) b with
                       | Some x => [(b, x)]
                       | None => []
                       end) (mirror_all pk t' bs)
    = map (fun b => (b, reversing)) (mirror_all pk t' bs).
Proof.
  induction bs as [|b bs IH]; intros pk Hmine; cbn [mirror_all flat_map map]; [reflexivity|].
  rewrite IH by (intros; apply Hmine; right; assumption).
  unfold transaction_of at 1, reverse_in. cbn [transactions mirror b_transaction].
  rewrite find_over_app.
  rewrite find_pk_fresh.
  - cbn [find t_pk]. fold t'. rewrite Z.eqb_refl. reflexivity.
  - rewrite map_map. rewrite (map_ext _ t_pk) by apply mark_reversed_pk.
    intros Hc. apply next_pk_above in Hc. fold t' in Hc. lia.
Qed.

Lemma rows_after_reverse :
  rows (reverse_in t memo ctx d)
  = map mark_row (rows d)
    ++ map (fun b => (b, reversing))
           (mirror_all (next_pk (map b_pk (bookings d))) t'
                       (filter (fun b => b_transaction b =? t_pk t) (bookings d))).
Proof.
  unfold rows at 1. cbn [bookings reverse_in]. fold t'. rewrite flat_map_app.
  rewrite rows_old, rows_new; [reflexivity|].
  intros b Hb. apply filter_In in Hb. apply Z.eqb_eq. tauto.
Qed.

Variables (self : Z) (T : datetime).

Lemma total_rows_marked (p : Booking -> datetime -> bool) rs :
  total_rows (fun r => p (fst r) (t_value_datetime (snd r))) (map mark_row rs)
  = total_rows (fun r => p (fst r) (t_value_datetime (snd r))) rs.
Proof.
  unfold total_rows. induction rs as [|r rs IH]; cbn [map fold_right]; [reflexivity|].
  rewrite IH. unfold mark_row at 1 2. cbn [fst snd].
  assert (t_value_datetime (mark_reversed (t_pk t) t' (snd r)) = t_value_datetime (snd r))
    as -> by (unfold mark_reversed; destruct (_ && _); reflexivity).
  reflexivity.
Qed.

Lemma total_rows_mirrored_credit bs :
  forall pk,
    total_rows (fun r => counts_as_credit self T (fst r) (t_value_datetime (snd r)))
               (map (fun b => (b, reversing)) (mirror_all pk t' bs))
    = total_bookings (fun b => counts_as_debit self T b (t_value_datetime t)) bs.
Proof.
  induction bs as [|b bs IH]; intros pk; cbn [mirror_all map]; [reflexivity|].
  unfold total_rows in *. cbn [fold_right total_bookings fst snd]. rewrite IH. reflexivity.
Qed.

Lemma total_rows_mirrored_debit bs :
  forall pk,
    total_rows (fun r => counts_as_debit self T (fst r) (t_value_datetime (snd r)))
               (map (fun b => (b, reversing)) (mirror_all pk t' bs))
    = total_bookings (fun b => counts_as_credit self T b (t_value_datetime t)) bs.
Proof.
  induction bs as [|b bs IH]; intros pk; cbn [mirror_all map]; [reflexivity|].
  unfold total_rows in *. cbn [fold_right total_bookings fst snd]. rewrite IH. reflexivity.
Qed.

Lemma total_rows_of_transaction (p : Booking -> datetime -> bool) :
  total_rows (fun r => p (fst r) (t_value_datetime (snd r))
                       && of_transaction (t_pk t) r) (rows d)
  = total_bookings (fun b => p b (t_value_datetime t))
          (filter (fun b => b_transaction b =? t_pk t) (bookings d)).
Proof.
  unfold rows. destruct Hwf as [Hnd Href].
  assert (G : forall bs, (forall b, In b bs -> In b (bookings d)) ->
    total_rows (fun r => p (fst r) (t_value_datetime (snd r))
                         && of_transaction (t_pk t) r)
               (flat_map (fun b => match transaction_of d b with
                                   | Some x => [(b, x)]
                                   | None => []
                                   end) bs)
    = total_bookings (fun b => p b (t_value_datetime t))
            (filter (fun b => b_transaction b =? t_pk t) bs)).
  { induction bs as [|b bs IH]; intros Hsub; cbn [flat_map filter]; [reflexivity|].
    rewrite total_rows_app, IH by (intros; apply Hsub; right; assumption).
    destruct (find_pk_In _ _ (Href b (Hsub b (or_introl eq_refl)))) as (x & Hf & Hpk & Hx).
    unfold transaction_of at 1. rewrite Hf.
    unfold total_rows at 1, of_transaction. cbn [fold_right fst snd].
    destruct (b_transaction b =? t_pk t) eqn:E.
    - apply Z.eqb_eq in E. rewrite E in Hf.
      rewrite (find_pk_NoDup t _ Hnd Hin) in Hf. injection Hf as <-.
      unfold total_bookings. cbn [fold_right]. rewrite andb_true_r.
      destruct (p b _); lia.
    - rewrite andb_false_r. lia. }
  apply G. auto.
Qed.

End Reversal.

Lemma total_rows_ext p q rs :
  (forall r, p r = q r) -> total_rows p rs = total_rows q rs.
Proof.
  intros H. unfold total_rows. induction rs as [|r rs IH]; cbn [fold_right]; [reflexivity|].
  rewrite H, IH. reflexivity.
Qed.

(** After [reverse], the balance is the balance of the other transactions:
    the bookings of the reversed transaction are still counted, and the
    bookings of the reversing transaction, dated alike, cancel them. *)
Lemma reverse_takes_out_of_balance d t memo ctx self T :
  well_formed d -> In t (transactions d) ->
  balance_over every_booking self T (reverse_in t memo ctx d)
  = balance_over (fun r => negb (of_transaction (t_pk t) r)) self T d.
Proof.
  intros Hwf Hin. unfold balance_over, total.
  rewrite (rows_after_reverse d t memo ctx Hwf). rewrite !total_rows_app.
  set (C := counts_as_credit self T). set (D := counts_as_debit self T).
  assert (HC : forall rs,
    total_rows (fun r => every_booking r && member_is self r
                         && credit_account_is fees_receivable r
                         && datetime_leb (t_value_datetime (snd r)) T) rs
    = total_rows (fun r => C (fst r) (t_value_datetime (snd r))) rs).
  { intros rs. apply total_rows_ext. intros [b x]. reflexivity. }
  assert (HD : forall rs,
    total_rows (fun r => every_booking r && member_is self r
                         && debit_account_is fees_receivable r
                         && datetime_leb (t_value_datetime (snd r)) T) rs
    = total_rows (fun r => D (fst r) (t_value_datetime (snd r))) rs).
  { intros rs. apply total_rows_ext. intros [b x]. reflexivity. }
  rewrite !HC, !HD, !total_rows_marked.
  rewrite (total_rows_mirrored_credit d t memo ctx self T).
  rewrite (total_rows_mirrored_debit d t memo ctx self T).
  rewrite (total_rows_split (fun r => C (fst r) (t_value_datetime (snd r)))
                            (of_transaction (t_pk t)) (rows d)).
  rewrite (total_rows_split (fun r => D (fst r) (t_value_datetime (snd r)))
                            (of_transaction (t_pk t)) (rows d)).
  rewrite !(total_rows_of_transaction d t Hwf Hin).
  assert (HC' :
    total_rows (fun r => negb (of_transaction (t_pk t) r) && member_is self r
                         && credit_account_is fees_receivable r
                         && datetime_leb (t_value_datetime (snd r)) T) (rows d)
    = total_rows (fun r => C (fst r) (t_value_datetime (snd r))
                           && negb (of_transaction (t_pk t) r)) (rows d)).
  { apply total_rows_ext. intros [b x]. subst C. unfold counts_as_credit.
    unfold member_is, credit_account_is. cbn [fst snd].
    destruct (negb _); cbn [andb]; [rewrite andb_true_r|rewrite andb_false_r]; reflexivity. }
  assert (HD' :
    total_rows (fun r => negb (of_transaction (t_pk t) r) && member_is self r
                         && debit_account_is fees_receivable r
                         && datetime_leb (t_value_datetime (snd r)) T) (rows d)
    = total_rows (fun r => D (fst r) (t_value_datetime (snd r))
                           && negb (of_transaction (t_pk t) r)) (rows d)).
  { apply total_rows_ext. intros [b x]. subst D. unfold counts_as_debit.
    unfold member_is, debit_account_is. cbn [fst snd].
    destruct (negb _); cbn [andb]; [rewrite andb_true_r|rewrite andb_false_r]; reflexivity. }
  rewrite HC', HD'. subst C D. lia.
Qed.

(** *** Faults and [@transaction.atomic] *)

Lemma fault_blind_ret {A} (a : A) : fault_blind (ret a).
Proof. intros w b w'. unfold ret. intros [= <- <-]. reflexivity. Qed.

Lemma fault_blind_raise {A} e : fault_blind (@raise A e).
Proof. intros w b w'. unfold raise. discriminate. Qed.

Lemma fault_blind_lift {A} (x : outcome A) : fault_blind (lift x).
Proof. intros w b w'. unfold lift. intros [= -> <-]. reflexivity. Qed.

Lemma fault_blind_bind {A B} (x : M A) (k : A -> M B) :
  fault_blind x -> (forall a, fault_blind (k a)) -> fault_blind (bind x k).
Proof.
  intros Hx Hk w b w'. unfold bind.
  destruct (x w) as [[a| |] w1] eqn:E; try discriminate.
  rewrite (Hx _ _ _ E). apply Hk.
Qed.

Lemma fault_blind_statement : fault_blind statement.
Proof.
  intros w [] w'. unfold statement, calm.
  destruct (fault_in w) as [[|n]|] eqn:E; try discriminate; intros [= <-]; reflexivity.
Qed.

Lemma fault_blind_query {A} (f : Database -> A) : fault_blind (query f).
Proof.
  apply fault_blind_bind; [apply fault_blind_statement|].
  intros _ w a w'. intros [= <- <-]. reflexivity.
Qed.

Lemma fault_blind_execute ev f : fault_blind (execute ev f).
Proof.
  apply fault_blind_bind; [apply fault_blind_statement|].
  intros _ w a w'. intros [= <- <-]. reflexivity.
Qed.

(** A computation may look at the database before it starts. *)
Lemma fault_blind_on_db {A B} (f : Database -> B) (x : B -> M A) :
  (forall b, fault_blind (x b)) -> fault_blind (fun w => x (f (db w)) w).
Proof. intros H w a w' E. apply (H (f (db w))). exact E. Qed.

Lemma fault_blind_for_each {A} (xs : list A) (body : A -> M unit) :
  (forall x, fault_blind (body x)) -> fault_blind (for_each xs body).
Proof.
  intros H. induction xs as [|x xs IH]; cbn [for_each].
  - apply fault_blind_ret.
  - apply fault_blind_bind; auto.
Qed.

Lemma fault_blind_create vdt bdt memo ctx :
  fault_blind (Transaction_objects_create vdt bdt memo ctx).
Proof.
  unfold Transaction_objects_create.
  apply (fault_blind_on_db (fun d => next_pk (map t_pk (transactions d)))
           (fun pk => execute (WCreate pk vdt memo)
                        (insert_transaction (mkTransaction pk vdt bdt memo ctx None)) ;;;
                      ret pk)).
  intros pk. apply fault_blind_bind; [apply fault_blind_execute|].
  intros _. apply fault_blind_ret.
Qed.

Lemma fault_blind_debit t acc amount member : fault_blind (debit t acc amount member).
Proof.
  unfold debit.
  apply (fault_blind_on_db (fun d => next_pk (map b_pk (bookings d)))
           (fun pk => execute (WDebit t acc amount member)
                        (insert_bookings [mkBooking pk t (Some acc) None amount member]))).
  intros pk. apply fault_blind_execute.
Qed.

Lemma fault_blind_credit t acc amount member : fault_blind (credit t acc amount member).
Proof.
  unfold credit.
  apply (fault_blind_on_db (fun d => next_pk (map b_pk (bookings d)))
           (fun pk => execute (WCredit t acc amount member)
                        (insert_bookings [mkBooking pk t None (Some acc) amount member]))).
  intros pk. apply fault_blind_execute.
Qed.

(** One step of a proof that a computation built from the statements above
    is blind to faults. *)
Ltac blind_step :=
  first
    [ apply fault_blind_ret | apply fault_blind_raise | apply fault_blind_lift
    | apply fault_blind_query | apply fault_blind_execute
    | apply fault_blind_create | apply fault_blind_credit | apply fault_blind_debit
    | apply fault_blind_for_each; intros ?
    | apply fault_blind_bind; [|intros ?]
    | match goal with
      | |- fault_blind (match ?x with Some _ => _ | None => _ end) => destruct x
      | |- fault_blind (let '(_, _) := ?x in _) => destruct x
      end ].

Lemma fault_blind_body tz self now_ : fault_blind (update_liabilites_body tz self now_).
Proof.
  unfold update_liabilites_body, compare_dues, cancel_wrong, add_missing,
    cancel_stray, all.
  repeat blind_step.
Qed.

(** C5: whatever statement of the database fails, a run of
    [update_liabilites] either returns with the database that the complete,
    undisturbed run of all its steps produces, or it does not return and the
    database is the one it started from. *)
Theorem update_liabilites_all_or_nothing tz self now_ w :
  (exists w', update_liabilites tz self now_ w = (Returns tt, w') /\
              update_liabilites_body tz self now_ (calm w) = (Returns tt, calm w'))
  \/ (fst (update_liabilites tz self now_ w) <> Returns tt /\
      db (snd (update_liabilites tz self now_ w)) = db w).
Proof.
  unfold update_liabilites, atomic.
  destruct (update_liabilites_body tz self now_ w) as [[[]| |] w'] eqn:E.
  - left. exists w'. split; [reflexivity|]. apply fault_blind_body. exact E.
  - right. split; [discriminate|reflexivity].
  - right. split; [discriminate|reflexivity].
Qed.

(** Without the decorator the run is not all-or-nothing: a fault at the
    sixth statement leaves the reversal of step 4 and the first insert of
    step 5 behind, and [update_liabilites] takes them back. *)
Example update_liabilites_body_leaves_part :
  fst (update_liabilites_body UTC 7 feb_15 failing_at_sixth) = Raises DatabaseError /\
  issued (snd (update_liabilites_body UTC 7 feb_15 failing_at_sixth))
    = [WReverse 2 memo_changed; WCreate 4 (midnight (mkdate 2023 1 1)) memo_due] /\
  List.length (transactions (db (snd (update_liabilites_body UTC 7 feb_15 failing_at_sixth))))
    = 4%nat /\
  update_liabilites UTC 7 feb_15 failing_at_sixth
    = (Raises DatabaseError,
       mkworld ledger_two_wrong_dues
               [WReverse 2 memo_changed; WCreate 4 (midnight (mkdate 2023 1 1)) memo_due]
               (Some 0%nat)).
Proof. repeat split; vm_compute; reflexivity. Qed.

(** *** How the ledger operations change what a query finds *)

Lemma rows_In d b x :
  In (b, x) (rows d) <-> In b (bookings d) /\ transaction_of d b = Some x.
Proof.
  unfold rows. rewrite in_flat_map. split.
  - intros (b' & Hb & Hin). destruct (transaction_of d b') as [x'|] eqn:E; [|destruct Hin].
    destruct Hin as [[= -> ->]|[]]. auto.
  - intros [Hb E]. exists b. rewrite E. split; [exact Hb|left; reflexivity].
Qed.

Lemma rows_pk d r : In r (rows d) -> t_pk (snd r) = b_transaction (fst r).
Proof.
  destruct r as [b x]. rewrite rows_In. intros [_ E]. unfold transaction_of in E.
  apply find_some in E. cbn [fst snd]. apply Z.eqb_eq. tauto.
Qed.

Lemma rows_transaction d r : In r (rows d) -> In (snd r) (transactions d).
Proof.
  destruct r as [b x]. rewrite rows_In. intros [_ E]. unfold transaction_of in E.
  apply find_some in E. tauto.
Qed.

Lemma filter_nil_iff {A} (f : A -> bool) l :
  (forall x, In x l -> f x = false) -> filter f l = [].
Proof.
  induction l as [|x l IH]; intros H; cbn [filter]; [reflexivity|].
  rewrite (H x (or_introl eq_refl)). apply IH. intros y Hy. apply H. right. exact Hy.
Qed.

Lemma mirror_all_In pk t' bs b' :
  In b' (mirror_all pk t' bs) -> exists pk' b, In b bs /\ b' = mirror pk' t' b.
Proof.
  revert pk. induction bs as [|b bs IH]; intros pk; cbn [mirror_all In]; [tauto|].
  intros [<-|H]; [exists pk, b; auto|].
  destruct (IH _ H) as (pk' & b0 & Hb0 & ->). exists pk', b0. auto.
Qed.

(** A condition on rows that only active bookings of transaction-free
    shape satisfy: what [reverse] of [t] leaves of it. *)
Lemma filter_after_reverse d t memo ctx (P : row -> bool) :
  well_formed d ->
  (forall r, P r = true -> t_reversed_by (snd r) = None) ->
  (forall b pk x, In b (bookings d) -> b_transaction b = t_pk t ->
                  P (mirror pk (next_pk (map t_pk (transactions d))) b, x) = false) ->
  filter P (rows (reverse_in t memo ctx d))
  = filter (fun r => P r && negb (of_transaction (t_pk t) r)) (rows d).
Proof.
  intros Hwf Hactive Hmirror.
  rewrite (rows_after_reverse d t memo ctx Hwf). cbv zeta. rewrite filter_app.
  match goal with
  | |- filter P _ ++ filter P ?B = _ => rewrite (filter_nil_iff P B)
  end.
  - rewrite app_nil_r.
    assert (G : forall rs, (forall r, In r rs -> In r (rows d)) ->
      filter P (map (fun r => (fst r, mark_reversed (t_pk t)
                                       (next_pk (map t_pk (transactions d))) (snd r))) rs)
      = filter (fun r => P r && negb (of_transaction (t_pk t) r)) rs).
    { induction rs as [|r rs IH]; intros Hsub; cbn [map filter]; [reflexivity|].
      rewrite IH by (intros; apply Hsub; right; assumption).
      pose proof (rows_pk d r (Hsub r (or_introl eq_refl))) as Hpk.
      unfold of_transaction. destruct (b_transaction (fst r) =? t_pk t) eqn:E.
      - rewrite andb_false_r.
        destruct (P (fst r, _)) eqn:EP; [|reflexivity].
        apply Hactive in EP. cbn [snd] in EP. unfold mark_reversed in EP.
        apply Z.eqb_eq in E. rewrite Hpk, E, Z.eqb_refl in EP. cbn [andb] in EP.
        destruct (t_reversed_by (snd r)) eqn:Er; cbn [t_reversed_by] in EP; congruence.
      - rewrite andb_true_r. unfold mark_reversed. rewrite Hpk, E. cbn [andb].
        destruct r; reflexivity. }
    apply G. auto.
  - intros r Hr. apply in_map_iff in Hr. destruct Hr as (b' & <- & Hb').
    apply mirror_all_In in Hb'. destruct Hb' as (pk' & b & Hb & ->).
    apply filter_In in Hb. destruct Hb as [Hb Ht]. apply Z.eqb_eq in Ht.
    apply Hmirror; assumption.
Qed.

Lemma well_formed_reverse d t memo ctx :
  well_formed d -> well_formed (reverse_in t memo ctx d).
Proof.
  intros [Hnd Href]. unfold well_formed, reverse_in. cbn [transactions bookings].
  assert (Hpks : map t_pk (map (mark_reversed (t_pk t) (next_pk (map t_pk (transactions d))))
                               (transactions d)
                          ++ [mkTransaction (next_pk (map t_pk (transactions d)))
                                            (t_value_datetime t) None memo ctx None])
                 = map t_pk (transactions d) ++ [next_pk (map t_pk (transactions d))]).
  { rewrite map_app, map_map. rewrite (map_ext _ t_pk) by apply mark_reversed_pk.
    reflexivity. }
  rewrite Hpks. split.
  - apply NoDup_rev in Hnd. rewrite <- (rev_involutive (_ ++ _)). apply NoDup_rev.
    rewrite rev_app_distr. cbn [rev app]. constructor; [|exact Hnd].
    rewrite <- in_rev. intros Hc. apply next_pk_above in Hc. lia.
  - intros b Hb. apply in_app_iff in Hb. apply in_app_iff. destruct Hb as [Hb|Hb].
    + left. auto.
    + right. apply mirror_all_In in Hb. destruct Hb as (pk' & b0 & _ & ->).
      left. reflexivity.
Qed.

Lemma flat_map_same {A B} (f g : A -> list B) l :
  (forall a, In a l -> f a = g a) -> flat_map f l = flat_map g l.
Proof.
  induction l as [|a l IH]; intros H; cbn [flat_map]; [reflexivity|].
  rewrite (H a (or_introl eq_refl)), IH; [reflexivity|].
  intros b Hb. apply H. right. exact Hb.
Qed.

Lemma rows_posted tz self _now k d :
  well_formed d ->
  rows (posted tz self _now k d)
  = rows d
    ++ [due_row tz self _now k
                (next_pk (map b_pk (bookings d)))
                (next_pk (map t_pk (transactions d)));
        receivable_row tz self _now k
                (next_pk (map b_pk (bookings d ++
                   [mkBooking (next_pk (map b_pk (bookings d)))
                              (next_pk (map t_pk (transactions d))) None (Some fees)
                              (snd k) (Some self)])))
                (next_pk (map t_pk (transactions d)))].
Proof.
  intros [Hnd Href]. unfold rows at 1, posted.
  cbn [bookings transactions insert_bookings insert_transaction].
  rewrite <- app_assoc, flat_map_app. apply (f_equal2 (@app row)).
  - unfold rows. apply flat_map_same. intros b Hb.
    unfold transaction_of. cbn [transactions insert_bookings insert_transaction].
    rewrite find_over_app.
    destruct (find_pk_In _ _ (Href b Hb)) as (x & -> & _). reflexivity.
  - cbn [flat_map app]. unfold transaction_of.
    cbn [transactions insert_bookings insert_transaction b_transaction].
    rewrite !find_over_app, !find_pk_fresh
      by (intros Hc; apply next_pk_above in Hc; lia).
    cbn [find t_pk]. rewrite Z.eqb_refl. reflexivity.
Qed.

Lemma well_formed_posted tz self _now k d :
  well_formed d -> well_formed (posted tz self _now k d).
Proof.
  intros [Hnd Href]. unfold well_formed, posted.
  cbn [bookings transactions insert_bookings insert_transaction].
  rewrite map_app. cbn [map t_pk]. split.
  - apply NoDup_rev in Hnd. rewrite <- (rev_involutive (_ ++ _)). apply NoDup_rev.
    rewrite rev_app_distr. cbn [rev app]. constructor; [|exact Hnd].
    rewrite <- in_rev. intros Hc. apply next_pk_above in Hc. lia.
  - intros b Hb. rewrite !in_app_iff in Hb. cbn [In] in Hb. apply in_app_iff.
    destruct Hb as [[Hb|[<-|[]]]|[<-|[]]]; [left; auto|right; left; reflexivity..].
Qed.

Lemma extends_refl d : well_formed d -> extends d d.
Proof.
  intros H. unfold extends. split; [exact H|]. split; [apply incl_refl|].
  split; [auto|]. auto.
Qed.

Lemma extends_reverse d d' t memo ctx :
  extends d d' -> extends d (reverse_in t memo ctx d').
Proof.
  intros (Hwf & Hpks & Hbs & Hm & Hc). unfold extends.
  split; [apply well_formed_reverse; exact Hwf|].
  unfold reverse_in at 1 2 3 4. cbn [transactions bookings memberships configuration].
  split; [|split; [|auto]].
  - rewrite map_app, map_map.
    rewrite (map_ext (fun x => t_pk (mark_reversed _ _ x)) t_pk)
      by apply mark_reversed_pk.
    apply incl_appl. exact Hpks.
  - intros b Hb. apply in_app_iff in Hb. destruct Hb as [Hb|Hb]; [auto|].
    right. apply mirror_all_In in Hb. destruct Hb as (pk' & b0 & _ & ->).
    cbn [mirror b_transaction]. intros Hc'. apply Hpks in Hc'.
    apply next_pk_above in Hc'. lia.
Qed.

Lemma extends_posted tz d d' self _now k :
  extends d d' -> extends d (posted tz self _now k d').
Proof.
  intros (Hwf & Hpks & Hbs & Hm & Hc). unfold extends.
  split; [apply well_formed_posted; exact Hwf|].
  unfold posted. cbn [transactions bookings memberships configuration
                       insert_bookings insert_transaction].
  split; [|split; [|auto]].
  - rewrite map_app. apply incl_appl. exact Hpks.
  - intros b Hb. rewrite !in_app_iff in Hb. cbn [In] in Hb.
    destruct Hb as [[Hb|[<-|[]]]|[<-|[]]]; [auto|right..];
      cbn [b_transaction]; intros Hc'; apply Hpks in Hc';
      apply next_pk_above in Hc'; lia.
Qed.

Lemma account_eqb_eq a b : account_eqb a b = true <-> a = b.
Proof.
  destruct a, b; cbn [account_eqb]; try (split; [discriminate|discriminate]);
    try (split; reflexivity).
  rewrite Z.eqb_eq. split; [intros ->; reflexivity|intros [= ->]; reflexivity].
Qed.

(** The mirror of a booking that stands next to an old due of the member
    is no liability. *)
Lemma mirror_not_liability self P d d' (l : row) :
  liability_like self P -> no_fee_debits self d -> extends d d' ->
  In l (rows d) -> member_is self l = true -> credit_account_is fees l = true ->
  forall b pk x, In b (bookings d') -> b_transaction b = t_pk (snd l) ->
                 P (mirror pk (next_pk (map t_pk (transactions d'))) b, x) = false.
Proof.
  intros HP Hfee (_ & _ & Hbs & _) Hl Hlm Hlc b pk x Hb Ht.
  apply not_true_iff_false. intros Hc. apply HP in Hc.
  destruct Hc as (Hm & Hcr & _).
  pose proof (rows_pk d l Hl) as Hpk.
  pose proof (rows_transaction d l Hl) as Hold. apply (in_map t_pk) in Hold.
  destruct l as [bl tl]. apply rows_In in Hl. destruct Hl as [Hbl _].
  unfold member_is, credit_account_is in *.
  cbn [fst snd mirror b_member b_credit_account] in *.
  destruct (Hbs b Hb) as [Hin|Hnew]; [|apply Hnew; rewrite Ht; exact Hold].
  destruct (b_member b) as [m|] eqn:Em; [|discriminate]. apply Z.eqb_eq in Hm. subst m.
  destruct (b_debit_account b) as [a|] eqn:Ea; [|discriminate].
  apply account_eqb_eq in Hcr. subst a.
  destruct (b_member bl) as [m|] eqn:Eml; [|discriminate]. apply Z.eqb_eq in Hlm. subst m.
  destruct (b_credit_account bl) as [a|] eqn:Eal; [|discriminate].
  apply account_eqb_eq in Hlc. subst a.
  apply (Hfee bl b Hbl Hin); congruence.
Qed.

Lemma filter_same {A} (f g : A -> bool) l :
  (forall a, f a = g a) -> filter f l = filter g l.
Proof. intros H. apply filter_ext. exact H. Qed.

(** Reversing the transactions of the rows [L] takes exactly their bookings
    out of what a query for liabilities finds. *)
Lemma reverse_all self d memo ctx (L : list row) :
  no_fee_debits self d ->
  (forall l, In l L -> In l (rows d) /\ member_is self l = true /\
                       credit_account_is fees l = true) ->
  forall w, fault_in w = None -> extends d (db w) ->
  exists w',
    for_each L (fun r : row => reverse (snd r) memo ctx) w = (Returns tt, w') /\
    fault_in w' = None /\ extends d (db w') /\
    forall P, liability_like self P ->
              filter P (rows (db w'))
              = filter (fun r => P r && negb (of_any L r)) (rows (db w)).
Proof.
  intros Hfee. induction L as [|l L IH]; intros Hold w Hcalm Hext.
  - exists w. cbn [for_each]. unfold ret.
    split; [reflexivity|]. split; [exact Hcalm|]. split; [exact Hext|].
    intros P _. apply filter_same. intros r. unfold of_any. cbn [existsb negb].
    rewrite andb_true_r. reflexivity.
  - cbn [for_each]. unfold bind. rewrite reverse_calm by exact Hcalm.
    destruct (IH (fun x H => Hold x (or_intror H))
                 (mkworld (reverse_in (snd l) memo ctx (db w))
                          (issued w ++ [WReverse (t_pk (snd l)) memo]) None)
                 eq_refl (extends_reverse _ _ _ _ _ Hext))
      as (w' & Hrun & Hcalm' & Hext' & Hfilter).
    exists w'. split; [exact Hrun|]. split; [exact Hcalm'|]. split; [exact Hext'|].
    intros P HP. rewrite (Hfilter P HP). cbn [db].
    rewrite filter_after_reverse.
    + apply filter_same. intros r. unfold of_any. cbn [existsb].
      rewrite negb_orb, <- andb_assoc. f_equal. apply andb_comm.
    + apply Hext.
    + intros r Hr. apply andb_true_iff in Hr. apply HP. tauto.
    + intros b pk x Hb Ht.
      destruct (Hold l (or_introl eq_refl)) as (Hl1 & Hl2 & Hl3).
      rewrite (mirror_not_liability self P d (db w) l HP Hfee Hext Hl1 Hl2 Hl3
                 b pk x Hb Ht).
      reflexivity.
Qed.

(** Step 5 adds the two rows of every due it books and touches nothing
    else. *)
Lemma posting_all tz self _now d ks :
  forall w, fault_in w = None -> extends d (db w) ->
  exists w',
    for_each ks (fun '(date_, amount) =>
      t <- Transaction_objects_create (make_aware tz date_) (Some _now) memo_due ctx_missing ;;
      credit t fees amount (Some self) ;;;
      debit t fees_receivable amount (Some self) ;;;
      save t) w = (Returns tt, w') /\
    fault_in w' = None /\ extends d (db w') /\
    (forall r, In r (rows (db w')) ->
       In r (rows (db w)) \/
       exists k pk t, In k ks /\ ~ In t (map t_pk (transactions (db w))) /\
                      (r = due_row tz self _now k pk t \/
                       r = receivable_row tz self _now k pk t)) /\
    (forall r, In r (rows (db w)) -> In r (rows (db w'))) /\
    (forall k, In k ks ->
       exists pk t, ~ In t (map t_pk (transactions (db w))) /\
                    In (due_row tz self _now k pk t) (rows (db w'))).
Proof.
  induction ks as [|k ks IH]; intros w Hcalm Hext.
  - exists w. cbn [for_each]. unfold ret.
    split; [reflexivity|]. split; [exact Hcalm|]. split; [exact Hext|].
    split; [auto|]. split; [auto|]. intros k [].
  - cbn [for_each]. unfold bind at 1.
    pose proof (post_due_calm tz self _now k w Hcalm) as Hone.
    destruct k as [date_ amount]. rewrite Hone.
    set (w1 := mkworld (posted tz self _now (date_, amount) (db w)) _ None).
    destruct (IH w1 eq_refl (extends_posted tz _ _ _ _ _ Hext))
      as (w' & Hrun & Hcalm' & Hext' & Hnew & Hkeep & Hall).
    assert (Hwf : well_formed (db w)) by apply Hext.
    pose proof (rows_posted tz self _now (date_, amount) (db w) Hwf) as Hrows.
    assert (Hfresh : ~ In (next_pk (map t_pk (transactions (db w))))
                          (map t_pk (transactions (db w)))).
    { intros Hc. apply next_pk_above in Hc. lia. }
    assert (Hsub : forall t, ~ In t (map t_pk (transactions (db w1))) ->
                             ~ In t (map t_pk (transactions (db w)))).
    { intros t Ht Hc. apply Ht. subst w1. unfold posted.
      cbn [db transactions insert_bookings insert_transaction].
      rewrite map_app. apply in_app_iff. left. exact Hc. }
    exists w'. split; [exact Hrun|]. split; [exact Hcalm'|]. split; [exact Hext'|].
    split; [|split].
    + intros r Hr. destruct (Hnew r Hr) as [Hold|(k & pk & t & Hk & Ht & Hshape)].
      * subst w1. cbn [db] in Hold. rewrite Hrows in Hold.
        apply in_app_iff in Hold. destruct Hold as [Hold|[<-|[<-|[]]]]; [auto|right..].
        -- eexists (date_, amount), _, _. split; [left; reflexivity|]. split; [exact Hfresh|].
           left. reflexivity.
        -- eexists (date_, amount), _, _. split; [left; reflexivity|]. split; [exact Hfresh|].
           right. reflexivity.
      * right. exists k, pk, t. split; [right; exact Hk|]. split; [apply Hsub; exact Ht|].
        exact Hshape.
    + intros r Hr. apply Hkeep. subst w1. cbn [db]. rewrite Hrows.
      apply in_app_iff. left. exact Hr.
    + intros k [<-|Hk].
      * eexists _, _. split; [exact Hfresh|]. apply Hkeep. subst w1. cbn [db].
        rewrite Hrows. apply in_app_iff. right. left. reflexivity.
      * destruct (Hall k Hk) as (pk & t & Ht & Hin). exists pk, t.
        split; [apply Hsub; exact Ht|exact Hin].
Qed.

(** *** Every due lies in the window of its membership *)

Lemma date_leb_spec a b :
  date_leb a b = true <->
  ~ (year b < year a \/
     (year b = year a /\ (month b < month a \/ (month b = month a /\ day b < day a)))).
Proof.
  unfold date_leb. rewrite negb_true_iff, <- not_true_iff_false, date_ltb_spec. tauto.
Qed.

Lemma date_leb_refl a : date_leb a a = true.
Proof. apply date_leb_spec. lia. Qed.

Lemma date_leb_trans a b c :
  date_leb a b = true -> date_leb b c = true -> date_leb a c = true.
Proof. rewrite !date_leb_spec. lia. Qed.

(** At or west of UTC a day begins on its own UTC date, so that booking a
    due and reading its date back gives the date, and the instants at
    which days begin are in the order of the days. *)
Lemma make_aware_west tz d :
  at_or_west_of_UTC tz -> make_aware tz d = mkdatetime d (- tz d).
Proof.
  intros H. specialize (H d). unfold make_aware, day_us in *. cbv zeta.
  rewrite Z.div_small, Z.mod_small by lia. reflexivity.
Qed.

Lemma make_aware_date tz d : at_or_west_of_UTC tz -> dt_date (make_aware tz d) = d.
Proof. intros H. rewrite make_aware_west by exact H. reflexivity. Qed.

Lemma make_aware_leb tz a b :
  at_or_west_of_UTC tz ->
  date_leb a b = true -> datetime_leb (make_aware tz a) (make_aware tz b) = true.
Proof.
  intros H Hab. rewrite !make_aware_west by exact H.
  unfold datetime_leb, datetime_ltb, date_leb in *. cbn [dt_date dt_time].
  apply negb_true_iff in Hab. rewrite Hab. cbn [orb].
  destruct (date_eqb b a) eqn:E; [|reflexivity].
  apply date_eqb_eq in E. subst b. rewrite Z.ltb_irrefl. reflexivity.
Qed.

Lemma make_aware_UTC d : make_aware UTC d = midnight d.
Proof. reflexivity. Qed.

Lemma UTC_at_or_west_of_UTC : at_or_west_of_UTC UTC.
Proof. intros d. unfold UTC, day_us. lia. Qed.

(** With a valid start, moving by [n] months moves the date forward for
    positive [n] and not forward otherwise. *)
Lemma date_add_months_order d n d' :
  valid_date d = true -> date_add d (rd_of_months n) = Returns d' ->
  valid_date d' = true /\
  (1 <= n -> date_leb d d' = true) /\ (n <= 0 -> date_leb d' d = true).
Proof.
  intros Hv Hadd.
  destruct (date_add_months_cases d n Hv) as [(d'' & Hadd' & Hv' & Hidx & Hday)|[Hc _]];
    [|congruence].
  rewrite Hadd in Hadd'. injection Hadd' as <-.
  split; [exact Hv'|].
  apply valid_date_spec in Hv. apply valid_date_spec in Hv'.
  unfold month_index in Hidx. rewrite !date_leb_spec. split; intros Hn.
  - lia.
  - destruct (Z.eq_dec n 0) as [->|Hne]; [|lia].
    assert (year d' = year d) as Hy by lia. assert (month d' = month d) as Hm by lia.
    rewrite Hy, Hm in Hday. lia.
Qed.

(** With an interval that is not positive the loop of [get_dues] does not
    return once it has been entered. *)
Lemma dues_while_stuck self end_ :
  ms_interval self <= 0 ->
  forall fuel date_ dues,
    valid_date date_ = true -> date_leb date_ end_ = true ->
    forall dues', dues_while fuel self end_ date_ dues <> Returns dues'.
Proof.
  intros Hi. induction fuel as [|fuel IH]; intros date_ dues Hv Hle dues'; cbn [dues_while];
    [discriminate|].
  rewrite Hle. destruct (date_add date_ _) as [d'| |] eqn:E; cbn [obind]; try discriminate.
  destruct (date_add_months_order _ _ _ Hv E) as (Hv' & _ & Hback).
  apply IH; [exact Hv'|]. eapply date_leb_trans; [apply Hback; exact Hi|exact Hle].
Qed.

Lemma dues_while_dates self end_ :
  forall fuel date_ dues dues',
    valid_date date_ = true ->
    dues_while fuel self end_ date_ dues = Returns dues' ->
    forall k, In k dues' ->
              In k dues \/
              (date_leb date_ (fst k) = true /\ date_leb (fst k) end_ = true).
Proof.
  induction fuel as [|fuel IH]; intros date_ dues dues' Hv; cbn [dues_while]; [discriminate|].
  destruct (date_leb date_ end_) eqn:Hle; [|intros [= <-]; auto].
  destruct (date_add date_ _) as [d'| |] eqn:E; cbn [obind]; try discriminate.
  intros Hrun k Hk.
  destruct (date_add_months_order _ _ _ Hv E) as (Hv' & Hfwd & Hback).
  destruct (Z_lt_le_dec 0 (ms_interval self)) as [Hpos|Hneg].
  - destruct (IH _ _ _ Hv' Hrun k Hk) as [Hin|[H1 H2]].
    + destruct (add_In _ _ _ Hin) as [->|Hold]; [|auto].
      right. cbn [fst]. split; [apply date_leb_refl|exact Hle].
    + right. split; [|exact H2]. eapply date_leb_trans; [apply Hfwd; lia|exact H1].
  - exfalso. eapply (dues_while_stuck self end_ Hneg fuel d'); [exact Hv'| |exact Hrun].
    eapply date_leb_trans; [apply Hback; exact Hneg|exact Hle].
Qed.

Lemma get_dues_dates m now_ from s e dues :
  valid_date (ms_start m) = true ->
  (forall f, from = Some f -> valid_date f = true) ->
  get_dues m now_ from = Returns ((s, e), dues) ->
  forall k, In k dues ->
            date_leb s (fst k) = true /\ date_leb (fst k) e = true /\
            (forall f, from = Some f -> date_leb f (fst k) = true).
Proof.
  intros Hs Hf. unfold get_dues.
  destruct (dues_range m now_ from) as [[s' e']| |] eqn:Er; cbn [obind]; try discriminate.
  destruct (dues_while _ _ _ _ _) as [ds| |] eqn:E; cbn [obind]; try discriminate.
  intros [= -> -> <-] k Hk.
  pose proof (dues_range_start _ _ _ _ Er) as Hstart. cbn [fst] in Hstart. subst s.
  destruct (dues_while_dates _ _ _ _ _ _ (range_start_valid m from Hs Hf) E k Hk)
    as [[]|[H1 H2]].
  split; [exact H1|]. split; [exact H2|].
  intros f ->. eapply date_leb_trans; [|exact H1].
  unfold range_start, date_max, date_leb.
  destruct (date_ltb (ms_start m) f) eqn:El; [|rewrite El; reflexivity].
  rewrite date_ltb_irrefl. reflexivity.
Qed.

(** What step 1 collects: every due lies in one of the windows, on or
    after the accounting start. *)
Lemma collect_dues_dates ms now_ from :
  (forall m, In m ms -> valid_date (ms_start m) = true) ->
  (forall f, from = Some f -> valid_date f = true) ->
  forall ranges dues ranges' dues',
    collect_dues ms now_ from ranges dues = Returns (ranges', dues') ->
    incl ranges ranges' /\
    forall k, In k dues' ->
              In k dues \/
              exists rng, In rng ranges' /\
                          date_leb (fst rng) (fst k) = true /\
                          date_leb (fst k) (snd rng) = true /\
                          (forall f, from = Some f -> date_leb f (fst k) = true).
Proof.
  intros Hms Hf. induction ms as [|m ms IH]; intros ranges dues ranges' dues';
    cbn [collect_dues].
  - intros [= <- <-]. split; [apply incl_refl|auto].
  - destruct (ms_amount m =? 0).
    { apply IH. intros x Hx. apply Hms. right. exact Hx. }
    destruct (get_dues m now_ from) as [[[s e] ds]| |] eqn:E; cbn [obind]; try discriminate.
    intros Hrun.
    destruct (IH (fun x Hx => Hms x (or_intror Hx)) _ _ _ _ Hrun) as [Hincl Hk].
    split.
    + intros r Hr. apply Hincl. apply in_app_iff. left. exact Hr.
    + intros k Hin. destruct (Hk k Hin) as [Hold|Hnew]; [|auto].
      destruct (union_In _ _ _ Hold) as [H1|H2]; [auto|].
      right. exists (s, e). split; [apply Hincl; apply in_app_iff; right; left; reflexivity|].
      cbn [fst snd].
      exact (get_dues_dates m now_ from s e ds (Hms m (or_introl eq_refl)) Hf E k H2).
Qed.

(** *** The two queries of [update_liabilites] *)

Lemma liabilities_qs_like tz self _from : liability_like self (liabilities_qs tz self _from).
Proof.
  intros r. unfold liabilities_qs, filter_, Booking_objects,
    transaction__reversed_by__isnull.
  destruct _from as [f|]; cbn [andb]; rewrite ?andb_true_iff; intros H;
    destruct (t_reversed_by (snd r)); intuition discriminate.
Qed.

Lemma found_q_base tz self _from ranges r :
  found_q tz self _from ranges r = true -> liabilities_qs tz self _from r = true.
Proof.
  unfold found_q, filter_. destruct ranges; [auto|]. rewrite andb_true_iff. tauto.
Qed.

Lemma stray_q_base tz self _from ranges r :
  stray_q tz self _from ranges r = true -> liabilities_qs tz self _from r = true.
Proof.
  unfold stray_q, exclude. destruct ranges; [auto|]. rewrite andb_true_iff. tauto.
Qed.

Lemma found_q_like tz self _from ranges : liability_like self (found_q tz self _from ranges).
Proof. intros r H. apply (liabilities_qs_like tz self _from). eapply found_q_base; eauto. Qed.

Lemma stray_q_like tz self _from ranges : liability_like self (stray_q tz self _from ranges).
Proof. intros r H. apply (liabilities_qs_like tz self _from). eapply stray_q_base; eauto. Qed.

Lemma reduce_or_spec qs r :
  reduce_or qs r = existsb (fun q => q r) qs.
Proof.
  unfold reduce_or. destruct qs as [|q qs]; [reflexivity|]. cbn [existsb].
  revert q. induction qs as [|q' qs IH]; intros q; cbn [fold_left existsb].
  - rewrite orb_false_r. reflexivity.
  - rewrite IH. rewrite orb_assoc. reflexivity.
Qed.

(** Within one transaction a row is in a window or not with all others. *)
Lemma reduce_or_same_transaction tz ranges (r r' : row) :
  snd r = snd r' ->
  reduce_or (map (range_q tz) ranges) r = reduce_or (map (range_q tz) ranges) r'.
Proof.
  intros H. rewrite !reduce_or_spec. induction ranges as [|rng ranges IH]; [reflexivity|].
  cbn [map existsb]. rewrite IH. f_equal.
  unfold range_q, transaction__value_datetime__gte, transaction__value_datetime__lte.
  rewrite H. reflexivity.
Qed.

Lemma found_not_stray tz self _from ranges (r r' : row) :
  ranges <> [] -> snd r = snd r' ->
  found_q tz self _from ranges r = true -> stray_q tz self _from ranges r' = true -> False.
Proof.
  intros Hne Hsame. unfold found_q, stray_q, filter_, exclude.
  destruct ranges as [|rng ranges]; [congruence|].
  rewrite !andb_true_iff, negb_true_iff.
  rewrite (reduce_or_same_transaction tz (rng :: ranges) r r' Hsame).
  intros [_ H1] [_ H2]. congruence.
Qed.

(** The row of a due that step 5 books is found by step 2 and is no stray. *)
Lemma due_row_found tz self _now _from ranges k pk t :
  at_or_west_of_UTC tz ->
  (exists rng, In rng ranges /\
               date_leb (fst rng) (fst k) = true /\ date_leb (fst k) (snd rng) = true /\
               (forall f, _from = Some f -> date_leb f (fst k) = true)) ->
  found_q tz self _from ranges (due_row tz self _now k pk t) = true /\
  stray_q tz self _from ranges (due_row tz self _now k pk t) = false.
Proof.
  intros Hwest (rng & Hin & H1 & H2 & Hf).
  assert (Hbase : liabilities_qs tz self _from (due_row tz self _now k pk t) = true).
  { unfold liabilities_qs, filter_, Booking_objects, member_is, credit_account_is,
      transaction__reversed_by__isnull, transaction__value_datetime__gte, due_row.
    destruct _from as [f|];
      cbn [fst snd b_member b_credit_account t_reversed_by t_value_datetime account_eqb];
      rewrite Z.eqb_refl; cbn [andb]; [|reflexivity].
    apply make_aware_leb; [exact Hwest|]. apply Hf. reflexivity. }
  assert (Hrange : reduce_or (map (range_q tz) ranges) (due_row tz self _now k pk t) = true).
  { rewrite reduce_or_spec. apply existsb_exists. exists (range_q tz rng).
    split; [apply in_map; exact Hin|].
    unfold range_q, transaction__value_datetime__gte, transaction__value_datetime__lte,
      due_row. cbn [snd t_value_datetime].
    rewrite !make_aware_leb by assumption. reflexivity. }
  unfold found_q, stray_q, filter_, exclude. destruct ranges as [|r0 ranges]; [destruct Hin|].
  rewrite Hbase, Hrange. auto.
Qed.

Lemma receivable_row_no_liability tz self P _now k pk t :
  liability_like self P -> P (receivable_row tz self _now k pk t) = false.
Proof.
  intros HP. apply not_true_iff_false. intros Hc. apply HP in Hc.
  destruct Hc as (_ & Hc & _). unfold credit_account_is, receivable_row in Hc.
  cbn in Hc. discriminate.
Qed.

Lemma due_row_key tz self _now k pk t :
  at_or_west_of_UTC tz -> due_key (due_row tz self _now k pk t) = k.
Proof.
  intros H. destruct k as [d a]. unfold due_key, due_row.
  cbn [fst snd t_value_datetime b_amount]. rewrite make_aware_date by exact H.
  reflexivity.
Qed.

Lemma same_transaction d r r' :
  In r (rows d) -> In r' (rows d) ->
  b_transaction (fst r) = b_transaction (fst r') -> snd r = snd r'.
Proof.
  destruct r as [b x], r' as [b' x']. rewrite !rows_In. cbn [fst snd].
  unfold transaction_of. intros [_ H1] [_ H2] E. rewrite E in H1. congruence.
Qed.

(** *** The dict of step 2 *)

Lemma due_eqb_refl k : due_eqb k k = true.
Proof. apply due_eqb_eq. reflexivity. Qed.

Lemma dict_get_set {V} k k' (v : V) d :
  dict_get k (dict_set k' v d) = if due_eqb k k' then Some v else dict_get k d.
Proof.
  induction d as [|[k'' v''] d IH]; cbn [dict_set dict_get]; [reflexivity|].
  destruct (due_eqb k' k'') eqn:E; cbn [dict_get].
  - apply due_eqb_eq in E. subst k''. destruct (due_eqb k k'); reflexivity.
  - rewrite IH. destruct (due_eqb k k'') eqn:E1; [|reflexivity].
    destruct (due_eqb k k') eqn:E2; [|reflexivity].
    apply due_eqb_eq in E1, E2. subst. rewrite due_eqb_refl in E. discriminate.
Qed.

Lemma add_In_iff x y s : In y (add x s) <-> y = x \/ In y s.
Proof.
  split; [apply add_In|]. unfold add. destruct (mem x s) eqn:E.
  - intros [->|H]; [apply mem_In; exact E|exact H].
  - rewrite in_app_iff. cbn [In]. intros [->|H]; auto.
Qed.

Lemma dict_fold_get (found : list row) :
  forall d k r,
    dict_get k (fold_left (fun d b => dict_set (due_key b) b d) found d) = Some r ->
    (In r found /\ due_key r = k) \/ dict_get k d = Some r.
Proof.
  induction found as [|b found IH]; intros d k r; cbn [fold_left]; [auto|].
  intros H. destruct (IH _ _ _ H) as [[Hin Hk]|Hd]; [left; split; [right|]; assumption|].
  rewrite dict_get_set in Hd. destruct (due_eqb k (due_key b)) eqn:E; [|auto].
  injection Hd as <-. apply due_eqb_eq in E. left. split; [left; reflexivity|auto].
Qed.

Lemma dict_fold_keys (found : list row) :
  forall d k,
    In k (keys (fold_left (fun d b => dict_set (due_key b) b d) found d)) <->
    In k (keys d) \/ exists r, In r found /\ due_key r = k.
Proof.
  induction found as [|b found IH]; intros d k; cbn [fold_left].
  - split; [auto|]. intros [H|(r & [] & _)]. exact H.
  - rewrite IH, dict_set_keys, add_In_iff. cbn [In]. split.
    + intros [[->|H]|(r & Hr & Hk)]; [right; exists b; auto|auto|right; exists r; auto].
    + intros [H|(r & [<-|Hr] & Hk)]; [auto|left; left; auto|right; exists r; auto].
Qed.

Lemma dict_of_get found k r :
  dict_get k (dict_of found) = Some r -> In r found /\ due_key r = k.
Proof.
  intros H. destruct (dict_fold_get found [] k r H) as [Hok|Hc]; [exact Hok|discriminate].
Qed.

Lemma dict_of_keys found k :
  In k (keys (dict_of found)) <-> exists r, In r found /\ due_key r = k.
Proof.
  unfold dict_of. rewrite dict_fold_keys. cbn [keys map In]. tauto.
Qed.

Lemma NoDup_map_inj {A B} (f : A -> B) l x y :
  NoDup (map f l) -> In x l -> In y l -> f x = f y -> x = y.
Proof.
  induction l as [|a l IH]; cbn [map In]; [tauto|].
  intros Hnd Hx Hy E. inversion Hnd as [|? ? Hnotin Hnd']; subst.
  destruct Hx as [->|Hx], Hy as [->|Hy]; auto.
  - exfalso. apply Hnotin. rewrite E. apply in_map. exact Hy.
  - exfalso. apply Hnotin. rewrite <- E. apply in_map. exact Hx.
Qed.

Lemma NoDup_map_filter {A B} (f : A -> B) (p : A -> bool) l :
  NoDup (map f l) -> NoDup (map f (filter p l)).
Proof.
  induction l as [|a l IH]; cbn [map filter]; [auto|].
  intros Hnd. inversion Hnd as [|? ? Hnotin Hnd']; subst.
  destruct (p a); [|auto]. cbn [map]. constructor; [|auto].
  intros Hc. apply Hnotin. apply in_map_iff in Hc. destruct Hc as (x & <- & Hx).
  apply in_map. apply filter_In in Hx. tauto.
Qed.

Lemma filter_of_filter {A} (p q : A -> bool) l :
  (forall x, p x = true -> q x = true) -> filter p l = filter p (filter q l).
Proof.
  intros H. induction l as [|a l IH]; cbn [filter]; [reflexivity|].
  destruct (p a) eqn:Ep.
  - rewrite (H a Ep). cbn [filter]. rewrite Ep, IH. reflexivity.
  - destruct (q a); cbn [filter]; rewrite ?Ep; exact IH.
Qed.

(** With one booking per key the dict gives every booking back. *)
Lemma dict_of_unique found r :
  NoDup (map due_key found) -> In r found ->
  dict_get (due_key r) (dict_of found) = Some r.
Proof.
  intros Hnd Hin.
  destruct (dict_get_keys (due_key r) (dict_of found)) as [v Hv].
  { apply dict_of_keys. exists r. auto. }
  rewrite Hv. f_equal. destruct (dict_of_get _ _ _ Hv) as [Hvin Hk].
  exact (NoDup_map_inj due_key found v r Hnd Hvin Hin Hk).
Qed.

Lemma dict_rows_In dues_in_db ks l :
  In l (dict_rows dues_in_db ks) <-> exists k, In k ks /\ dict_get k dues_in_db = Some l.
Proof.
  unfold dict_rows. rewrite in_flat_map. split.
  - intros (k & Hk & Hl). exists k. split; [exact Hk|].
    destruct (dict_get k dues_in_db); [destruct Hl as [->|[]]; reflexivity|destruct Hl].
  - intros (k & Hk & E). exists k. rewrite E. split; [exact Hk|left; reflexivity].
Qed.

Lemma cancel_wrong_as_rows (dues_in_db : list (due * row)) wrong w :
  (forall k, In k wrong -> In k (keys dues_in_db)) ->
  cancel_wrong dues_in_db wrong w
  = for_each (dict_rows dues_in_db (sorted wrong))
             (fun r : row => reverse (snd r) memo_changed ctx_changed) w.
Proof.
  intros Hkeys. unfold cancel_wrong.
  assert (Hs : forall k, In k (sorted wrong) -> In k (keys dues_in_db)).
  { intros k Hk. apply Hkeys. eapply Permutation_in; [apply sorted_perm|exact Hk]. }
  revert w Hs. generalize (sorted wrong) as ks.
  induction ks as [|k ks IH]; intros w Hs; [reflexivity|].
  cbn [for_each dict_rows flat_map].
  destruct (dict_get_keys k dues_in_db (Hs k (or_introl eq_refl))) as [b Hb].
  rewrite Hb. cbn [app for_each]. unfold bind.
  destruct (reverse (snd b) memo_changed ctx_changed w) as [[[]| |] w']; try reflexivity.
  apply IH. intros k' Hk'. apply Hs. right. exact Hk'.
Qed.

Lemma difference_nil s t : (forall x, In x s -> In x t) -> difference s t = [].
Proof.
  intros H. unfold difference. apply filter_nil_iff. intros x Hx.
  apply negb_false_iff. apply mem_In. auto.
Qed.

Lemma difference_In_iff x s t : In x (difference s t) <-> In x s /\ ~ In x t.
Proof.
  unfold difference. rewrite filter_In, negb_true_iff, <- not_true_iff_false, mem_In.
  tauto.
Qed.

(** Steps 1 to 3 on a database that answers. *)
Lemma compare_dues_calm tz self now_ w :
  fault_in w = None ->
  compare_dues tz self now_ w
  = let _from := accounting_start (configuration (db w)) in
    match collect_dues (memberships_of self (db w)) now_ _from [] [] with
    | Returns (ranges, dues) =>
        let dues_in_db := dict_of (filter (found_q tz self _from ranges) (rows (db w))) in
        (Returns (_from, ranges, dues_in_db,
                  difference (keys dues_in_db) dues,
                  difference dues (keys dues_in_db)), w)
    | Raises e => (Raises e, w)
    | Diverges => (Diverges, w)
    end.
Proof.
  intros Hcalm. unfold compare_dues, bind, all, lift.
  rewrite !query_calm by exact Hcalm. unfold memberships_of. cbv zeta.
  destruct (collect_dues _ _ _ _ _) as [[ranges dues]| |]; try reflexivity.
  rewrite query_calm by exact Hcalm. unfold ret, found_q, dict_of.
  destruct ranges; reflexivity.
Qed.

(** *** Running [update_liabilites] twice *)

(** C1: for member 7 with two transactions that each hold the same wrong
    due, and with the settings on UTC, the first run of [update_liabilites]
    reverses one of them and books the missing due; the second run, on the
    ledger the first one left, still finds that due wrong and issues another
    reversal. *)
Theorem update_liabilites_second_run_writes :
  fst (update_liabilites UTC 7 feb_15 before_first_run) = Returns tt /\
  issued after_first_run
    = [WReverse 2 memo_changed; WCreate 4 (midnight (mkdate 2023 1 1)) memo_due;
       WCredit 4 fees 3000 (Some 7); WDebit 4 fees_receivable 3000 (Some 7);
       WSave 4] /\
  wrong_and_missing UTC 7 feb_15 after_first_run
    = Returns ([(mkdate 2023 1 10, 2500)], []) /\
  issued after_second_run = issued after_first_run ++ [WReverse 1 memo_changed] /\
  db after_second_run <> db after_first_run.
Proof.
  split; [vm_compute; reflexivity|]. split; [vm_compute; reflexivity|].
  split; [vm_compute; reflexivity|]. split; [vm_compute; reflexivity|].
  intros H. apply (f_equal (fun d => List.length (transactions d))) in H.
  vm_compute in H. discriminate.
Qed.

(** The second run also writes with the settings on other zones: west of
    UTC it finds the same wrong due, east of UTC also the due that the
    first run booked. *)
Example update_liabilites_second_run_other_zones :
  wrong_and_missing EST 7 feb_15 (snd (update_liabilites EST 7 feb_15 before_first_run))
    = Returns ([(mkdate 2023 1 10, 2500)], []) /\
  wrong_and_missing CET 7 feb_15 (snd (update_liabilites CET 7 feb_15 before_first_run))
    = Returns ([(mkdate 2023 1 10, 2500); (mkdate 2022 12 31, 3000)],
               [(mkdate 2023 1 1, 3000)]).
Proof. split; vm_compute; reflexivity. Qed.

(** On the ledger that [update_liabilites] builds for a member from
    nothing with the settings on UTC, a second run finds nothing to do. *)
Example update_liabilites_second_run_idle :
  issued fresh_after_first_run
    = [WCreate 1 (midnight (mkdate 2023 1 1)) memo_due;
       WCredit 1 fees 3000 (Some 7); WDebit 1 fees_receivable 3000 (Some 7);
       WSave 1] /\
  wrong_and_missing UTC 7 feb_15 fresh_after_first_run = Returns ([], []) /\
  update_liabilites UTC 7 feb_15 fresh_after_first_run
    = (Returns tt, fresh_after_first_run).
Proof. repeat split; vm_compute; reflexivity. Qed.

(** *** A second run on a tidy ledger *)

Lemma of_any_In d L r :
  In r L -> In r (rows d) -> of_any L r = true.
Proof.
  intros HL Hr. unfold of_any. apply existsb_exists. exists r. split; [exact HL|].
  unfold of_transaction. apply Z.eqb_eq. symmetry. apply (rows_pk d). exact Hr.
Qed.

Lemma of_any_true L r :
  of_any L r = true -> exists l, In l L /\ b_transaction (fst r) = t_pk (snd l).
Proof.
  unfold of_any, of_transaction. rewrite existsb_exists.
  intros (l & Hl & E). apply Z.eqb_eq in E. eauto.
Qed.

(** What a run of [update_liabilites] on a tidy ledger leaves: nothing
    for a second run, and the schedule of step 1 as the active dues of the
    member. *)
Lemma update_liabilites_tidy_run tz self now_ w w1 :
  at_or_west_of_UTC tz ->
  fault_in w = None -> tidy tz self (db w) ->
  update_liabilites tz self now_ w = (Returns tt, w1) ->
  wrong_and_missing tz self now_ w1 = Returns ([], []) /\
  update_liabilites tz self now_ w1 = (Returns tt, w1) /\
  forall ranges dues,
    collect_dues (memberships_of self (db w)) now_
                 (accounting_start (configuration (db w))) [] []
    = Returns (ranges, dues) ->
    forall k, In k dues <->
              exists r, In r (rows (db w1)) /\
                        liabilities_qs tz self (accounting_start (configuration (db w))) r
                        = true /\
                        due_key r = k.
Proof.
  intros Hwest Hcalm (Hwf & Hfee & Hvalid & Hfvalid & Htx & Hkeys) Hrun.
  set (_from := accounting_start (configuration (db w))) in *.
  pose proof (compare_dues_calm tz self now_ w Hcalm) as Hcmp. cbv zeta in Hcmp.
  fold _from in Hcmp.
  destruct (collect_dues (memberships_of self (db w)) now_ _from [] [])
    as [[ranges dues]| |] eqn:Ecol.
  2,3: exfalso; unfold update_liabilites, atomic, update_liabilites_body, bind in Hrun;
       rewrite Hcmp in Hrun; discriminate.
  set (Pf := found_q tz self _from ranges) in *.
  set (Ps := stray_q tz self _from ranges).
  set (found0 := filter Pf (rows (db w))) in *.
  set (dict := dict_of found0) in *.
  set (wrong := difference (keys dict) dues) in *.
  set (missing := difference dues (keys dict)) in *.
  assert (HPf : liability_like self Pf) by apply found_q_like.
  assert (HPs : liability_like self Ps) by apply stray_q_like.
  (* what step 1 says about the dues *)
  destruct (collect_dues_dates _ now_ _from Hvalid Hfvalid _ _ _ _ Ecol) as [_ Hwindow].
  assert (Hdue : forall k, In k dues ->
            exists rng, In rng ranges /\
              date_leb (fst rng) (fst k) = true /\ date_leb (fst k) (snd rng) = true /\
              (forall f, _from = Some f -> date_leb f (fst k) = true)).
  { intros k Hk. destruct (Hwindow k Hk) as [[]|H]. exact H. }
  assert (Hfound0 : forall r, In r found0 ->
            In r (filter (liabilities_qs tz self _from) (rows (db w)))).
  { intros r Hr. apply filter_In in Hr. apply filter_In. split; [tauto|].
    eapply found_q_base. apply Hr. }
  assert (Hkeys0 : NoDup (map due_key found0)).
  { subst found0. rewrite (filter_of_filter Pf (liabilities_qs tz self _from))
      by (intros x Hx; eapply found_q_base; exact Hx).
    apply NoDup_map_filter. exact Hkeys. }
  (* step 4 *)
  set (L4 := dict_rows dict (sorted wrong)).
  assert (HL4 : forall l, In l L4 ->
            In l found0 /\ In (due_key l) wrong).
  { intros l Hl. apply dict_rows_In in Hl. destruct Hl as (k & Hk & Hget).
    destruct (dict_of_get _ _ _ Hget) as [Hin Hkey]. split; [exact Hin|].
    rewrite Hkey. eapply Permutation_in; [apply sorted_perm|exact Hk]. }
  destruct (reverse_all self (db w) memo_changed ctx_changed L4 Hfee) with (w := w)
    as (w4 & Hrun4 & Hcalm4 & Hext4 & F4); [|exact Hcalm|apply extends_refl; exact Hwf|].
  { intros l Hl. destruct (HL4 l Hl) as [Hin _]. apply filter_In in Hin.
    destruct Hin as [Hin HPl]. destruct (HPf l HPl) as (Hm & Hc & _). auto. }
  (* step 5 *)
  destruct (posting_all tz self now_ (db w) (sorted missing) w4 Hcalm4 Hext4)
    as (w5 & Hrun5 & Hcalm5 & Hext5 & Hnew5 & Hkeep5 & Hall5).
  assert (Hmissing : forall k, In k (sorted missing) -> In k dues).
  { intros k Hk. apply (difference_In k dues (keys dict)).
    eapply Permutation_in; [apply sorted_perm|exact Hk]. }
  (* step 6 *)
  set (L6 := filter Ps (rows (db w5))).
  assert (Hold5 : forall r P, liability_like self P -> In r (rows (db w5)) -> P r = true ->
            (In r (rows (db w)) /\ of_any L4 r = false /\ In r (rows (db w4)))
            \/ exists k pk t, In k (sorted missing) /\ r = due_row tz self now_ k pk t).
  { intros r P HP Hr HPr. destruct (Hnew5 r Hr) as [H4|(k & pk & t & Hk & _ & [->| ->])].
    - left. assert (Hin : In r (filter P (rows (db w4)))) by (apply filter_In; auto).
      rewrite (F4 P HP) in Hin. apply filter_In in Hin. destruct Hin as [Hin Hc].
      apply andb_true_iff in Hc. rewrite negb_true_iff in Hc. tauto.
    - right. eauto.
    - rewrite (receivable_row_no_liability tz self P) in HPr by exact HP. discriminate. }
  destruct (reverse_all self (db w) memo_stray ctx_stray L6 Hfee) with (w := w5)
    as (w6 & Hrun6 & Hcalm6 & Hext6 & F6); [|exact Hcalm5|exact Hext5|].
  { intros l Hl. apply filter_In in Hl. destruct Hl as [Hl HPl].
    destruct (Hold5 l Ps HPs Hl HPl) as [[Hin _]|(k & pk & t & Hk & ->)].
    - destruct (HPs l HPl) as (Hm & Hc & _). auto.
    - destruct (due_row_found tz self now_ _from ranges k pk t Hwest
                  (Hdue k (Hmissing k Hk))) as [_ Hc].
      fold Ps in Hc. congruence. }
  (* the first run ends in [w6] *)
  assert (Hbody : update_liabilites_body tz self now_ w = (Returns tt, w6)).
  { unfold update_liabilites_body. rewrite (bind_returns _ _ _ _ _ Hcmp). cbv beta iota.
    assert (H4 : cancel_wrong dict wrong w = (Returns tt, w4)).
    { rewrite cancel_wrong_as_rows; [exact Hrun4|]. intros k. apply difference_In. }
    rewrite (bind_returns _ _ _ _ _ H4).
    unfold add_missing at 1. rewrite (bind_returns _ _ _ _ _ Hrun5).
    unfold cancel_stray, all.
    rewrite (bind_returns _ _ _ _ _ (query_calm _ w5 Hcalm5)).
    destruct ranges; exact Hrun6. }
  assert (w1 = w6) as ->.
  { unfold update_liabilites in Hrun. rewrite (atomic_returns _ _ _ _ Hbody) in Hrun.
    congruence. }
  (* the second run *)
  destruct Hext6 as (Hwf6 & _ & _ & Hms6 & Hcfg6).
  pose proof (compare_dues_calm tz self now_ w6 Hcalm6) as Hcmp6. cbv zeta in Hcmp6.
  unfold memberships_of in Hcmp6. rewrite Hms6, Hcfg6 in Hcmp6.
  fold (memberships_of self (db w)) in Hcmp6. fold _from in Hcmp6.
  rewrite Ecol in Hcmp6. fold Pf in Hcmp6.
  set (found6 := filter Pf (rows (db w6))) in *.
  assert (Hfound6 : forall r, In r found6 <->
            In r (rows (db w5)) /\ Pf r = true /\ of_any L6 r = false).
  { intros r. subst found6. rewrite (F6 Pf HPf), filter_In, andb_true_iff, negb_true_iff.
    tauto. }
  assert (HA : forall k, In k (keys (dict_of found6)) -> In k dues).
  { intros k Hk. apply dict_of_keys in Hk. destruct Hk as (r & Hr & <-).
    apply Hfound6 in Hr. destruct Hr as (Hr5 & HPr & _).
    destruct (Hold5 r Pf HPf Hr5 HPr) as [(Hr0 & Hnot4 & _)|(k & pk & t & Hk & ->)].
    - destruct (mem (due_key r) dues) eqn:Em; [apply mem_In; exact Em|]. exfalso.
      assert (Hin0 : In r found0) by (apply filter_In; auto).
      assert (Hw : In (due_key r) wrong).
      { apply difference_In_iff. split.
        - apply dict_of_keys. eauto.
        - rewrite <- mem_In. congruence. }
      assert (In r L4) as HL.
      { apply dict_rows_In. exists (due_key r). split.
        - eapply Permutation_in; [symmetry; apply sorted_perm|exact Hw].
        - apply dict_of_unique; assumption. }
      rewrite (of_any_In (db w) L4 r HL Hr0) in Hnot4. discriminate.
    - rewrite due_row_key by exact Hwest. apply Hmissing. exact Hk. }
  assert (HB : forall k, In k dues -> In k (keys (dict_of found6))).
  { intros k Hk. apply dict_of_keys.
    destruct (Hdue k Hk) as (rng & Hrng & Hrest).
    assert (Hne : ranges <> []) by (intros ->; destruct Hrng).
    assert (Hstray : forall r, In r (rows (db w5)) -> Pf r = true -> of_any L6 r = false).
    { intros r Hr HPr. apply not_true_iff_false. intros Hc.
      apply of_any_true in Hc. destruct Hc as (s & Hs & E).
      apply filter_In in Hs. destruct Hs as [Hs HPs'].
      assert (Hsame : snd r = snd s).
      { apply (same_transaction (db w5)); [exact Hr|exact Hs|].
        rewrite E. apply (rows_pk (db w5)). exact Hs. }
      exact (found_not_stray tz self _from ranges r s Hne Hsame HPr HPs'). }
    destruct (mem k (keys dict)) eqn:Em.
    - apply mem_In in Em. apply dict_of_keys in Em. destruct Em as (r0 & Hr0 & Hk0).
      exists r0. split; [|exact Hk0]. apply Hfound6.
      pose proof Hr0 as Hr0'. apply filter_In in Hr0'. destruct Hr0' as [Hrow0 HP0].
      assert (Hnot4 : of_any L4 r0 = false).
      { apply not_true_iff_false. intros Hc. apply of_any_true in Hc.
        destruct Hc as (l & Hl & E). destruct (HL4 l Hl) as [Hlin Hlw].
        assert (r0 = l).
        { apply (NoDup_map_inj (fun r => b_transaction (fst r))
                   (filter (liabilities_qs tz self _from) (rows (db w)))); auto.
          cbv beta. rewrite E. apply (rows_pk (db w)).
          apply filter_In in Hlin. tauto. }
        subst l. rewrite Hk0 in Hlw. apply difference_In_iff in Hlw. tauto. }
      assert (Hr4 : In r0 (rows (db w4))).
      { assert (In r0 (filter Pf (rows (db w4)))) as Hin.
        { rewrite (F4 Pf HPf). apply filter_In. rewrite HP0, Hnot4. auto. }
        apply filter_In in Hin. tauto. }
      split; [apply Hkeep5; exact Hr4|]. split; [exact HP0|].
      apply Hstray; [apply Hkeep5; exact Hr4|exact HP0].
    - assert (Hm : In k (sorted missing)).
      { eapply Permutation_in; [symmetry; apply sorted_perm|].
        apply difference_In_iff. split; [exact Hk|]. rewrite <- mem_In. congruence. }
      destruct (Hall5 k Hm) as (pk & t & _ & Hrow).
      exists (due_row tz self now_ k pk t). split; [|apply due_row_key; exact Hwest].
      destruct (due_row_found tz self now_ _from ranges k pk t Hwest (Hdue k Hk))
        as [Hf _].
      apply Hfound6. split; [exact Hrow|]. split; [exact Hf|].
      apply Hstray; [exact Hrow|exact Hf]. }
  assert (HC : filter Ps (rows (db w6)) = []).
  { rewrite (F6 Ps HPs). apply filter_nil_iff. intros r Hr.
    destruct (Ps r) eqn:E; [|reflexivity]. cbn [andb]. apply negb_false_iff.
    apply (of_any_In (db w5)); [|exact Hr]. apply filter_In. auto. }
  assert (Hschedule : forall k, In k dues <->
            exists r, In r (rows (db w6)) /\ liabilities_qs tz self _from r = true /\
                      due_key r = k).
  { intros k. split.
    - intros Hk. apply HB, dict_of_keys in Hk. destruct Hk as (r & Hr & Hkey).
      exists r. apply filter_In in Hr. destruct Hr as [Hr HPr].
      split; [exact Hr|]. split; [|exact Hkey]. eapply found_q_base. exact HPr.
    - intros (r & Hr & Hq & <-). apply HA, dict_of_keys. exists r.
      split; [|reflexivity]. apply filter_In. split; [exact Hr|].
      destruct (Pf r) eqn:EPf; [reflexivity|]. exfalso.
      assert (In r (filter Ps (rows (db w6)))) as Hin; [|rewrite HC in Hin; destruct Hin].
      apply filter_In. split; [exact Hr|].
      unfold Pf, Ps, found_q, stray_q, filter_, exclude in *.
      destruct ranges; [congruence|]. rewrite Hq in *. cbn [andb] in *.
      rewrite EPf. reflexivity. }
  rewrite (difference_nil _ _ HA), (difference_nil _ _ HB) in Hcmp6.
  split; [|split].
  - unfold wrong_and_missing. rewrite Hcmp6. reflexivity.
  - apply atomic_returns. unfold update_liabilites_body.
    rewrite (bind_returns _ _ _ _ _ Hcmp6). cbv beta iota.
    unfold cancel_wrong, add_missing, cancel_stray, all. cbn [sorted fold_right for_each].
    unfold bind at 1. unfold ret at 1. unfold bind at 1. unfold ret at 1.
    rewrite (bind_returns _ _ _ _ _ (query_calm _ w6 Hcalm6)).
    fold _from in HC. unfold Ps, stray_q in HC.
    destruct ranges; rewrite HC; reflexivity.
  - intros ranges' dues' E'. injection E' as <- <-. exact Hschedule.
Qed.

(** The ledger of the first example after its first run is tidy: it holds
    a reversed due with its reversal, a wrong due still active and the
    due that the run booked. *)
Lemma after_first_run_tidy : tidy EST 7 (db after_first_run).
Proof.
  unfold tidy, well_formed, no_fee_debits.
  let d := eval vm_compute in (db after_first_run) in
  change (db after_first_run) with d.
  cbn [configuration accounting_start config_36 memberships].
  split; [split|].
  - cbn. repeat (constructor; [cbn; intuition discriminate|]). constructor.
  - cbn. intros b Hb. repeat (destruct Hb as [<-|Hb]; [cbn; tauto|]). destruct Hb.
  - split.
    + intros b b' Hb Hb' Ht Hm Hc Hm' Hd. cbn [bookings] in Hb, Hb'.
      repeat (destruct Hb as [<-|Hb]; [try discriminate Hc|]); [..|destruct Hb];
        repeat (destruct Hb' as [<-|Hb']; [try discriminate Hd; try discriminate Ht|]);
        destruct Hb'.
    + split; [intros m Hm; vm_compute in Hm; destruct Hm as [<-|[]]; reflexivity|].
      split; [discriminate|].
      split; vm_compute; repeat (constructor; [cbn; intuition discriminate|]);
        constructor.
Qed.

(** X1: with the settings on a zone at or west of UTC, on a ledger that is
    tidy for the member, the run of [update_liabilites] leaves nothing for
    a second run: it finds no wrong and no missing due and issues no
    statement. *)
Theorem update_liabilites_idempotent_when_tidy tz self now_ w w1 :
  at_or_west_of_UTC tz ->
  fault_in w = None -> tidy tz self (db w) ->
  update_liabilites tz self now_ w = (Returns tt, w1) ->
  wrong_and_missing tz self now_ w1 = Returns ([], []) /\
  update_liabilites tz self now_ w1 = (Returns tt, w1).
Proof.
  intros Hwest Hcalm Htidy Hrun.
  destruct (update_liabilites_tidy_run tz self now_ w w1 Hwest Hcalm Htidy Hrun)
    as (H1 & H2 & _).
  split; assumption.
Qed.

Lemma update_liabilites_idempotent_when_tidy_witness :
  wrong_and_missing EST 7 feb_15 after_run_EST = Returns ([], []) /\
  update_liabilites EST 7 feb_15 after_run_EST = (Returns tt, after_run_EST).
Proof.
  refine (update_liabilites_idempotent_when_tidy EST 7 feb_15 after_first_run
            after_run_EST _ eq_refl after_first_run_tidy _).
  - intros d. unfold EST, day_us. lia.
  - vm_compute. reflexivity.
Defined.

(** What the run of that example does on the ledger with its history: it
    reverses the wrong due that was left, books the due of January at the
    instant at which the first of January begins five hours west of UTC,
    and reverses as a stray the booking of that due at midnight UTC, which
    lies before the membership there. *)
Example update_liabilites_run_EST :
  issued after_run_EST
  = issued after_first_run
      ++ [WReverse 1 memo_changed;
          WCreate 6 (mkdatetime (mkdate 2023 1 1) 18000000000) memo_due;
          WCredit 6 fees 3000 (Some 7); WDebit 6 fees_receivable 3000 (Some 7);
          WSave 6;
          WReverse 4 memo_stray].
Proof. vm_compute. reflexivity. Qed.

(** East of UTC the run is not idempotent even on the ledger it builds
    from nothing: the due of the first of January is stored as the evening
    of 31 December and read back under that date, so the second run takes
    it for a wrong due, reverses it and books the due once more. *)
Example update_liabilites_second_run_east_of_UTC :
  issued fresh_after_first_run_CET
    = [WCreate 1 (mkdatetime (mkdate 2022 12 31) 82800000000) memo_due;
       WCredit 1 fees 3000 (Some 7); WDebit 1 fees_receivable 3000 (Some 7);
       WSave 1] /\
  wrong_and_missing CET 7 feb_15 fresh_after_first_run_CET
    = Returns ([(mkdate 2022 12 31, 3000)], [(mkdate 2023 1 1, 3000)]) /\
  issued fresh_after_second_run_CET
    = issued fresh_after_first_run_CET
        ++ [WReverse 1 memo_changed;
            WCreate 3 (mkdatetime (mkdate 2022 12 31) 82800000000) memo_due;
            WCredit 3 fees 3000 (Some 7); WDebit 3 fees_receivable 3000 (Some 7);
            WSave 3].
Proof. repeat split; vm_compute; reflexivity. Qed.

(** X2: with the settings on a zone at or west of UTC, after a run of
    [update_liabilites] on a ledger that is tidy for the member, the active
    dues booked for the member since the accounting start are the schedule
    of step 1: a (date, amount) pair is due by the memberships exactly when
    an active booking of the member credits the fees account with that
    amount on a transaction whose value date, read in UTC, is that date. *)
Theorem update_liabilites_books_the_schedule tz self now_ w w1 ranges dues k :
  at_or_west_of_UTC tz ->
  fault_in w = None -> tidy tz self (db w) ->
  update_liabilites tz self now_ w = (Returns tt, w1) ->
  collect_dues (memberships_of self (db w)) now_
               (accounting_start (configuration (db w))) [] []
  = Returns (ranges, dues) ->
  In k dues <->
  exists r, In r (rows (db w1)) /\
            liabilities_qs tz self (accounting_start (configuration (db w))) r = true /\
            due_key r = k.
Proof.
  intros Hwest Hcalm Htidy Hrun Hcol.
  destruct (update_liabilites_tidy_run tz self now_ w w1 Hwest Hcalm Htidy Hrun)
    as (_ & _ & H).
  exact (H ranges dues Hcol k).
Qed.

Lemma update_liabilites_books_the_schedule_witness :
  In (mkdate 2023 1 1, 3000) [(mkdate 2023 1 1, 3000)] <->
  exists r, In r (rows (db after_run_EST)) /\
            liabilities_qs EST 7 None r = true /\ due_key r = (mkdate 2023 1 1, 3000).
Proof.
  refine (update_liabilites_books_the_schedule EST 7 feb_15 after_first_run
            after_run_EST [(mkdate 2023 1 1, mkdate 2023 1 31)]
            [(mkdate 2023 1 1, 3000)] (mkdate 2023 1 1, 3000) _ eq_refl
            after_first_run_tidy _ _).
  - intros d. unfold EST, day_us. lia.
  - vm_compute. reflexivity.
  - vm_compute. reflexivity.
Defined.

Import Str Profile Properties Registration.

(** *** Words of a string *)

Lemma all_chars_app p s t :
  all_chars p (s ++ t) = all_chars p s && all_chars p t.
Proof.
  induction s as [|c s IH]; cbn [append all_chars]; [reflexivity|].
  rewrite IH, andb_assoc. reflexivity.
Qed.

Lemma append_nonempty s c : (s ++ String c EmptyString)%string <> EmptyString.
Proof. destruct s; discriminate. Qed.

Lemma split_loop_words s :
  forall word, all_chars nonblank word = true ->
  Forall (fun t => t <> EmptyString /\ all_chars nonblank t = true) (split_loop word s).
Proof.
  induction s as [|c s IH]; intros word Hw; cbn [split_loop].
  - destruct word; [constructor|]. constructor; [|constructor]. split; [discriminate|exact Hw].
  - destruct (isspace c) eqn:Ec.
    + destruct word as [|a word].
      * apply IH. reflexivity.
      * constructor; [split; [discriminate|exact Hw]|]. apply IH. reflexivity.
    + apply IH. rewrite all_chars_app, Hw. cbn [all_chars]. unfold nonblank.
      rewrite Ec. reflexivity.
Qed.

Lemma split_words s :
  Forall (fun t => t <> EmptyString /\ all_chars nonblank t = true) (split s).
Proof. apply split_loop_words. reflexivity. Qed.

Lemma split_loop_nil s :
  forall word, split_loop word s = [] <-> word = EmptyString /\ all_chars isspace s = true.
Proof.
  induction s as [|c s IH]; intros word; cbn [split_loop all_chars].
  - destruct word; split; try tauto; try discriminate. intros [H _]. discriminate.
  - destruct (isspace c) eqn:Ec; cbn [andb].
    + destruct word as [|a word].
      * rewrite IH. tauto.
      * split; [discriminate|]. intros [H _]. discriminate.
    + rewrite IH. split; [intros [H _]; exfalso; exact (append_nonempty _ _ H)|].
      intros [_ H]. discriminate.
Qed.

(** A string has no word exactly when it is empty or all whitespace. *)
Lemma split_nil s : split s = [] <-> all_chars isspace s = true.
Proof. unfold split. rewrite split_loop_nil. tauto. Qed.

Lemma first_In xs x : first_ xs = Ok x -> In x xs.
Proof. destruct xs; [discriminate|]. intros [= ->]. left. reflexivity. Qed.

Lemma last_In xs x : last_ xs = Ok x -> In x xs.
Proof.
  unfold last_. destruct (rev xs) as [|y ys] eqn:E; [discriminate|].
  intros [= ->]. apply in_rev. rewrite E. left. reflexivity.
Qed.

Lemma first_some xs : xs <> [] -> exists x, first_ xs = Ok x.
Proof. destruct xs; [congruence|]. intros _. eexists. reflexivity. Qed.

Lemma last_some xs : xs <> [] -> exists x, last_ xs = Ok x.
Proof.
  intros H. unfold last_. destruct (rev xs) as [|y ys] eqn:E; [|eexists; reflexivity].
  apply (f_equal (@rev string)) in E. rewrite rev_involutive in E. contradiction.
Qed.

(** *** Names *)

Lemma name_part_blank default name :
  all_chars isspace name = true -> name_part default (split name) = Raise IndexError.
Proof.
  intros H. apply split_nil in H. rewrite H. unfold name_part.
  destruct (String.eqb default "first"); reflexivity.
Qed.

Lemma name_part_word default name :
  all_chars isspace name = false ->
  exists part, name_part default (split name) = Ok part /\ In part (split name) /\
               part <> EmptyString /\ all_chars nonblank part = true.
Proof.
  intros H. assert (Hne : split name <> []).
  { intros Hc. apply split_nil in Hc. congruence. }
  assert (exists part, name_part default (split name) = Ok part /\ In part (split name))
    as (part & Hp & Hin).
  { unfold name_part. destruct (String.eqb default "first").
    - destruct (first_some _ Hne) as [x Hx]. exists x. split; [exact Hx|].
      apply first_In. exact Hx.
    - destruct (last_some _ Hne) as [x Hx]. exists x. split; [exact Hx|].
      apply last_In. exact Hx. }
  exists part. split; [exact Hp|]. split; [exact Hin|].
  pose proof (split_words name) as Hw. rewrite Forall_forall in Hw. exact (Hw part Hin).
Qed.

(** X3: for a member whose name is empty or all whitespace,
    [update_name_fields] raises IndexError as soon as it has a name field
    to fill (one of the two is empty, or [force] is set), and it leaves the
    object as it was and saves nothing. *)
Theorem update_name_fields_blank_name config force save self saved name :
  m_name self = Some name -> all_chars isspace name = true ->
  truthy (m_order_name self) && truthy (m_direct_address_name self) && negb force = false ->
  update_name_fields config force save (self, saved) = (Raise IndexError, (self, saved)).
Proof.
  intros Hname Hblank Hdue. unfold update_name_fields, update_order_name.
  destruct (negb (truthy (m_order_name self)) || force) eqn:E1.
  - rewrite Hname, name_part_blank by exact Hblank. reflexivity.
  - unfold update_direct_address_name.
    apply orb_false_iff in E1. destruct E1 as [E1 ->]. apply negb_false_iff in E1.
    rewrite E1 in Hdue. cbn [andb negb] in Hdue. rewrite andb_true_r in Hdue.
    rewrite Hdue. cbn [negb orb]. rewrite Hname, name_part_blank by exact Hblank.
    reflexivity.
Qed.

Lemma update_name_fields_blank_name_witness :
  update_name_fields nobody_config false true (nobody, []) = (Raise IndexError, (nobody, [])).
Proof.
  exact (update_name_fields_blank_name nobody_config false true nobody [] "  "
           eq_refl eq_refl eq_refl).
Defined.

(** X4: for a member whose name has a word, a forced [update_name_fields]
    sets the order name and the direct address name to the first or the
    last word of the name, as the configuration says; each is a word
    without whitespace; with [save] the object is saved twice; and a later
    call without [force] changes and saves nothing. *)
Theorem update_name_fields_picks_words config save self saved name :
  m_name self = Some name -> all_chars isspace name = false ->
  exists o a,
    name_part (default_order_name config) (split name) = Ok o /\
    name_part (default_direct_address_name config) (split name) = Ok a /\
    update_name_fields config true save (self, saved)
    = (Ok tt, (set_direct_address_name (set_order_name self o) a,
               saved ++ (if save
                         then [set_order_name self o;
                               set_direct_address_name (set_order_name self o) a]
                         else []))) /\
    (o <> EmptyString /\ all_chars nonblank o = true) /\
    (a <> EmptyString /\ all_chars nonblank a = true) /\
    forall saved',
      update_name_fields config false save
        (set_direct_address_name (set_order_name self o) a, saved')
      = (Ok tt, (set_direct_address_name (set_order_name self o) a, saved')).
Proof.
  intros Hname Hword.
  destruct (name_part_word (default_order_name config) name Hword)
    as (o & Ho & _ & Ho1 & Ho2).
  destruct (name_part_word (default_direct_address_name config) name Hword)
    as (a & Ha & _ & Ha1 & Ha2).
  exists o, a. split; [exact Ho|]. split; [exact Ha|]. split; [|split; [|split]]; auto.
  - unfold update_name_fields, update_order_name. rewrite orb_true_r, Hname, Ho.
    unfold update_direct_address_name. rewrite orb_true_r. cbn [m_name set_order_name].
    rewrite Hname, Ha. unfold save_if. destruct save.
    + rewrite <- app_assoc. reflexivity.
    + rewrite app_nil_r. reflexivity.
  - intros saved'. unfold update_name_fields, update_order_name, update_direct_address_name.
    cbn [m_order_name m_direct_address_name set_direct_address_name set_order_name].
    destruct o as [|c o]; [congruence|]. destruct a as [|c' a]; [congruence|].
    reflexivity.
Qed.

Lemma update_name_fields_picks_words_witness :
  exists o a,
    name_part (default_order_name nobody_config) (split "Ada  Lovelace") = Ok o /\
    name_part (default_direct_address_name nobody_config) (split "Ada  Lovelace") = Ok a /\
    update_name_fields nobody_config true true (ada, [])
    = (Ok tt, (set_direct_address_name (set_order_name ada o) a,
               [] ++ [set_order_name ada o;
                      set_direct_address_name (set_order_name ada o) a])) /\
    (o <> EmptyString /\ all_chars nonblank o = true) /\
    (a <> EmptyString /\ all_chars nonblank a = true) /\
    forall saved',
      update_name_fields nobody_config false true
        (set_direct_address_name (set_order_name ada o) a, saved')
      = (Ok tt, (set_direct_address_name (set_order_name ada o) a, saved')).
Proof.
  exact (update_name_fields_picks_words nobody_config true ada [] "Ada  Lovelace"
           eq_refl eq_refl).
Defined.

(** *** Member numbers *)

Lemma int_loop_decimal s :
  all_chars isdecimal s = true ->
  forall acc, 0 <= acc -> exists v, int_loop acc s = Ok v /\ acc <= v.
Proof.
  induction s as [|c s IH]; intros Hs acc Hacc; cbn [int_loop].
  - exists acc. split; [reflexivity|lia].
  - cbn [all_chars] in Hs. apply andb_true_iff in Hs. destruct Hs as [Hc Hs].
    rewrite Hc.
    assert (0 <= digit_value c).
    { unfold digit_value. unfold isdecimal in Hc. apply andb_true_iff in Hc.
      destruct Hc as [Hc _]. apply N.leb_le in Hc. lia. }
    destruct (IH Hs (10 * acc + digit_value c)) as (v & Hv & Hle); [lia|].
    exists v. split; [exact Hv|lia].
Qed.

Lemma int_loop_not_decimal s :
  all_chars isdecimal s = false -> forall acc, int_loop acc s = Raise (Of ValueError).
Proof.
  induction s as [|c s IH]; intros Hs acc; cbn [int_loop all_chars] in *; [discriminate|].
  destruct (isdecimal c); [|reflexivity]. apply IH. exact Hs.
Qed.

Lemma int_decimal s :
  isdigit s = true -> all_chars isdecimal s = true -> exists v, int_ s = Ok v /\ 0 <= v.
Proof.
  intros Hd Hs. destruct s as [|c s]; [discriminate|]. unfold int_.
  apply int_loop_decimal; [exact Hs|lia].
Qed.

Lemma int_not_decimal s : all_chars isdecimal s = false -> int_ s = Raise (Of ValueError).
Proof.
  intros Hs. destruct s as [|c s]; [reflexivity|]. unfold int_.
  apply int_loop_not_decimal. exact Hs.
Qed.

Lemma numeric_In all_numbers n :
  In n (numeric all_numbers) <-> In (Some n) all_numbers /\ isdigit n = true.
Proof.
  unfold numeric. rewrite in_flat_map. split.
  - intros ([s|] & Hin & Hn); [|destruct Hn].
    destruct (isdigit s) eqn:E; [|destruct Hn]. destruct Hn as [<-|[]]. auto.
  - intros [Hin Hd]. exists (Some n). split; [exact Hin|]. rewrite Hd. left. reflexivity.
Qed.

Lemma ints_decimal ns :
  (forall n, In n ns -> isdigit n = true /\ all_chars isdecimal n = true) ->
  exists xs, ints ns = Ok xs /\ List.length xs = List.length ns /\
             forall n, In n ns -> exists v, int_ n = Ok v /\ In v xs.
Proof.
  induction ns as [|n ns IH]; intros H; cbn [ints].
  - exists []. split; [reflexivity|]. split; [reflexivity|]. intros n [].
  - destruct (H n (or_introl eq_refl)) as [Hd Hs].
    destruct (int_decimal n Hd Hs) as (v & Hv & _).
    destruct IH as (xs & Hxs & Hlen & Hall); [intros x Hx; apply H; right; exact Hx|].
    rewrite Hv, Hxs. cbn [rbind]. exists (v :: xs). split; [reflexivity|].
    split; [cbn [List.length]; lia|].
    intros x [<-|Hx].
    + exists v. split; [exact Hv|left; reflexivity].
    + destruct (Hall x Hx) as (y & Hy & Hin). exists y. split; [exact Hy|right; exact Hin].
Qed.

Lemma ints_not_decimal ns n :
  In n ns -> all_chars isdecimal n = false -> exists e, ints ns = Raise e.
Proof.
  induction ns as [|x ns IH]; intros Hin Hn; [destruct Hin|]. cbn [ints].
  destruct (int_ x) as [v|e] eqn:Ex; cbn [rbind]; [|eauto].
  destruct Hin as [->|Hin]; [rewrite int_not_decimal in Ex by exact Hn; discriminate|].
  destruct (IH Hin Hn) as [e ->]. cbn [rbind]. eauto.
Qed.

Lemma fold_max_le xs : forall x, x <= fold_left Z.max xs x.
Proof.
  induction xs as [|y xs IH]; intros x; cbn [fold_left]; [lia|].
  specialize (IH (Z.max x y)). lia.
Qed.

Lemma fold_max_above xs : forall x v, In v xs -> v <= fold_left Z.max xs x.
Proof.
  induction xs as [|y xs IH]; intros x v Hin; [destruct Hin|]. cbn [fold_left].
  destruct Hin as [->|Hin]; [|apply IH; exact Hin].
  pose proof (fold_max_le xs (Z.max x v)). lia.
Qed.

Lemma max_above xs m v : max_ xs = Ok m -> In v xs -> v <= m.
Proof.
  destruct xs as [|x xs]; [discriminate|]. intros [= <-] [->|Hin].
  - apply fold_max_le.
  - apply fold_max_above. exact Hin.
Qed.

(** X5: when every member number that [isdigit] accepts is written with
    the digits 0 to 9, [get_next_member_number] returns a number that is at
    least 1 and larger than each of those numbers. *)
Theorem get_next_member_number_above all_objects :
  (forall m n, In m all_objects -> m_number m = Some n -> isdigit n = true ->
               all_chars isdecimal n = true) ->
  1 <= get_next_member_number all_objects /\
  forall m n, In m all_objects -> m_number m = Some n -> isdigit n = true ->
              exists v, int_ n = Ok v /\ v < get_next_member_number all_objects.
Proof.
  intros Hdec. unfold get_next_member_number.
  destruct (ints_decimal (numeric (map m_number all_objects))) as (xs & Hxs & Hlen & Hall).
  { intros n Hn. apply numeric_In in Hn. destruct Hn as [Hin Hd]. split; [exact Hd|].
    apply in_map_iff in Hin. destruct Hin as (m & Hm & Hin). eapply Hdec; eauto. }
  rewrite Hxs. cbn [rbind].
  destruct xs as [|x xs].
  - cbn [max_ rbind]. split; [lia|]. intros m n Hm Hn Hd. exfalso.
    assert (Hin : In n (numeric (map m_number all_objects))).
    { apply numeric_In. split; [|exact Hd]. rewrite <- Hn. apply in_map. exact Hm. }
    destruct (numeric (map m_number all_objects)); [destruct Hin|discriminate].
  - destruct (max_ (x :: xs)) as [mx|] eqn:Emax; [|discriminate]. cbn [rbind].
    assert (Hpos : forall v, In v (x :: xs) -> 0 <= v).
    { clear - Hxs Hdec. intros v Hv.
      assert (forall ns ys, ints ns = Ok ys ->
                (forall n, In n ns -> isdigit n = true /\ all_chars isdecimal n = true) ->
                forall y, In y ys -> 0 <= y) as Hgen.
      { induction ns as [|n ns IH]; cbn [ints]; intros ys Hy Hn y Hin.
        - injection Hy as <-. destruct Hin.
        - destruct (Hn n (or_introl eq_refl)) as [Hd Hs].
          destruct (int_decimal n Hd Hs) as (v0 & Hv0 & Hge). rewrite Hv0 in Hy.
          cbn [rbind] in Hy. destruct (ints ns) as [zs|] eqn:Ez; [|discriminate].
          cbn [rbind] in Hy. injection Hy as <-. destruct Hin as [<-|Hin]; [exact Hge|].
          eapply IH; [reflexivity| |exact Hin]. intros n' Hn'. apply Hn. right. exact Hn'. }
      eapply Hgen; [exact Hxs| |exact Hv].
      intros n Hn. apply numeric_In in Hn. destruct Hn as [Hin Hd]. split; [exact Hd|].
      apply in_map_iff in Hin. destruct Hin as (m & Hm & Hin). eapply Hdec; eauto. }
    split.
    + pose proof (max_above _ _ x Emax (or_introl eq_refl)).
      pose proof (Hpos x (or_introl eq_refl)). lia.
    + intros m n Hm Hn Hd.
      destruct (Hall n) as (v & Hv & Hin).
      { apply numeric_In. split; [|exact Hd]. rewrite <- Hn. apply in_map. exact Hm. }
      exists v. split; [exact Hv|]. pose proof (max_above _ _ v Emax Hin). lia.
Qed.

Lemma get_next_member_number_above_witness :
  1 <= get_next_member_number [nobody; ada] /\
  forall m n, In m [nobody; ada] -> m_number m = Some n -> isdigit n = true ->
              exists v, int_ n = Ok v /\ v < get_next_member_number [nobody; ada].
Proof.
  apply (get_next_member_number_above [nobody; ada]).
  intros m n [<-|[<-|[]]]; cbn [m_number nobody ada]; [discriminate|].
  intros [= <-] _. reflexivity.
Defined.

Lemma some_superscript_not_decimal n :
  some_char superscript n = true -> all_chars isdecimal n = false.
Proof.
  induction n as [|c n IH]; cbn [some_char all_chars]; [discriminate|].
  intros H. apply orb_true_iff in H. destruct H as [H|H].
  - assert (isdecimal c = false) as ->; [|reflexivity].
    unfold superscript, isdecimal in *. rewrite !orb_true_iff, !N.eqb_eq in H.
    apply andb_false_iff. rewrite N.leb_gt, N.leb_gt. lia.
  - rewrite (IH H). apply andb_false_r.
Qed.

(** X6: among the member numbers of characters below code point 256,
    which are the strings of this development, when one that passes
    [isdigit] holds a superscript one, two or three, [int] fails on it, the
    failure is swallowed, and [get_next_member_number] returns 1 whatever
    the other numbers are.  This says nothing of numbers written with the
    decimal digits of other scripts, which lie above code point 255:
    [int] reads those. *)
Theorem get_next_member_number_superscript all_objects m n :
  In m all_objects -> m_number m = Some n -> isdigit n = true ->
  some_char superscript n = true ->
  get_next_member_number all_objects = 1.
Proof.
  intros Hm Hn Hd Hs. apply some_superscript_not_decimal in Hs.
  unfold get_next_member_number.
  destruct (ints_not_decimal (numeric (map m_number all_objects)) n) as [e ->];
    [|exact Hs|reflexivity].
  apply numeric_In. split; [|exact Hd]. rewrite <- Hn. apply in_map. exact Hm.
Qed.

Lemma get_next_member_number_superscript_witness :
  get_next_member_number [ada; squared] = 1.
Proof.
  exact (get_next_member_number_superscript [ada; squared] squared superscript_two
           (or_intror (or_introl eq_refl)) eq_refl eq_refl eq_refl).
Defined.

(** *** Active memberships *)

Lemma is_active_loop_existsb today ms :
  is_active_loop today ms = existsb (running today) ms.
Proof.
  induction ms as [|m ms IH]; cbn [is_active_loop existsb]; [reflexivity|].
  destruct (running today m); [reflexivity|exact IH].
Qed.

Lemma is_active_existsb self now_ d :
  is_active self now_ d = existsb (running (dt_date now_)) (memberships_ self d).
Proof.
  unfold is_active. rewrite is_active_loop_existsb.
  destruct (memberships_ self d); reflexivity.
Qed.

Lemma insert_desc_In m x l : In m (insert_desc x l) <-> m = x \/ In m l.
Proof.
  induction l as [|y l IH]; cbn [insert_desc In].
  - intuition congruence.
  - destruct (m_pk y <=? m_pk x); cbn [In]; [intuition congruence|].
    rewrite IH. intuition congruence.
Qed.

Lemma order_by_id_desc_In m l : In m (order_by_id_desc l) <-> In m l.
Proof.
  induction l as [|x l IH]; cbn [order_by_id_desc fold_right In]; [tauto|].
  fold (order_by_id_desc l). rewrite insert_desc_In, IH. intuition congruence.
Qed.

Lemma insert_desc_sorted x l :
  StronglySorted (fun a b => m_pk b <= m_pk a) l ->
  StronglySorted (fun a b => m_pk b <= m_pk a) (insert_desc x l).
Proof.
  induction l as [|y l IH]; intros Hs; cbn [insert_desc].
  - constructor; constructor.
  - inversion Hs as [|? ? Hl Hy]; subst.
    destruct (m_pk y <=? m_pk x) eqn:E.
    + apply Z.leb_le in E. constructor; [exact Hs|]. constructor; [exact E|].
      rewrite Forall_forall in *. intros z Hz. specialize (Hy z Hz). lia.
    + apply Z.leb_gt in E. constructor; [apply IH; exact Hl|].
      rewrite Forall_forall in *. intros z Hz. apply insert_desc_In in Hz.
      destruct Hz as [->|Hz]; [lia|auto].
Qed.

Lemma order_by_id_desc_sorted l :
  StronglySorted (fun a b => m_pk b <= m_pk a) (order_by_id_desc l).
Proof.
  induction l as [|x l IH]; cbn [order_by_id_desc fold_right]; [constructor|].
  apply insert_desc_sorted. exact IH.
Qed.

Lemma distinct_incl m l : In m (distinct l) -> In m l.
Proof.
  revert m. induction l as [|x l IH]; intros m; cbn [distinct In]; [tauto|].
  intros [->|H]; [left; reflexivity|]. apply filter_In in H. right. apply IH. tauto.
Qed.

Lemma distinct_In l :
  (forall a b, In a l -> In b l -> m_pk a = m_pk b -> a = b) ->
  forall m, In m (distinct l) <-> In m l.
Proof.
  induction l as [|x l IH]; intros Hkey m; cbn [distinct In]; [tauto|].
  rewrite filter_In, IH by (intros a b Ha Hb; apply Hkey; right; assumption).
  rewrite negb_true_iff, Z.eqb_neq. split; [tauto|].
  intros [->|Hin]; [left; reflexivity|].
  destruct (Z.eq_dec (m_pk m) (m_pk x)) as [E|E]; [|right; tauto].
  left. symmetry. apply (Hkey m x); [right; exact Hin|left; reflexivity|exact E].
Qed.

Lemma filter_sorted {A} (R : A -> A -> Prop) (f : A -> bool) l :
  StronglySorted R l -> StronglySorted R (filter f l).
Proof.
  induction 1 as [|x l Hl IH Hx]; cbn [filter]; [constructor|].
  destruct (f x); [|exact IH]. constructor; [exact IH|].
  rewrite Forall_forall in *. intros y Hy. apply filter_In in Hy. apply Hx. tauto.
Qed.

Lemma distinct_strict l :
  StronglySorted (fun a b => m_pk b <= m_pk a) l ->
  StronglySorted (fun a b => m_pk b < m_pk a) (distinct l).
Proof.
  induction 1 as [|x l Hl IH Hx]; cbn [distinct]; [constructor|].
  constructor; [apply filter_sorted; exact IH|].
  rewrite Forall_forall in *. intros y Hy. apply filter_In in Hy. destruct Hy as [Hy Hne].
  apply negb_true_iff, Z.eqb_neq in Hne. apply distinct_incl in Hy.
  specialize (Hx y Hy). lia.
Qed.

(** X7: on a member table with unique primary keys,
    [Member.objects.with_active_membership()] lists exactly the members of
    type "member" for which [is_active] is True, each of them once, by
    descending id. *)
Theorem with_active_membership_is_active now_ members d m :
  NoDup (map m_pk members) ->
  (In m (MemberManager_with_active_membership now_ members d) <->
   In m members /\ m_membership_type m = MEMBER /\ is_active (m_pk m) now_ d = true) /\
  StronglySorted (fun a b => m_pk b < m_pk a)
                 (MemberManager_with_active_membership now_ members d).
Proof.
  intros Hnd. split; [|apply distinct_strict, order_by_id_desc_sorted].
  unfold MemberManager_with_active_membership, with_active_membership.
  set (hits := filter _ _).
  assert (Hhits : forall x, In x (map fst hits) <->
            In x members /\ m_membership_type x = MEMBER /\
            is_active (m_pk x) now_ d = true).
  { intros x. rewrite is_active_existsb, existsb_exists, in_map_iff. subst hits. split.
    - intros ([x' ms] & <- & Hin). apply filter_In in Hin. destruct Hin as [Hin Hrun].
      apply in_flat_map in Hin. destruct Hin as (y & Hy & Hin).
      apply in_map_iff in Hin. destruct Hin as (ms' & [= <- <-] & Hms).
      apply filter_In in Hy. destruct Hy as [Hy Hty]. cbn [fst snd] in *.
      split; [exact Hy|]. split; [apply String.eqb_eq; exact Hty|]. eauto.
    - intros (Hx & Hty & ms & Hms & Hrun). exists (x, ms). split; [reflexivity|].
      apply filter_In. split; [|exact Hrun]. apply in_flat_map. exists x. split.
      + apply filter_In. split; [exact Hx|]. apply String.eqb_eq. exact Hty.
      + apply in_map. exact Hms. }
  rewrite distinct_In, order_by_id_desc_In; [apply Hhits|].
  intros a b Ha Hb. apply order_by_id_desc_In, Hhits in Ha.
  apply order_by_id_desc_In, Hhits in Hb. apply (NoDup_map_inj m_pk members); tauto.
Qed.

Lemma with_active_membership_is_active_witness :
  (In ada (MemberManager_with_active_membership feb_15 [nobody; ada; squared] club_2023)
   <-> In ada [nobody; ada; squared] /\ m_membership_type ada = MEMBER /\
       is_active (m_pk ada) feb_15 club_2023 = true) /\
  StronglySorted (fun a b => m_pk b < m_pk a)
                 (MemberManager_with_active_membership feb_15 [nobody; ada; squared]
                    club_2023).
Proof.
  apply (with_active_membership_is_active feb_15 [nobody; ada; squared] club_2023 ada).
  repeat constructor; cbn; intuition discriminate.
Defined.

(** *** Searching members *)

Lemma lstrip_blank s : all_chars isspace s = true -> lstrip s = EmptyString.
Proof.
  induction s as [|c s IH]; cbn [all_chars lstrip]; [reflexivity|].
  intros H. apply andb_true_iff in H. destruct H as [-> H]. auto.
Qed.

Lemma strip_blank s : all_chars isspace s = true -> strip s = EmptyString.
Proof. intros H. unfold strip. rewrite lstrip_blank by exact H. reflexivity. Qed.

Lemma satisfies_or icontains a b m nick :
  a <> Q_ ->
  satisfies icontains (or_ a b) m nick
  = satisfies icontains a m nick
    || match b with Q_ => false | _ => satisfies icontains b m nick end.
Proof.
  intros Ha. destruct a, b; try congruence; cbn [or_ satisfies];
    rewrite ?orb_false_r; reflexivity.
Qed.

Lemma or_not_empty a b : b <> Q_ -> or_ a b <> Q_.
Proof. destruct a, b; cbn [or_]; congruence. Qed.

Lemma search_loop_satisfies icontains search m nick parts :
  forall query, query <> Q_ ->
    satisfies icontains (search_loop search parts query) m nick
    = satisfies icontains query m nick
      || existsb (fun part =>
                    satisfies icontains (name__icontains part) m nick
                    || satisfies icontains (profile_profile__nick__icontains part) m nick
                    || satisfies icontains (number search) m nick) parts.
Proof.
  induction parts as [|part parts IH]; intros query Hq; cbn [search_loop existsb].
  - rewrite orb_false_r. reflexivity.
  - rewrite IH by (apply or_not_empty; discriminate).
    rewrite !satisfies_or by (try apply or_not_empty; try exact Hq; discriminate).
    rewrite !orb_assoc. reflexivity.
Qed.

(** X8: a search that is empty or all whitespace gives the empty [Q()],
    which every member satisfies.  Any other search is satisfied by the
    members for which one of its words is found in the name or in the nick
    of the profile, and by the members whose number is the search string as
    it was typed, blanks included; words are alternatives, so a member
    found for one word is found for every search that has this word. *)
Theorem get_query_for_search_finds icontains search m nick :
  (all_chars isspace search = true ->
   get_query_for_search search = Q_ /\
   satisfies icontains (get_query_for_search search) m nick = true) /\
  (split (strip search) <> [] ->
   satisfies icontains (get_query_for_search search) m nick
   = existsb (fun part =>
                satisfies icontains (name__icontains part) m nick
                || satisfies icontains (profile_profile__nick__icontains part) m nick)
             (split (strip search))
     || satisfies icontains (number search) m nick).
Proof.
  unfold get_query_for_search. split.
  - intros Hblank. rewrite strip_blank by exact Hblank. split; reflexivity.
  - destruct (split (strip search)) as [|part parts]; [congruence|]. intros _.
    cbn [search_loop]. rewrite search_loop_satisfies by (apply or_not_empty; discriminate).
    cbn [or_ satisfies existsb].
    induction parts as [|p parts IH]; cbn [existsb].
    + rewrite !orb_false_r. reflexivity.
    + destruct (match m_name m with Some s => icontains s part | None => false end),
               (match nick with Some s => icontains s part | None => false end),
               (match m_number m with Some s => String.eqb s search | None => false end),
               (match m_name m with Some s => icontains s p | None => false end),
               (match nick with Some s => icontains s p | None => false end);
        cbn [orb] in *; rewrite ?orb_true_r; try reflexivity; exact IH.
Qed.

Lemma get_query_for_search_finds_witness :
  (get_query_for_search "  " = Q_ /\
   satisfies contains (get_query_for_search "  ") ada None = true) /\
  satisfies contains (get_query_for_search " Love  41 ") ada None
  = existsb (fun part =>
               satisfies contains (name__icontains part) ada None
               || satisfies contains (profile_profile__nick__icontains part) ada None)
            (split (strip " Love  41 "))
    || satisfies contains (number " Love  41 ") ada None.
Proof.
  split.
  - refine (proj1 (get_query_for_search_finds contains "  " ada None) _). reflexivity.
  - refine (proj2 (get_query_for_search_finds contains " Love  41 " ada None) _).
    discriminate.
Defined.

(** The search of that example has the words Love and 41.  It finds Ada
    Lovelace by the first word, although her number 41 is not the search
    string; the number alone finds her, and a search with her number next
    to a word that is not in her name does not. *)
Example get_query_for_search_words :
  split (strip " Love  41 ") = ["Love"; "41"]%string /\
  satisfies contains (get_query_for_search " Love  41 ") ada None = true /\
  satisfies contains (number " Love  41 ") ada None = false /\
  satisfies contains (get_query_for_search "41") ada None = true /\
  satisfies contains (get_query_for_search "Noether 41") ada None = false.
Proof. repeat split; vm_compute; reflexivity. Qed.

(** *** The last fee transaction *)

Lemma datetime_leb_refl a : datetime_leb a a = true.
Proof. apply datetime_leb_spec. lia. Qed.

Lemma datetime_max_spec a b :
  (MemberLedger.datetime_max a b = a \/ MemberLedger.datetime_max a b = b) /\
  datetime_leb a (MemberLedger.datetime_max a b) = true /\
  datetime_leb b (MemberLedger.datetime_max a b) = true.
Proof.
  unfold MemberLedger.datetime_max. destruct (datetime_ltb a b) eqn:E.
  - split; [right; reflexivity|]. split; [|apply datetime_leb_refl].
    apply datetime_leb_spec. unfold datetime_ltb, date_eqb in E.
    rewrite orb_true_iff, !andb_true_iff, date_ltb_spec, !Z.eqb_eq, Z.ltb_lt in E. lia.
  - split; [left; reflexivity|]. split; [apply datetime_leb_refl|].
    unfold datetime_leb. rewrite E. reflexivity.
Qed.

Lemma fold_datetime_max (rs : list row) :
  forall t0,
    let t := fold_left (fun acc x => MemberLedger.datetime_max acc (t_value_datetime (snd x)))
                       rs t0 in
    (t = t0 \/ exists r, In r rs /\ t_value_datetime (snd r) = t) /\
    datetime_leb t0 t = true /\
    forall r, In r rs -> datetime_leb (t_value_datetime (snd r)) t = true.
Proof.
  induction rs as [|x rs IH]; intros t0; cbn [fold_left].
  - split; [left; reflexivity|]. split; [apply datetime_leb_refl|]. intros r [].
  - destruct (IH (MemberLedger.datetime_max t0 (t_value_datetime (snd x))))
      as (Hin & Hge & Hall).
    destruct (datetime_max_spec t0 (t_value_datetime (snd x))) as (Hcase & H1 & H2).
    split; [|split].
    + destruct Hin as [Hin|(r & Hr & E)].
      * rewrite Hin. destruct Hcase as [->| ->]; [left; reflexivity|].
        right. exists x. split; [left; reflexivity|reflexivity].
      * right. exists r. split; [right; exact Hr|exact E].
    + eapply datetime_leb_trans; eassumption.
    + intros r [<-|Hr]; [eapply datetime_leb_trans; eassumption|apply Hall; exact Hr].
Qed.

(** X9: on a database that answers,
    [_calc_last_membership_fee_transaction_timestamp] gives None exactly
    when the member has no fees-receivable booking dated up to now;
    otherwise it gives the value date of one of these bookings, no other of
    them is later, and the date is not after now. *)
Theorem last_membership_fee_transaction_timestamp_is_latest self now_ w :
  fault_in w = None ->
  exists last,
    MemberLedger._calc_last_membership_fee_transaction_timestamp self now_ w
    = (Returns last, w) /\
    match last with
    | None =>
        forall r, In r (rows (db w)) -> MemberLedger.fee_transactions self now_ r = false
    | Some t =>
        (exists r, In r (rows (db w)) /\
                   MemberLedger.fee_transactions self now_ r = true /\
                   t_value_datetime (snd r) = t) /\
        (forall r, In r (rows (db w)) ->
                   MemberLedger.fee_transactions self now_ r = true ->
                   datetime_leb (t_value_datetime (snd r)) t = true) /\
        datetime_leb t now_ = true
    end.
Proof.
  intros Hcalm. eexists. split.
  { unfold MemberLedger._calc_last_membership_fee_transaction_timestamp.
    apply query_calm. exact Hcalm. }
  unfold MemberLedger.Max_value_datetime.
  destruct (filter (MemberLedger.fee_transactions self now_) (rows (db w)))
    as [|r0 rs] eqn:E.
  - intros r Hr. apply not_true_iff_false. intros Hc.
    assert (In r []) as []. rewrite <- E. apply filter_In. auto.
  - destruct (fold_datetime_max rs (t_value_datetime (snd r0))) as (Hin & Hge & Hall).
    assert (Hmem : forall r, In r (r0 :: rs) <->
              In r (rows (db w)) /\ MemberLedger.fee_transactions self now_ r = true).
    { intros r. rewrite <- E. apply filter_In. }
    assert (Hsome : exists r, In r (r0 :: rs) /\
              t_value_datetime (snd r)
              = fold_left (fun acc x =>
                             MemberLedger.datetime_max acc (t_value_datetime (snd x)))
                          rs (t_value_datetime (snd r0))).
    { destruct Hin as [Hin|(r & Hr & Er)].
      - exists r0. split; [left; reflexivity|]. symmetry. exact Hin.
      - exists r. split; [right; exact Hr|exact Er]. }
    destruct Hsome as (r & Hr & Er). split; [|split].
    + exists r. apply Hmem in Hr. tauto.
    + intros x Hx Hq. assert (In x (r0 :: rs)) as [<-|Hx'] by (apply Hmem; auto);
        [exact Hge|apply Hall; exact Hx'].
    + rewrite <- Er. apply Hmem in Hr. destruct Hr as [_ Hq].
      unfold MemberLedger.fee_transactions, filter_, transaction__value_datetime__lte in Hq.
      rewrite !andb_true_iff in Hq. tauto.
Qed.

Lemma last_membership_fee_transaction_timestamp_is_latest_witness :
  exists last,
    MemberLedger._calc_last_membership_fee_transaction_timestamp 7 feb_15
      (mkworld ledger_late_reversal [] None)
    = (Returns last, mkworld ledger_late_reversal [] None) /\
    match last with
    | None =>
        forall r, In r (rows ledger_late_reversal) ->
                  MemberLedger.fee_transactions 7 feb_15 r = false
    | Some t =>
        (exists r, In r (rows ledger_late_reversal) /\
                   MemberLedger.fee_transactions 7 feb_15 r = true /\
                   t_value_datetime (snd r) = t) /\
        (forall r, In r (rows ledger_late_reversal) ->
                   MemberLedger.fee_transactions 7 feb_15 r = true ->
                   datetime_leb (t_value_datetime (snd r)) t = true) /\
        datetime_leb t feb_15 = true
    end.
Proof.
  exact (last_membership_fee_transaction_timestamp_is_latest 7 feb_15
           (mkworld ledger_late_reversal [] None) eq_refl).
Defined.

(** *** [adjust_balance] and the balances of the member *)

(** What [adjust_balance] leaves in the ledger for a positive amount: one
    new transaction with its debit and its credit row. *)
Lemma adjust_balance_rows self now_ ctx memo amount from_ to_ vdt w :
  0 < amount -> fault_in w = None -> well_formed (db w) ->
  exists w' pk1 pk2 t,
    adjust_balance self now_ ctx memo amount from_ to_ vdt w = (Returns true, w') /\
    fault_in w' = None /\
    rows (db w')
    = rows (db w)
      ++ [(mkBooking pk1 (t_pk t) (Some to_) None amount
                     (if account_eqb to_ fees_receivable then Some self else None), t);
          (mkBooking pk2 (t_pk t) None (Some from_) amount
                     (if account_eqb from_ fees_receivable then Some self else None), t)]
    /\ t_value_datetime t = vdt.
Proof.
  intros Hpos Hcalm [Hnd Href]. unfold adjust_balance, adjust_balance_body.
  assert ((amount =? 0) = false) as -> by (apply Z.eqb_neq; lia).
  assert ((amount <? 0) = false) as -> by (apply Z.ltb_ge; lia).
  eexists. eexists. eexists.
  exists (mkTransaction (next_pk (map t_pk (transactions (db w)))) vdt (Some now_) memo ctx
                        None).
  split; [|split; [|split]].
  - apply atomic_returns. unfold bind.
    rewrite Transaction_objects_create_calm by exact Hcalm.
    rewrite debit_calm by reflexivity. rewrite credit_calm by reflexivity. reflexivity.
  - reflexivity.
  - cbn [db t_pk]. unfold rows at 1.
    cbn [bookings transactions insert_bookings insert_transaction].
    rewrite <- app_assoc, flat_map_app. apply (f_equal2 (@app row)).
    + unfold rows. apply flat_map_same. intros b Hb.
      unfold transaction_of. cbn [transactions insert_bookings insert_transaction].
      rewrite find_over_app.
      destruct (find_pk_In _ _ (Href b Hb)) as (x & -> & _). reflexivity.
    + cbn [flat_map app]. unfold transaction_of.
      cbn [transactions insert_bookings insert_transaction b_transaction].
      rewrite !find_over_app, !find_pk_fresh
        by (intros Hc; apply next_pk_above in Hc; lia).
      cbn [find t_pk]. rewrite Z.eqb_refl. reflexivity.
  - reflexivity.
Qed.

Lemma balance_calm self now_ w :
  fault_in w = None ->
  MemberLedger.balance self now_ w
  = (Returns (total_rows (fun r => member_is self r && credit_account_is fees_receivable r
                                   && datetime_leb (t_value_datetime (snd r)) now_)
                         (rows (db w))
              - total_rows (fun r => member_is self r
                                     && debit_account_is fees_receivable r
                                     && datetime_leb (t_value_datetime (snd r)) now_)
                           (rows (db w))), w).
Proof.
  intros H. unfold MemberLedger.balance, _calc_balance, bind, aggregate_Sum_amount.
  rewrite query_calm by exact H. rewrite query_calm by exact H.
  unfold ret. rewrite !or_zero_Sum_amount, !sum_filter.
  f_equal. f_equal.
  f_equal; apply total_rows_ext; intros r;
    unfold filter_, Booking_objects, transaction__value_datetime__lte, or_else;
    cbn [andb]; rewrite andb_assoc; reflexivity.
Qed.

Lemma donation_balance_calm self now_ w :
  fault_in w = None ->
  MemberLedger.donation_balance self now_ w
  = (Returns (total_rows (MemberLedger.donations self now_) (rows (db w))), w).
Proof.
  intros H. unfold MemberLedger.donation_balance, bind, aggregate_Sum_amount.
  rewrite query_calm by exact H. unfold ret. rewrite or_zero_Sum_amount, sum_filter.
  reflexivity.
Qed.

Lemma account_eqb_refl a : account_eqb a a = true.
Proof. apply account_eqb_eq. reflexivity. Qed.

Lemma adjust_balance_negative self now_ ctx memo amount from_ to_ vdt w :
  amount < 0 ->
  adjust_balance self now_ ctx memo amount from_ to_ vdt w
  = adjust_balance self now_ ctx memo (- amount) to_ from_ vdt w.
Proof.
  intros Hn. unfold adjust_balance, adjust_balance_body.
  assert ((amount =? 0) = false) as -> by (apply Z.eqb_neq; lia).
  assert ((- amount =? 0) = false) as -> by (apply Z.eqb_neq; lia).
  assert ((amount <? 0) = true) as -> by (apply Z.ltb_lt; lia).
  assert ((- amount <? 0) = false) as -> by (apply Z.ltb_ge; lia).
  reflexivity.
Qed.

Lemma balance_after_posting self later amount from_ to_ pk1 pk2 t rs :
  datetime_leb (t_value_datetime t) later = true ->
  let new :=
    [(mkBooking pk1 (t_pk t) (Some to_) None amount
                (if account_eqb to_ fees_receivable then Some self else None), t);
     (mkBooking pk2 (t_pk t) None (Some from_) amount
                (if account_eqb from_ fees_receivable then Some self else None), t)] in
  total_rows (fun r => member_is self r && credit_account_is fees_receivable r
                       && datetime_leb (t_value_datetime (snd r)) later) (rs ++ new)
  - total_rows (fun r => member_is self r && debit_account_is fees_receivable r
                         && datetime_leb (t_value_datetime (snd r)) later) (rs ++ new)
  = total_rows (fun r => member_is self r && credit_account_is fees_receivable r
                         && datetime_leb (t_value_datetime (snd r)) later) rs
    - total_rows (fun r => member_is self r && debit_account_is fees_receivable r
                           && datetime_leb (t_value_datetime (snd r)) later) rs
    + (if account_eqb from_ fees_receivable then amount else 0)
    - (if account_eqb to_ fees_receivable then amount else 0).
Proof.
  intros Hle new. rewrite !total_rows_app. subst new. unfold total_rows.
  cbn [fold_right]. unfold member_is, credit_account_is, debit_account_is.
  cbn [fst snd b_member b_credit_account b_debit_account b_amount]. rewrite Hle.
  destruct (account_eqb from_ fees_receivable) eqn:Ef,
           (account_eqb to_ fees_receivable) eqn:Et;
    rewrite ?Z.eqb_refl; cbn [andb]; lia.
Qed.

(** X10: on a well-formed ledger and a database that answers,
    [adjust_balance] with a value date that is not after the moment the
    balance is read moves [Member.balance] by [amount] when [from_] is the
    fees-receivable account, by [-amount] when [to_] is, and not at all
    when both or neither are; this holds for either sign of [amount]. *)
Theorem adjust_balance_moves_balance self now_ ctx memo amount from_ to_ vdt later w :
  fault_in w = None -> well_formed (db w) -> datetime_leb vdt later = true ->
  exists w' b,
    adjust_balance self now_ ctx memo amount from_ to_ vdt w
    = (Returns (negb (amount =? 0)), w') /\
    MemberLedger.balance self later w = (Returns b, w) /\
    MemberLedger.balance self later w'
    = (Returns (b + (if account_eqb from_ fees_receivable then amount else 0)
                  - (if account_eqb to_ fees_receivable then amount else 0)), w').
Proof.
  intros Hcalm Hwf Hle. rewrite (balance_calm self later w Hcalm).
  destruct (Z.lt_trichotomy amount 0) as [Hn|[->|Hp]].
  - rewrite (adjust_balance_negative _ _ _ _ _ _ _ _ _ Hn).
    destruct (adjust_balance_rows self now_ ctx memo (- amount) to_ from_ vdt w)
      as (w' & pk1 & pk2 & t & Hrun & Hcalm' & Hrows & Ht); [lia|exact Hcalm|exact Hwf|].
    exists w'. eexists. split; [|split; [reflexivity|]].
    + rewrite Hrun. assert ((amount =? 0) = false) as -> by (apply Z.eqb_neq; lia).
      reflexivity.
    + rewrite (balance_calm self later w' Hcalm'), Hrows.
      rewrite balance_after_posting by (rewrite Ht; exact Hle).
      f_equal. f_equal.
      destruct (account_eqb from_ fees_receivable), (account_eqb to_ fees_receivable); lia.
  - exists w. eexists. split; [reflexivity|]. split; [reflexivity|].
    rewrite (balance_calm self later w Hcalm). f_equal. f_equal.
    destruct (account_eqb from_ fees_receivable), (account_eqb to_ fees_receivable); lia.
  - destruct (adjust_balance_rows self now_ ctx memo amount from_ to_ vdt w)
      as (w' & pk1 & pk2 & t & Hrun & Hcalm' & Hrows & Ht); [lia|exact Hcalm|exact Hwf|].
    exists w'. eexists. split; [|split; [reflexivity|]].
    + rewrite Hrun. assert ((amount =? 0) = false) as -> by (apply Z.eqb_neq; lia).
      reflexivity.
    + rewrite (balance_calm self later w' Hcalm'), Hrows.
      rewrite balance_after_posting by (rewrite Ht; exact Hle). reflexivity.
Qed.

Lemma adjust_balance_moves_balance_witness :
  exists w' b,
    adjust_balance 7 feb_15 "office" "payment" 2500 fees_receivable (Account 1) jan_10
                   before_first_run
    = (Returns (negb (2500 =? 0)), w') /\
    MemberLedger.balance 7 feb_15 before_first_run = (Returns b, before_first_run) /\
    MemberLedger.balance 7 feb_15 w'
    = (Returns (b + (if account_eqb fees_receivable fees_receivable then 2500 else 0)
                  - (if account_eqb (Account 1) fees_receivable then 2500 else 0)), w').
Proof.
  apply (adjust_balance_moves_balance 7 feb_15 "office" "payment" 2500 fees_receivable
           (Account 1) jan_10 feb_15 before_first_run); [reflexivity| |reflexivity].
  split; [repeat constructor; cbn; intuition discriminate|].
  intros b Hb. cbn in Hb. cbn. intuition (subst; cbn; auto).
Defined.

(** X11: [adjust_balance] never changes [Member.donation_balance]: the
    booking it makes on the donations account carries no member. *)
Theorem adjust_balance_keeps_donation_balance self now_ ctx memo amount from_ to_ vdt
    later w :
  fault_in w = None -> well_formed (db w) ->
  exists w' r,
    adjust_balance self now_ ctx memo amount from_ to_ vdt w = (Returns r, w') /\
    fst (MemberLedger.donation_balance self later w')
    = fst (MemberLedger.donation_balance self later w).
Proof.
  intros Hcalm Hwf.
  assert (Hpos : forall amount from_ to_, 0 < amount ->
            exists w' r,
              adjust_balance self now_ ctx memo amount from_ to_ vdt w = (Returns r, w') /\
              fst (MemberLedger.donation_balance self later w')
              = fst (MemberLedger.donation_balance self later w)).
  { clear amount from_ to_. intros amount from_ to_ Hp.
    destruct (adjust_balance_rows self now_ ctx memo amount from_ to_ vdt w Hp Hcalm Hwf)
      as (w' & pk1 & pk2 & t & Hrun & Hcalm' & Hrows & Ht).
    exists w', true. split; [exact Hrun|].
    rewrite !donation_balance_calm by assumption. cbn [fst]. f_equal.
    rewrite Hrows, total_rows_app.
    assert (total_rows (MemberLedger.donations self later)
              [(mkBooking pk1 (t_pk t) (Some to_) None amount
                          (if account_eqb to_ fees_receivable then Some self else None), t);
               (mkBooking pk2 (t_pk t) None (Some from_) amount
                          (if account_eqb from_ fees_receivable then Some self else None),
                t)] = 0) as ->; [|lia].
    unfold total_rows, MemberLedger.donations, filter_, Booking_objects,
      credit_account_is, member_is.
    cbn [fold_right fst snd b_credit_account b_member andb].
    destruct from_; cbn [account_eqb andb]; reflexivity. }
  destruct (Z.lt_trichotomy amount 0) as [Hn|[->|Hp]].
  - rewrite (adjust_balance_negative _ _ _ _ _ _ _ _ _ Hn). apply Hpos. lia.
  - exists w, false. split; reflexivity.
  - apply Hpos. exact Hp.
Qed.

Lemma adjust_balance_keeps_donation_balance_witness :
  exists w' r,
    adjust_balance 7 feb_15 "office" "gift" 2500 donations (Account 1) jan_10
                   before_first_run = (Returns r, w') /\
    fst (MemberLedger.donation_balance 7 feb_15 w')
    = fst (MemberLedger.donation_balance 7 feb_15 before_first_run).
Proof.
  apply (adjust_balance_keeps_donation_balance 7 feb_15 "office" "gift" 2500 donations
           (Account 1) jan_10 feb_15 before_first_run); [reflexivity|].
  split; [repeat constructor; cbn; intuition discriminate|].
  intros b Hb. cbn in Hb. cbn. intuition (subst; cbn; auto).
Defined.

(** *** The dues of one membership, month by month *)

Lemma date_add_zero_months d :
  valid_date d = true -> date_add d (rd_of_months 0) = Returns d.
Proof.
  intros Hv. destruct (date_add_months_cases d 0 Hv)
    as [(d' & Hadd & Hv' & Hidx & Hday)|[_ Hout]].
  - rewrite Hadd. f_equal. apply valid_date_spec in Hv. apply valid_date_spec in Hv'.
    unfold month_index in Hidx.
    assert (year d' = year d) as Hy by lia. assert (month d' = month d) as Hm by lia.
    rewrite Hy, Hm in Hday. destruct d, d'. cbn [year month day] in *. f_equal; lia.
  - exfalso. apply Hout. apply valid_date_spec in Hv.
    unfold month_index, MINYEAR, MAXYEAR in *. lia.
Qed.

Lemma dues_while_zero self end_ date_ :
  ms_interval self = 0 -> valid_date date_ = true -> date_leb date_ end_ = true ->
  forall fuel dues, dues_while fuel self end_ date_ dues = Diverges.
Proof.
  intros Hi Hv Hle. induction fuel as [|fuel IH]; intros dues; cbn [dues_while];
    [reflexivity|].
  rewrite Hle, Hi, date_add_zero_months by exact Hv. cbn [obind]. apply IH.
Qed.

Lemma dues_while_negative self end_ :
  ms_interval self < 0 ->
  forall fuel date_ dues,
    valid_date date_ = true -> date_leb date_ end_ = true ->
    month_index date_ - 12 <= Z.of_nat fuel ->
    dues_while fuel self end_ date_ dues = Raises ValueError.
Proof.
  intros Hi. induction fuel as [|fuel IH]; intros date_ dues Hv Hle Hfuel.
  - exfalso. apply valid_date_spec in Hv. unfold month_index, MINYEAR in *. lia.
  - cbn [dues_while]. rewrite Hle.
    destruct (date_add_months_cases date_ (ms_interval self) Hv)
      as [(d' & Hadd & Hv' & Hidx & _)|[Hadd _]]; rewrite Hadd; cbn [obind];
      [|reflexivity].
    destruct (date_add_months_order _ _ _ Hv Hadd) as (_ & _ & Hback).
    apply IH; [exact Hv'| |lia].
    eapply date_leb_trans; [apply Hback; lia|exact Hle].
Qed.

(** X12: when the window of a membership is not empty, [get_dues] with
    interval 0 does not end, however many turns its loop is given, and with
    a negative interval it raises ValueError, when the date leaves the
    calendar. *)
Theorem get_dues_needs_positive_interval m now_ from s e :
  valid_date (ms_start m) = true ->
  (forall f, from = Some f -> valid_date f = true) ->
  dues_range m now_ from = Returns (s, e) -> date_leb s e = true ->
  (ms_interval m = 0 ->
   get_dues m now_ from = Diverges /\
   forall fuel dues, dues_while fuel m e s dues = Diverges) /\
  (ms_interval m < 0 -> get_dues m now_ from = Raises ValueError).
Proof.
  intros Hs Hf Hr Hle.
  assert (Hv : valid_date s = true).
  { pose proof (dues_range_start _ _ _ _ Hr) as E. cbn [fst] in E. subst s.
    apply range_start_valid; assumption. }
  unfold get_dues. rewrite Hr. cbn [obind]. split; intros Hi.
  - split; [|apply dues_while_zero; assumption].
    rewrite dues_while_zero by assumption. reflexivity.
  - rewrite (dues_while_negative m e Hi); [reflexivity|exact Hv|exact Hle|].
    unfold dues_fuel. assert ((0 <? ms_interval m) = false) as -> by (apply Z.ltb_ge; lia).
    apply valid_date_spec in Hv. unfold month_index, MINYEAR in *. lia.
Qed.

Lemma get_dues_needs_positive_interval_witness :
  (ms_interval stuck_2023 = 0 ->
   get_dues stuck_2023 feb_15 None = Diverges /\
   forall fuel dues,
     dues_while fuel stuck_2023 (mkdate 2023 1 31) (mkdate 2023 1 1) dues = Diverges) /\
  (ms_interval stuck_2023 < 0 -> get_dues stuck_2023 feb_15 None = Raises ValueError).
Proof.
  exact (get_dues_needs_positive_interval stuck_2023 feb_15 None (mkdate 2023 1 1)
           (mkdate 2023 1 31) eq_refl (fun f H => match H with end
           ) eq_refl eq_refl).
Defined.

Lemma dues_while_keeps self end_ :
  forall fuel date_ dues dues',
    dues_while fuel self end_ date_ dues = Returns dues' ->
    forall k, In k dues -> In k dues'.
Proof.
  induction fuel as [|fuel IH]; intros date_ dues dues'; cbn [dues_while]; [discriminate|].
  destruct (date_leb date_ end_); [|intros [= <-]; auto].
  destruct (date_add date_ _) as [d'| |]; cbn [obind]; try discriminate.
  intros Hrun k Hk. apply (IH _ _ _ Hrun). apply add_In_iff. right. exact Hk.
Qed.

(** X13: when [get_dues] returns, the dues are empty if the window it
    returns starts after its end (a membership that ended before the
    accounting start, say), and otherwise hold the due of the first day of
    the window. *)
Theorem get_dues_first_due m now_ from s e dues :
  get_dues m now_ from = Returns ((s, e), dues) ->
  (date_leb s e = false -> dues = []) /\
  (date_leb s e = true -> In (s, ms_amount m) dues).
Proof.
  unfold get_dues.
  destruct (dues_range m now_ from) as [[s' e']| |]; cbn [obind]; try discriminate.
  unfold dues_fuel. cbn [dues_while].
  destruct (date_leb s' e') eqn:Hle.
  - destruct (date_add s' _) as [d'| |]; cbn [obind]; try discriminate.
    destruct (dues_while _ _ _ _ _) as [ds| |] eqn:E; cbn [obind]; try discriminate.
    intros [= <- <- <-]. split; [congruence|]. intros _.
    apply (dues_while_keeps _ _ _ _ _ _ E). apply add_In_iff. left. reflexivity.
  - cbn [obind]. intros [= <- <- <-]. split; [reflexivity|congruence].
Qed.

Lemma get_dues_first_due_witness :
  In (mkdate 2023 1 31, ms_amount since_jan_31) six_dues /\
  @nil due = [].
Proof.
  split.
  - refine (proj2 (get_dues_first_due since_jan_31 jun_15 None (mkdate 2023 1 31)
                     (mkdate 2023 6 30) six_dues eq_refl) _).
    reflexivity.
  - refine (proj1 (get_dues_first_due jan_2023 feb_15 from_mar_1 (mkdate 2023 3 1)
                     (mkdate 2023 1 31) [] eq_refl) _).
    reflexivity.
Defined.

(** The two calls of that example: a membership since 2023-01-31 seen on
    2023-06-15 has the window to 2023-06-30 and six dues, the first on the
    first day of the window; a membership that ended in January 2023 with
    the accounting started in March has a window that starts after its end
    and no due. *)
Example first_due_calls :
  get_dues since_jan_31 jun_15 None
  = Returns ((mkdate 2023 1 31, mkdate 2023 6 30), six_dues) /\
  get_dues jan_2023 feb_15 from_mar_1
  = Returns ((mkdate 2023 3 1, mkdate 2023 1 31), []).
Proof. split; vm_compute; reflexivity. Qed.

Lemma dues_while_months self end_ :
  1 <= ms_interval self ->
  forall fuel date_ dues dues',
    valid_date date_ = true ->
    dues_while fuel self end_ date_ dues = Returns dues' ->
    forall k, In k dues' ->
              In k dues \/
              (snd k = ms_amount self /\ day (fst k) <= day date_ /\
               exists n, 0 <= n /\
                         month_index (fst k) = month_index date_ + n * ms_interval self).
Proof.
  intros Hi. induction fuel as [|fuel IH]; intros date_ dues dues' Hv; cbn [dues_while];
    [discriminate|].
  destruct (date_leb date_ end_); [|intros [= <-]; auto].
  destruct (date_add_months_cases date_ (ms_interval self) Hv)
    as [(d' & Hadd & Hv' & Hidx & Hday)|[Hadd _]]; rewrite Hadd; cbn [obind];
    [|discriminate].
  intros Hrun k Hk. destruct (IH _ _ _ Hv' Hrun k Hk) as [Hin|(Ha & Hd & n & Hn & Hm)].
  - apply add_In_iff in Hin. destruct Hin as [->|Hin]; [|left; exact Hin].
    right. cbn [fst snd]. split; [reflexivity|]. split; [lia|]. exists 0. lia.
  - right. split; [exact Ha|]. split; [lia|]. exists (n + 1). lia.
Qed.

Lemma date_leb_by_month a b :
  valid_date a = true -> valid_date b = true ->
  month_index a < month_index b \/ (month_index a = month_index b /\ day a <= day b) ->
  date_leb a b = true.
Proof.
  intros Ha Hb H. apply valid_date_spec in Ha. apply valid_date_spec in Hb.
  apply date_leb_spec. unfold month_index in H. lia.
Qed.

Lemma dues_while_every_month self end_ :
  1 <= ms_interval self -> valid_date end_ = true ->
  forall fuel date_ dues dues',
    valid_date date_ = true ->
    dues_while fuel self end_ date_ dues = Returns dues' ->
    forall n, 0 <= n ->
      (month_index date_ + n * ms_interval self < month_index end_ \/
       (month_index date_ + n * ms_interval self = month_index end_ /\
        day date_ <= day end_)) ->
      exists k, In k dues' /\ snd k = ms_amount self /\
                month_index (fst k) = month_index date_ + n * ms_interval self.
Proof.
  intros Hi He. induction fuel as [|fuel IH]; intros date_ dues dues' Hv; cbn [dues_while];
    [discriminate|].
  intros Hrun n Hn Hin.
  assert (Hle : date_leb date_ end_ = true).
  { apply date_leb_by_month; [exact Hv|exact He|]. nia. }
  rewrite Hle in Hrun.
  destruct (date_add_months_cases date_ (ms_interval self) Hv)
    as [(d' & Hadd & Hv' & Hidx & Hday)|[Hadd _]]; rewrite Hadd in Hrun;
    cbn [obind] in Hrun; [|discriminate].
  destruct (Z.eq_dec n 0) as [->|Hne].
  - exists (date_, ms_amount self). cbn [fst snd]. split; [|split; [reflexivity|lia]].
    apply (dues_while_keeps _ _ _ _ _ _ Hrun). apply add_In_iff. left. reflexivity.
  - destruct (IH _ _ _ Hv' Hrun (n - 1)) as (k & Hk & Ha & Hm); [lia| |].
    + destruct Hin as [Hin|[Hin Hd]]; [left; lia|right; split; lia].
    + exists k. split; [exact Hk|]. split; [exact Ha|]. lia.
Qed.

(** X14: for a membership with valid dates and a positive interval, the
    dues that [get_dues] returns carry the amount of the membership and
    fall one in every [interval]-th month, counted from the month of the
    window start: each due lies a whole number of intervals after the
    start, on a day of the month not after the day of the start, and every
    such month before the month of the window end has its due, as has the
    month of the end when the day of the start is not after the day of the
    end. *)
Theorem get_dues_every_interval m now_ from s e dues :
  valid_date (ms_start m) = true ->
  (forall f, from = Some f -> valid_date f = true) ->
  valid_date e = true ->
  1 <= ms_interval m ->
  get_dues m now_ from = Returns ((s, e), dues) ->
  (forall k, In k dues ->
     snd k = ms_amount m /\ day (fst k) <= day s /\
     exists n, 0 <= n /\ month_index (fst k) = month_index s + n * ms_interval m) /\
  (forall n, 0 <= n ->
     (month_index s + n * ms_interval m < month_index e \/
      (month_index s + n * ms_interval m = month_index e /\ day s <= day e)) ->
     exists k, In k dues /\ snd k = ms_amount m /\
               month_index (fst k) = month_index s + n * ms_interval m).
Proof.
  intros Hs Hf He Hi. unfold get_dues.
  destruct (dues_range m now_ from) as [[s' e']| |] eqn:Er; cbn [obind]; try discriminate.
  destruct (dues_while _ _ _ _ _) as [ds| |] eqn:E; cbn [obind]; try discriminate.
  intros [= <- <- <-].
  assert (Hv : valid_date s' = true).
  { pose proof (dues_range_start _ _ _ _ Er) as E'. cbn [fst] in E'. subst s'.
    apply range_start_valid; assumption. }
  split.
  - intros k Hk. destruct (dues_while_months m e' Hi _ _ _ _ Hv E k Hk) as [[]|H].
    exact H.
  - intros n Hn Hin. exact (dues_while_every_month m e' Hi He _ _ _ _ Hv E n Hn Hin).
Qed.

Lemma get_dues_every_interval_witness :
  (forall k, In k [(mkdate 2023 1 1, 3000)] ->
     snd k = ms_amount jan_2023 /\ day (fst k) <= day (mkdate 2023 1 1) /\
     exists n, 0 <= n /\
       month_index (fst k) = month_index (mkdate 2023 1 1) + n * ms_interval jan_2023) /\
  (forall n, 0 <= n ->
     (month_index (mkdate 2023 1 1) + n * ms_interval jan_2023
        < month_index (mkdate 2023 1 31) \/
      (month_index (mkdate 2023 1 1) + n * ms_interval jan_2023
         = month_index (mkdate 2023 1 31) /\
       day (mkdate 2023 1 1) <= day (mkdate 2023 1 31))) ->
     exists k, In k [(mkdate 2023 1 1, 3000)] /\ snd k = ms_amount jan_2023 /\
       month_index (fst k) = month_index (mkdate 2023 1 1) + n * ms_interval jan_2023).
Proof.
  apply (get_dues_every_interval jan_2023 feb_15 None (mkdate 2023 1 1) (mkdate 2023 1 31)
           [(mkdate 2023 1 1, 3000)]); try reflexivity; discriminate.
Defined.

Lemma dues_while_drift self end_ :
  1 <= ms_interval self ->
  forall fuel date_ dues dues',
    valid_date date_ = true ->
    dues_while fuel self end_ date_ dues = Returns dues' ->
    forall k1 k2,
      In k1 dues' -> In k2 dues' -> ~ In k1 dues -> ~ In k2 dues ->
      month_index (fst k1) <= month_index (fst k2) -> day (fst k2) <= day (fst k1).
Proof.
  intros Hi. induction fuel as [|fuel IH]; intros date_ dues dues' Hv; cbn [dues_while];
    [discriminate|].
  destruct (date_leb date_ end_); [|intros [= <-]; tauto].
  destruct (date_add_months_cases date_ (ms_interval self) Hv)
    as [(d' & Hadd & Hv' & Hidx & Hday)|[Hadd _]]; rewrite Hadd; cbn [obind];
    [|discriminate].
  intros Hrun k1 k2 H1 H2 N1 N2 Hm.
  pose proof (dues_while_months self end_ Hi _ _ _ _ Hv' Hrun) as Hnew.
  destruct (Hnew k1 H1) as [O1|(_ & D1 & n1 & Hn1 & M1)];
    destruct (Hnew k2 H2) as [O2|(_ & D2 & n2 & Hn2 & M2)].
  - apply add_In_iff in O1. apply add_In_iff in O2.
    destruct O1 as [->|O1]; [|tauto]. destruct O2 as [->|O2]; [|tauto]. lia.
  - apply add_In_iff in O1. destruct O1 as [->|O1]; [|tauto]. cbn [fst]. lia.
  - apply add_In_iff in O2. destruct O2 as [->|O2]; [|tauto]. cbn [fst] in Hm. nia.
  - apply (IH _ _ _ Hv' Hrun k1 k2 H1 H2); [| |exact Hm].
    + intros Hc. apply add_In_iff in Hc. destruct Hc as [->|Hc]; [|tauto].
      cbn [fst] in M1. nia.
    + intros Hc. apply add_In_iff in Hc. destruct Hc as [->|Hc]; [|tauto].
      cbn [fst] in M2. nia.
Qed.

(** X15: the day of the month of the dues never comes back: of two dues
    that [get_dues] returns for a membership with a positive interval, the
    later one is on the same day of the month as the earlier one or on an
    earlier day (once a short month has clipped the 31st to the 28th, every
    later due is on the 28th or before). *)
Theorem get_dues_day_never_returns m now_ from s e dues k1 k2 :
  valid_date (ms_start m) = true ->
  (forall f, from = Some f -> valid_date f = true) ->
  1 <= ms_interval m ->
  get_dues m now_ from = Returns ((s, e), dues) ->
  In k1 dues -> In k2 dues ->
  month_index (fst k1) <= month_index (fst k2) -> day (fst k2) <= day (fst k1).
Proof.
  intros Hs Hf Hi. unfold get_dues.
  destruct (dues_range m now_ from) as [[s' e']| |] eqn:Er; cbn [obind]; try discriminate.
  destruct (dues_while _ _ _ _ _) as [ds| |] eqn:E; cbn [obind]; try discriminate.
  intros [= <- <- <-] H1 H2.
  assert (Hv : valid_date s' = true).
  { pose proof (dues_range_start _ _ _ _ Er) as E'. cbn [fst] in E'. subst s'.
    apply range_start_valid; assumption. }
  apply (dues_while_drift m e' Hi _ _ _ _ Hv E k1 k2 H1 H2); intros [].
Qed.

Lemma get_dues_day_never_returns_witness :
  day (fst (mkdate 2023 3 28, 3000)) <= day (fst (mkdate 2023 1 31, 3000)).
Proof.
  refine (get_dues_day_never_returns since_jan_31 jun_15 None (mkdate 2023 1 31)
            (mkdate 2023 6 30)
            [(mkdate 2023 1 31, 3000); (mkdate 2023 2 28, 3000); (mkdate 2023 3 28, 3000);
             (mkdate 2023 4 28, 3000); (mkdate 2023 5 28, 3000); (mkdate 2023 6 28, 3000)]
            (mkdate 2023 1 31, 3000) (mkdate 2023 3 28, 3000)
            eq_refl _ _ eq_refl _ _ _).
  - discriminate.
  - unfold since_jan_31. cbn [ms_interval]. lia.
  - left. reflexivity.
  - right. right. left. reflexivity.
  - cbn. lia.
Defined.

(** *** Step 1 of [update_liabilites] as a set *)

Lemma union_In_iff x s t : In x (union s t) <-> In x s \/ In x t.
Proof.
  split; [apply union_In|]. unfold union. revert s.
  induction t as [|y t IH]; intros s; cbn [fold_left].
  - intros [H|[]]. exact H.
  - intros [H|[->|H]]; apply IH.
    + left. apply add_In_iff. right. exact H.
    + left. apply add_In_iff. left. reflexivity.
    + right. exact H.
Qed.

Lemma collect_dues_union_from ms now_ from :
  forall ranges0 dues0 ranges dues,
    collect_dues ms now_ from ranges0 dues0 = Returns (ranges, dues) ->
    NoDup dues0 ->
    NoDup dues /\
    forall k, In k dues <->
              In k dues0 \/
              exists m r ds, In m ms /\ ms_amount m <> 0 /\
                             get_dues m now_ from = Returns (r, ds) /\ In k ds.
Proof.
  induction ms as [|m ms IH]; intros ranges0 dues0 ranges dues; cbn [collect_dues].
  - intros [= <- <-] Hnd. split; [exact Hnd|]. intros k. split; [auto|].
    intros [H|(m & r & ds & [] & _)]. exact H.
  - destruct (ms_amount m =? 0) eqn:Ea.
    + intros Hrun Hnd. destruct (IH _ _ _ _ Hrun Hnd) as [Hnd' Hin]. split; [exact Hnd'|].
      intros k. rewrite Hin. split; intros [H|(m' & r & ds & Hm & Hrest)]; auto.
      * right. exists m', r, ds. split; [right; exact Hm|exact Hrest].
      * destruct Hm as [<-|Hm]; [|right; exists m', r, ds; auto].
        apply Z.eqb_eq in Ea. tauto.
    + destruct (get_dues m now_ from) as [[r0 ds0]| |] eqn:Eg; cbn [obind];
        try discriminate.
      intros Hrun Hnd.
      destruct (IH _ _ _ _ Hrun (union_NoDup _ _ Hnd)) as [Hnd' Hin]. split; [exact Hnd'|].
      intros k. rewrite Hin, union_In_iff. apply Z.eqb_neq in Ea. split.
      * intros [[H|H]|(m' & r & ds & Hm & Hrest)]; auto.
        -- right. exists m, r0, ds0. auto using in_eq.
        -- right. exists m', r, ds. split; [right; exact Hm|exact Hrest].
      * intros [H|(m' & r & ds & [<-|Hm] & Hne & Hg & Hk)]; auto.
        -- rewrite Eg in Hg. injection Hg as <- <-. auto.
        -- right. exists m', r, ds. auto.
Qed.

(** X16: when step 1 of [update_liabilites] returns, the dues it has
    collected are the dues of the memberships with a fee, as a set: a
    (date, amount) pair is in it exactly when [get_dues] of one of these
    memberships holds it, and it is in it once, however many memberships
    make it due. *)
Theorem collect_dues_is_the_union ms now_ from ranges dues k :
  collect_dues ms now_ from [] [] = Returns (ranges, dues) ->
  NoDup dues /\
  (In k dues <->
   exists m r ds, In m ms /\ ms_amount m <> 0 /\
                  get_dues m now_ from = Returns (r, ds) /\ In k ds).
Proof.
  intros Hrun.
  destruct (collect_dues_union_from ms now_ from _ _ _ _ Hrun (NoDup_nil _)) as [Hnd Hin].
  split; [exact Hnd|]. rewrite Hin. split; [intros [[]|H]; exact H|auto].
Qed.

Lemma collect_dues_is_the_union_witness :
  NoDup [(mkdate 2023 1 1, 3000)] /\
  (In (mkdate 2023 1 1, 3000) [(mkdate 2023 1 1, 3000)] <->
   exists m r ds, In m [jan_2023; jan_2023] /\ ms_amount m <> 0 /\
                  get_dues m feb_15 None = Returns (r, ds) /\
                  In (mkdate 2023 1 1, 3000) ds).
Proof.
  exact (collect_dues_is_the_union [jan_2023; jan_2023] feb_15 None
           [(mkdate 2023 1 1, mkdate 2023 1 31); (mkdate 2023 1 1, mkdate 2023 1 31)]
           [(mkdate 2023 1 1, 3000)] (mkdate 2023 1 1, 3000) eq_refl).
Defined.

(** *** Methods that only read *)

Lemma reads_only_ret {A} (a : A) : reads_only (ret a).
Proof. intros w. split; reflexivity. Qed.

Lemma reads_only_raise {A} e : reads_only (@raise A e).
Proof. intros w. split; reflexivity. Qed.

Lemma reads_only_lift {A} (x : outcome A) : reads_only (lift x).
Proof. intros w. split; reflexivity. Qed.

Lemma reads_only_statement : reads_only statement.
Proof.
  intros w. unfold statement. destruct (fault_in w) as [[|n]|]; split; reflexivity.
Qed.

Lemma reads_only_bind {A B} (x : M A) (k : A -> M B) :
  reads_only x -> (forall a, reads_only (k a)) -> reads_only (bind x k).
Proof.
  intros Hx Hk w. unfold bind. specialize (Hx w).
  destruct (x w) as [[a| |] w']; cbn [snd] in *; [|exact Hx..].
  destruct (Hk a w') as [H1 H2]. destruct Hx as [H3 H4]. split; congruence.
Qed.

Lemma reads_only_query {A} (f : Database -> A) : reads_only (query f).
Proof.
  unfold query. apply reads_only_bind; [apply reads_only_statement|].
  intros _ w. split; reflexivity.
Qed.

Lemma reads_only_calc_balance self now_ lc ac ls as_ :
  reads_only (_calc_balance self now_ lc ac ls as_).
Proof.
  unfold _calc_balance, aggregate_Sum_amount.
  apply reads_only_bind; [apply reads_only_query|]. intros liability.
  apply reads_only_bind; [apply reads_only_query|]. intros asset.
  apply reads_only_ret.
Qed.

(** X17: the methods that report on a member only read: [balance],
    [donation_balance], [last_membership_fee_transaction_timestamp],
    [statute_barred_debt] and [create_balance] with [commit=False] leave
    the rows of the database as they were and write no statement, whether
    they return or raise. *)
Theorem reports_only_read self now_ :
  reads_only (MemberLedger.balance self now_) /\
  reads_only (MemberLedger.donation_balance self now_) /\
  reads_only (MemberLedger.last_membership_fee_transaction_timestamp self now_) /\
  (forall future_limit, reads_only (statute_barred_debt self now_ future_limit)) /\
  (forall number name start end_ create_if_zero,
     reads_only (create_balance self number name now_ start end_ false create_if_zero)).
Proof.
  split; [apply reads_only_calc_balance|].
  split.
  { unfold MemberLedger.donation_balance, aggregate_Sum_amount.
    apply reads_only_bind; [apply reads_only_query|]. intros x. apply reads_only_ret. }
  split; [apply reads_only_query|].
  split.
  { intros future_limit. unfold statute_barred_debt.
    apply reads_only_bind; [apply reads_only_query|]. intros cfg.
    apply reads_only_bind; [apply reads_only_lift|]. intros cutoff.
    apply reads_only_bind; [apply reads_only_calc_balance|]. intros bal.
    apply reads_only_ret. }
  intros number name start end_ ciz. unfold create_balance.
  apply reads_only_bind; [apply reads_only_query|]. intros any.
  apply reads_only_bind.
  { destruct any; [|apply reads_only_ret].
    apply reads_only_bind; [apply reads_only_query|]. intros clash.
    destruct clash; [apply reads_only_raise|apply reads_only_ret]. }
  intros _. apply reads_only_bind; [apply reads_only_calc_balance|]. intros amount.
  destruct ((amount =? 0) && negb ciz); [apply reads_only_ret|].
  apply reads_only_bind; apply reads_only_ret || (intros; apply reads_only_ret).
Qed.

(** *** Snapshots of the balance *)

Lemma calc_balance_window_calm self now_ start end_ w :
  fault_in w = None ->
  _calc_balance self now_ (Some end_) (Some end_) (Some start) (Some start) w
  = (Returns
       (total_rows (fun r => member_is self r && credit_account_is fees_receivable r
                             && datetime_leb (t_value_datetime (snd r)) end_
                             && datetime_leb start (t_value_datetime (snd r)))
                   (rows (db w))
        - total_rows (fun r => member_is self r && debit_account_is fees_receivable r
                               && datetime_leb (t_value_datetime (snd r)) end_
                               && datetime_leb start (t_value_datetime (snd r)))
                     (rows (db w))), w).
Proof.
  intros H. unfold _calc_balance, bind, aggregate_Sum_amount.
  rewrite query_calm by exact H. rewrite query_calm by exact H.
  unfold ret. rewrite !or_zero_Sum_amount, !sum_filter.
  f_equal. f_equal.
  f_equal; apply total_rows_ext; intros r;
    unfold filter_, Booking_objects, transaction__value_datetime__lte,
      transaction__value_datetime__gte, or_else;
    cbn [andb]; rewrite !andb_assoc; reflexivity.
Qed.

Lemma calc_balance_window self now_ start end_ w :
  fault_in w = None ->
  _calc_balance self now_ (Some end_) (Some end_) (Some start) (Some start) w
  = (Returns (window_balance self start end_ (db w)), w).
Proof.
  intros H. rewrite calc_balance_window_calm by exact H. unfold window_balance.
  change amounts with total_rows. f_equal. f_equal.
  f_equal; apply total_rows_ext; intros r; unfold receivable, dated_within;
    destruct (member_is self r), (datetime_leb start (t_value_datetime (snd r))),
      (datetime_leb (t_value_datetime (snd r)) end_);
    rewrite ?andb_true_r, ?andb_false_r; reflexivity.
Qed.

(** The check of [create_balance] passes a proper window that overlaps no
    snapshot of the member. *)
Lemma create_balance_check_passes self number name start end_ w :
  fault_in w = None ->
  datetime_leb start end_ = true ->
  (forall b, In b (balances_of self (db w)) ->
             overlapping (mb_start b) (mb_end b) start end_ = false) ->
  (if negb match balances_of self (db w) with [] => true | _ :: _ => false end
   then
     clash <- query (fun d =>
       existsb (fun b =>
          datetime_leb (mb_start b) start && datetime_leb start (mb_end b)
          || datetime_leb (mb_start b) end_ && datetime_leb end_ (mb_end b))
         (balances_of self d)) ;;
     (if clash then raise (Exception_ (overlapping_balance number name start end_))
      else ret tt)
   else ret tt) w = (Returns tt, w).
Proof.
  intros Hcalm Hse Hfree.
  destruct (balances_of self (db w)) as [|b0 bs] eqn:E; [reflexivity|].
  cbn [negb]. unfold bind. rewrite query_calm by exact Hcalm. rewrite E.
  assert (existsb (fun b1 : MemberBalance =>
             datetime_leb (mb_start b1) start && datetime_leb start (mb_end b1)
             || datetime_leb (mb_start b1) end_ && datetime_leb end_ (mb_end b1))
            (b0 :: bs) = false) as ->; [|reflexivity].
  apply not_true_iff_false. rewrite existsb_exists. intros (b & Hin & Hb).
  specialize (Hfree b Hin). unfold overlapping in Hfree.
  apply not_true_iff_false in Hfree. apply Hfree. apply andb_true_iff.
  apply orb_true_iff in Hb. destruct Hb as [Hb|Hb]; apply andb_true_iff in Hb;
    destruct Hb as [H1 H2]; split; auto.
  - eapply datetime_leb_trans; eassumption.
  - eapply datetime_leb_trans; eassumption.
Qed.

(** X18: on a database that answers, [create_balance] for a proper window
    that overlaps no snapshot of the member computes what the member paid
    less what fell due in the window.  When that amount fits the eight
    digits of the column, the snapshot is saved with it, and from then on
    every [create_balance] for that window raises the exception that names
    the member and the window, and leaves the world as it is.  When the
    amount does not fit, from 1000000.00 on, the save raises and nothing is
    stored. *)
Theorem create_balance_saves_once self number name now_ start end_ w :
  fault_in w = None ->
  datetime_leb start end_ = true ->
  (forall b, In b (balances_of self (db w)) ->
             overlapping (mb_start b) (mb_end b) start end_ = false) ->
  let amount := window_balance self start end_ (db w) in
  let balance := mkMemberBalance self None amount start end_ unpaid in
  let w' := mkworld (insert_balance balance (db w)) (issued w ++ [WBalance balance]) None in
  (Z.abs amount < 100000000 ->
   create_balance self number name now_ start end_ true true w
   = (Returns (Some balance), w') /\
   forall number' name' now' commit create_if_zero,
     create_balance self number' name' now' start end_ commit create_if_zero w'
     = (Raises (Exception_ (overlapping_balance number' name' start end_)), w')) /\
  (100000000 <= Z.abs amount ->
   create_balance self number name now_ start end_ true true w
   = (Raises InvalidOperation, w)).
Proof.
  intros Hcalm Hse Hfree amount balance w'.
  assert (Hhead : forall k : option MemberBalance -> M (option MemberBalance),
    create_balance self number name now_ start end_ true true w
    = ((MemberBalance_save balance ;;; ret (Some balance)) w)).
  { intros _. unfold create_balance.
    rewrite (bind_returns _ _ _ _ _ (query_calm _ w Hcalm)).
    rewrite (bind_returns _ _ _ _ _ (create_balance_check_passes self number name start
                                       end_ w Hcalm Hse Hfree)).
    rewrite (bind_returns _ _ _ _ _ (calc_balance_window self now_ start end_ w Hcalm)).
    cbn [negb andb]. rewrite andb_false_r. reflexivity. }
  specialize (Hhead (fun _ => ret None)).
  split.
  - intros Hfits. split.
    + rewrite Hhead. unfold MemberBalance_save, amount_fits, max_digits.
      cbn [mb_amount balance].
      assert ((Z.abs amount <? 10 ^ 8) = true) as -> by (apply Z.ltb_lt; lia).
      rewrite (bind_returns _ _ _ _ _ (execute_calm _ _ w Hcalm)). reflexivity.
    + intros number' name' now' commit ciz.
      apply (create_balance_rejects_endpoint_inside self number' name' now' start end_
               commit ciz w' balance); [reflexivity| |].
      * unfold balances_of, w', insert_balance. cbn [db balances].
        apply filter_In. split; [apply in_app_iff; right; left; reflexivity|].
        cbn [mb_member balance]. apply Z.eqb_refl.
      * cbn [mb_start mb_end balance]. rewrite datetime_leb_refl, Hse. reflexivity.
  - intros Hbig. rewrite Hhead. unfold MemberBalance_save, amount_fits, max_digits.
    cbn [mb_amount balance].
    assert ((Z.abs amount <? 10 ^ 8) = false) as -> by (apply Z.ltb_ge; lia).
    reflexivity.
Qed.

Lemma create_balance_saves_once_witness :
  let amount := window_balance 7 feb_2023 dec_31 ledger_late_reversal in
  let balance := mkMemberBalance 7 None amount feb_2023 dec_31 unpaid in
  let w' := mkworld (insert_balance balance ledger_late_reversal) ([] ++ [WBalance balance])
                    None in
  create_balance 7 (Some "41"%string) None feb_15 feb_2023 dec_31 true true
                 (mkworld ledger_late_reversal [] None)
  = (Returns (Some balance), w') /\
  forall number' name' now' commit create_if_zero,
    create_balance 7 number' name' now' feb_2023 dec_31 commit create_if_zero w'
    = (Raises (Exception_ (overlapping_balance number' name' feb_2023 dec_31)), w').
Proof.
  refine (proj1 (create_balance_saves_once 7 (Some "41"%string) None feb_15 feb_2023 dec_31
                   (mkworld ledger_late_reversal [] None) eq_refl eq_refl _) _).
  - intros b [].
  - vm_compute. reflexivity.
Defined.

(** The snapshot of that example holds the 30.00 that the late reversal
    gave back in the window, and the exception of a second call for member
    41, who has no name, reads as Python prints it. *)
Example create_balance_message :
  window_balance 7 feb_2023 dec_31 ledger_late_reversal = 3000 /\
  overlapping_balance (Some "41"%string) None feb_2023 dec_31
  = ("Cannot create overlapping balance: Member 41 (None) "
     ++ "from 2023-02-01 00:00:00+00:00 to 2023-12-31 00:00:00+00:00")%string
  /\ datetime___str__ (mkdatetime (mkdate 987 6 5) 14706000007)
     = "0987-06-05 04:05:06.000007+00:00"%string.
Proof. repeat split; vm_compute; reflexivity. Qed.

(** A window in which a million is due cannot be saved. *)
Example create_balance_a_million :
  create_balance 7 None None feb_15 jan_1 dec_31 true true
    (mkworld (mkDatabase [mkTransaction 1 jan_10 None "due" "office" None]
                         [mkBooking 1 1 None (Some fees) 100000000 (Some 7);
                          mkBooking 2 1 (Some fees_receivable) None 100000000 (Some 7)]
                         [] [] config_36) [] None)
  = (Raises InvalidOperation,
     mkworld (mkDatabase [mkTransaction 1 jan_10 None "due" "office" None]
                         [mkBooking 1 1 None (Some fees) 100000000 (Some 7);
                          mkBooking 2 1 (Some fees_receivable) None 100000000 (Some 7)]
                         [] [] config_36) [] None).
Proof. vm_compute. reflexivity. Qed.

(** X19: with [create_if_zero=False], on a database that answers,
    [create_balance] for a proper window that overlaps no snapshot and in
    which the payments and the dues of the member cancel returns None and
    saves nothing, with or without [commit]. *)
Theorem create_balance_skips_zero self number name now_ start end_ commit w :
  fault_in w = None ->
  datetime_leb start end_ = true ->
  (forall b, In b (balances_of self (db w)) ->
             overlapping (mb_start b) (mb_end b) start end_ = false) ->
  window_balance self start end_ (db w) = 0 ->
  create_balance self number name now_ start end_ commit false w = (Returns None, w).
Proof.
  intros Hcalm Hse Hfree Hzero. unfold create_balance.
  rewrite (bind_returns _ _ _ _ _ (query_calm _ w Hcalm)).
  rewrite (bind_returns _ _ _ _ _ (create_balance_check_passes self number name start
                                     end_ w Hcalm Hse Hfree)).
  rewrite (bind_returns _ _ _ _ _ (calc_balance_window self now_ start end_ w Hcalm)).
  rewrite Hzero. reflexivity.
Qed.

Lemma create_balance_skips_zero_witness :
  create_balance 7 (Some "41"%string) None feb_15 jan_1 dec_31 true false
                 (mkworld ledger_late_reversal [] None)
  = (Returns None, mkworld ledger_late_reversal [] None).
Proof.
  apply (create_balance_skips_zero 7 (Some "41"%string) None feb_15 jan_1 dec_31 true
           (mkworld ledger_late_reversal [] None)); try reflexivity.
  intros b [].
Defined.

(** *** What is statute-barred *)

Lemma calc_balance_cutoff self now_ cutoff w :
  fault_in w = None ->
  _calc_balance self now_ (Some cutoff) None None None w
  = (Returns
       (amounts (fun r => receivable self true r
                          && datetime_leb (t_value_datetime (snd r)) now_) (rows (db w))
        - amounts (fun r => receivable self false r
                            && datetime_leb (t_value_datetime (snd r)) cutoff)
                  (rows (db w))), w).
Proof.
  intros H. unfold _calc_balance, bind, aggregate_Sum_amount.
  rewrite query_calm by exact H. rewrite query_calm by exact H.
  unfold ret. rewrite !or_zero_Sum_amount, !sum_filter.
  change amounts with total_rows. f_equal. f_equal.
  f_equal; apply total_rows_ext; intros r;
    unfold filter_, Booking_objects, transaction__value_datetime__lte, or_else, receivable;
    cbn [andb]; rewrite andb_assoc; reflexivity.
Qed.

(** X20: on a database that answers, [statute_barred_debt] sets what
    fell due up to the cutoff date against everything the member has paid
    up to now, not only up to the cutoff, and returns what is left of the
    dues, never less than zero. *)
Theorem statute_barred_debt_counts_payments_to_now self now_ future_limit w cutoff :
  fault_in w = None ->
  last_unenforceable_date (configuration (db w)) now_ future_limit = Returns cutoff ->
  statute_barred_debt self now_ future_limit w
  = (Returns
       (Z.max 0
          (amounts (fun r => receivable self false r
                             && datetime_leb (t_value_datetime (snd r)) cutoff)
                   (rows (db w))
           - amounts (fun r => receivable self true r
                               && datetime_leb (t_value_datetime (snd r)) now_)
                     (rows (db w)))), w).
Proof.
  intros Hcalm Hcut. unfold statute_barred_debt.
  rewrite (bind_returns _ _ _ _ _ (query_calm _ w Hcalm)).
  unfold lift at 1. unfold bind at 1. rewrite Hcut.
  rewrite (bind_returns _ _ _ _ _ (calc_balance_cutoff self now_ cutoff w Hcalm)).
  unfold ret. f_equal. f_equal. f_equal. lia.
Qed.

Lemma statute_barred_debt_counts_payments_to_now_witness :
  statute_barred_debt 7 may_17_2024 None (mkworld ledger_old_due [] None)
  = (Returns
       (Z.max 0
          (amounts (fun r => receivable 7 false r
                             && datetime_leb (t_value_datetime (snd r))
                                             (mkdatetime (mkdate 2020 12 31) 0))
                   (rows ledger_old_due)
           - amounts (fun r => receivable 7 true r
                               && datetime_leb (t_value_datetime (snd r)) may_17_2024)
                     (rows ledger_old_due))), mkworld ledger_old_due [] None).
Proof.
  exact (statute_barred_debt_counts_payments_to_now 7 may_17_2024 None
           (mkworld ledger_old_due [] None) (mkdatetime (mkdate 2020 12 31) 0)
           eq_refl eq_refl).
Defined.

(** A due of 2019 and a payment of 2024: the payment, made after the
    cutoff, takes the due out of the statute-barred debt. *)
Example statute_barred_debt_paid_late :
  fst (statute_barred_debt 7 may_17_2024 None (mkworld ledger_old_due [] None))
  = Returns 0.
Proof. vm_compute. reflexivity. Qed.

(** *** Cutting a string at its last separator *)

Lemma prefix_drop sep s :
  prefix sep s = true -> s = (sep ++ drop (String.length sep) s)%string.
Proof.
  revert s. induction sep as [|c sep IH]; intros s; cbn [String.length drop append].
  - destruct s; reflexivity.
  - destruct s as [|c' s]; cbn [prefix]; [discriminate|].
    destruct (ascii_dec c c') as [->|]; [|discriminate].
    intros H. rewrite <- (IH s H). reflexivity.
Qed.

Lemma rpartition_join sep s l r :
  rpartition sep s = Some (l, r) -> s = (l ++ sep ++ r)%string.
Proof.
  revert l r. induction s as [|c s IH]; intros l r; cbn [rpartition]; [discriminate|].
  destruct (rpartition sep s) as [[l' r']|].
  - intros [= <- <-]. cbn [append]. rewrite <- (IH l' r' eq_refl). reflexivity.
  - destruct (prefix sep (String c s)) eqn:E; [|discriminate].
    intros [= <- <-]. cbn [append]. apply prefix_drop. exact E.
Qed.

Lemma prefix_append sep s : prefix sep (sep ++ s) = true.
Proof.
  induction sep as [|c sep IH]; cbn [append prefix]; [destruct s; reflexivity|].
  destruct (ascii_dec c c); [exact IH|congruence].
Qed.

Lemma drop_append sep s : drop (String.length sep) (sep ++ s) = s.
Proof. induction sep as [|c sep IH]; cbn [String.length append drop]; auto. Qed.

Lemma rpartition_cons sep c s :
  rpartition sep (String c s)
  = match rpartition sep s with
    | Some (l, r) => Some (String c l, r)
    | None => if prefix sep (String c s)
              then Some (EmptyString, drop (String.length sep) (String c s))
              else None
    end.
Proof. reflexivity. Qed.

(** A suffix is plain when the separator occurs nowhere in it, also not
    across its first character. *)
Lemma rpartition_plain key suffix :
  rpartition "__" ("_" ++ suffix) = None ->
  rpartition "__" (key ++ "__" ++ suffix) = Some (key, suffix).
Proof.
  intros Hplain. induction key as [|c key IH].
  - change (EmptyString ++ "__" ++ suffix)%string with (String "_" ("_" ++ suffix)).
    rewrite rpartition_cons, Hplain.
    change (String "_" ("_" ++ suffix)) with ("__" ++ suffix)%string.
    rewrite prefix_append, drop_append. reflexivity.
  - change (String c key ++ "__" ++ suffix)%string
      with (String c (key ++ "__" ++ suffix)).
    rewrite rpartition_cons, IH. reflexivity.
Qed.

(** *** Positions in the registration form *)

Lemma value_eqb_sym a b : value_eqb a b = value_eqb b a.
Proof.
  destruct a, b; cbn [value_eqb as_number]; try reflexivity;
    try apply Z.eqb_sym; try apply String.eqb_sym.
Qed.

Lemma filter_length_le {A} (f : A -> bool) l : (List.length (filter f l) <= List.length l)%nat.
Proof.
  induction l as [|x l IH]; cbn [filter List.length]; [lia|].
  destruct (f x); cbn [List.length]; lia.
Qed.

Lemma filter_length_all {A} (f : A -> bool) l :
  List.length (filter f l) = List.length l -> forall x, In x l -> f x = true.
Proof.
  induction l as [|y l IH]; cbn [filter List.length]; intros H x Hx; [destruct Hx|].
  pose proof (filter_length_le f l). destruct (f y) eqn:E; cbn [List.length] in H; [|lia].
  destruct Hx as [<-|Hx]; [exact E|]. apply IH; [lia|exact Hx].
Qed.

Lemma filter_all {A} (f : A -> bool) l : (forall x, In x l -> f x = true) -> filter f l = l.
Proof.
  induction l as [|y l IH]; intros H; cbn [filter]; [reflexivity|].
  rewrite (H y (or_introl eq_refl)), IH; [reflexivity|].
  intros x Hx. apply H. right. exact Hx.
Qed.

Lemma set_length_le xs : (List.length (set_ xs) <= List.length xs)%nat.
Proof.
  induction xs as [|x xs IH]; cbn [set_ List.length]; [lia|].
  pose proof (filter_length_le (fun y => negb (value_eqb y x)) (set_ xs)). lia.
Qed.

(** [len(set(xs)) == len(xs)] says that no two places of [xs] hold equal
    values. *)
Lemma set_length xs :
  List.length (set_ xs) = List.length xs <->
  ForallOrdPairs (fun a b => value_eqb b a = false) xs.
Proof.
  induction xs as [|x xs IH]; cbn [set_ List.length].
  - split; [constructor|reflexivity].
  - pose proof (filter_length_le (fun y => negb (value_eqb y x)) (set_ xs)) as H1.
    pose proof (set_length_le xs) as H2. split.
    + intros H. assert (Hxs : List.length (set_ xs) = List.length xs) by lia.
      pose proof (proj1 IH Hxs) as Hfop.
      assert (Hfix : set_ xs = xs).
      { clear - Hfop. induction Hfop as [|a l Ha Hl IHl]; cbn [set_]; [reflexivity|].
        rewrite IHl. f_equal. apply filter_all. intros y Hy.
        rewrite Forall_forall in Ha. rewrite (Ha y Hy). reflexivity. }
      constructor; [|exact Hfop]. rewrite Forall_forall. intros y Hy.
      apply negb_true_iff.
      apply (filter_length_all (fun y => negb (value_eqb y x)) (set_ xs)); [lia|].
      rewrite Hfix. exact Hy.
    + intros H. inversion H as [|? ? Hx Hxs]; subst.
      pose proof (proj2 IH Hxs) as Hlen. f_equal.
      assert (Hfix : set_ xs = xs).
      { clear - Hxs. induction Hxs as [|a l Ha Hl IHl]; cbn [set_]; [reflexivity|].
        rewrite IHl. f_equal. apply filter_all. intros y Hy.
        rewrite Forall_forall in Ha. rewrite (Ha y Hy). reflexivity. }
      rewrite Hfix, filter_all; [reflexivity|].
      intros y Hy. rewrite Forall_forall in Hx. rewrite (Hx y Hy). reflexivity.
Qed.

Lemma positions_of_In ret v :
  In v (positions_of ret) <->
  exists key, In (key, v) ret /\ endswith "__position" key = true /\ v <> VNone.
Proof.
  unfold positions_of. rewrite in_flat_map. split.
  - intros ([key v'] & Hin & Hv).
    destruct (endswith "__position" key) eqn:E1; [|destruct Hv].
    destruct (is_None v') eqn:E2; cbn [negb andb] in Hv; [destruct Hv|].
    destruct Hv as [<-|[]]. exists key. split; [exact Hin|]. split; [exact E1|].
    intros ->. discriminate.
  - intros (key & Hin & He & Hv). exists (key, v). split; [exact Hin|].
    rewrite He. destruct v; cbn [is_None negb andb]; try (left; reflexivity). congruence.
Qed.

Lemma positions_shared ret :
  NoDup (map fst ret) ->
  ForallOrdPairs (fun a b => value_eqb b a = false) (positions_of ret) \/
  exists k1 v1 k2 v2,
    k1 <> k2 /\ In (k1, v1) ret /\ In (k2, v2) ret /\
    endswith "__position" k1 = true /\ endswith "__position" k2 = true /\
    v1 <> VNone /\ v2 <> VNone /\ value_eqb v1 v2 = true.
Proof.
  induction ret as [|[k v] ret IH]; intros Hnd; [left; constructor|].
  cbn [map fst] in Hnd. inversion Hnd as [|? ? Hk Hnd']; subst.
  destruct (IH Hnd') as [Hfop|(k1 & v1 & k2 & v2 & Hne & H1 & H2 & Hrest)].
  2:{ right. exists k1, v1, k2, v2. split; [exact Hne|].
      split; [right; exact H1|]. split; [right; exact H2|]. exact Hrest. }
  change (positions_of ((k, v) :: ret))
    with ((if endswith "__position" k && negb (is_None v) then [v] else [])
          ++ positions_of ret).
  destruct (endswith "__position" k && negb (is_None v)) eqn:E; [|left; exact Hfop].
  cbn [app]. apply andb_true_iff in E. destruct E as [Ek Ev].
  assert (Hv : v <> VNone) by (intros ->; discriminate).
  destruct (forallb (fun y => negb (value_eqb y v)) (positions_of ret)) eqn:Eall.
  - left. constructor; [|exact Hfop]. rewrite Forall_forall. intros y Hy.
    rewrite forallb_forall in Eall. apply negb_true_iff. apply Eall. exact Hy.
  - right. assert (exists y, In y (positions_of ret) /\ value_eqb y v = true)
      as (y & Hy & Eq).
    { clear - Eall. induction (positions_of ret) as [|z l IHl]; [discriminate|].
      cbn [forallb] in Eall. destruct (value_eqb z v) eqn:Ez.
      - exists z. split; [left; reflexivity|exact Ez].
      - cbn [negb andb] in Eall. destruct (IHl Eall) as (y & Hy & Eq).
        exists y. split; [right; exact Hy|exact Eq]. }
    apply positions_of_In in Hy. destruct Hy as (k2 & Hin & He & Hn).
    exists k, v, k2, y. split.
    { intros ->. apply Hk. change k2 with (fst (k2, y)). apply in_map. exact Hin. }
    split; [left; reflexivity|]. split; [right; exact Hin|].
    rewrite value_eqb_sym. auto.
Qed.

Lemma positions_apart ret :
  ForallOrdPairs (fun a b => value_eqb b a = false) (positions_of ret) ->
  forall k1 v1 k2 v2,
    k1 <> k2 -> In (k1, v1) ret -> In (k2, v2) ret ->
    endswith "__position" k1 = true -> endswith "__position" k2 = true ->
    v1 <> VNone -> v2 <> VNone -> value_eqb v1 v2 = false.
Proof.
  induction ret as [|[k v] ret IH]; intros Hfop k1 v1 k2 v2 Hne H1 H2 E1 E2 N1 N2;
    [destruct H1|].
  change (positions_of ((k, v) :: ret))
    with ((if endswith "__position" k && negb (is_None v) then [v] else [])
          ++ positions_of ret) in Hfop.
  assert (Hhead : forall k' v' y, (k', v') = (k, v) -> endswith "__position" k' = true ->
            v' <> VNone -> In y (positions_of ret) -> value_eqb y v' = false).
  { intros k' v' y [= -> ->] Ek Hv Hy. rewrite Ek in Hfop.
    assert (negb (is_None v) = true) as Ev by (destruct v; try reflexivity; congruence).
    rewrite Ev in Hfop. cbn [andb app] in Hfop.
    inversion Hfop as [|? ? Hall _]; subst. rewrite Forall_forall in Hall. auto. }
  assert (Htail : ForallOrdPairs (fun a b => value_eqb b a = false) (positions_of ret)).
  { destruct (endswith "__position" k && negb (is_None v)); [|exact Hfop].
    cbn [app] in Hfop. inversion Hfop; assumption. }
  destruct H1 as [H1|H1], H2 as [H2|H2].
  - congruence.
  - rewrite value_eqb_sym. apply (Hhead k1 v1 v2 (eq_sym H1) E1 N1).
    apply positions_of_In. eauto.
  - apply (Hhead k2 v2 v1 (eq_sym H2) E2 N2). apply positions_of_In. eauto.
  - apply (IH Htail k1 v1 k2 v2); assumption.
Qed.

(** X21: for cleaned data (a dict: no key twice), [clean] raises the
    ValidationError exactly when two different fields whose names end in
    "__position" hold equal values other than None, and returns the data
    as it got them otherwise. *)
Theorem clean_rejects_shared_position ret :
  NoDup (map fst ret) ->
  (clean ret = Raise (ValidationError "Every position must be unique!") <->
   exists k1 v1 k2 v2,
     k1 <> k2 /\ In (k1, v1) ret /\ In (k2, v2) ret /\
     endswith "__position" k1 = true /\ endswith "__position" k2 = true /\
     v1 <> VNone /\ v2 <> VNone /\ value_eqb v1 v2 = true) /\
  (clean ret = Ok ret \/
   clean ret = Raise (ValidationError "Every position must be unique!")).
Proof.
  intros Hnd. unfold clean.
  destruct (Nat.eqb (List.length (positions_of ret))
                    (List.length (set_ (positions_of ret)))) eqn:E; cbn [negb].
  - split; [|left; reflexivity]. split; [discriminate|].
    intros (k1 & v1 & k2 & v2 & Hne & H1 & H2 & E1 & E2 & N1 & N2 & Heq).
    apply Nat.eqb_eq in E. symmetry in E. apply set_length in E.
    rewrite (positions_apart ret E k1 v1 k2 v2) in Heq by assumption. discriminate.
  - split; [|right; reflexivity]. split; [|reflexivity]. intros _.
    destruct (positions_shared ret Hnd) as [Hfop|H]; [|exact H].
    apply set_length in Hfop. apply Nat.eqb_neq in E. congruence.
Qed.

Lemma clean_rejects_shared_position_witness :
  (clean two_at_3 = Raise (ValidationError "Every position must be unique!") <->
   exists k1 v1 k2 v2,
     k1 <> k2 /\ In (k1, v1) two_at_3 /\ In (k2, v2) two_at_3 /\
     endswith "__position" k1 = true /\ endswith "__position" k2 = true /\
     v1 <> VNone /\ v2 <> VNone /\ value_eqb v1 v2 = true) /\
  (clean two_at_3 = Ok two_at_3 \/
   clean two_at_3 = Raise (ValidationError "Every position must be unique!")).
Proof.
  apply (clean_rejects_shared_position two_at_3).
  repeat constructor; cbn; intuition discriminate.
Defined.

(** *** Storing the registration form and reading it back *)

Lemma get_setitem k k' (v : value) d :
  get String.eqb k (setitem String.eqb k' v d)
  = if String.eqb k k' then Some v else get String.eqb k d.
Proof.
  induction d as [|[a x] d IH]; cbn [setitem get]; [reflexivity|].
  destruct (String.eqb k' a) eqn:E1; cbn [get].
  - apply String.eqb_eq in E1. subst a. destruct (String.eqb k k'); reflexivity.
  - rewrite IH. destruct (String.eqb k a) eqn:E2; [|reflexivity].
    apply String.eqb_eq in E2. subst a. rewrite String.eqb_sym, E1. reflexivity.
Qed.

Lemma get_setitem_entry k k' (v : entry) (d : list (string * entry)) :
  get String.eqb k (setitem String.eqb k' v d)
  = if String.eqb k k' then Some v else get String.eqb k d.
Proof.
  induction d as [|[a x] d IH]; cbn [setitem get]; [reflexivity|].
  destruct (String.eqb k' a) eqn:E1; cbn [get].
  - apply String.eqb_eq in E1. subst a. destruct (String.eqb k k'); reflexivity.
  - rewrite IH. destruct (String.eqb k a) eqn:E2; [|reflexivity].
    apply String.eqb_eq in E2. subst a. rewrite String.eqb_sym, E1. reflexivity.
Qed.

Lemma value_eqb_str k a : value_eqb (VStr k) a = true <-> a = VStr k.
Proof.
  destruct a; cbn [value_eqb as_number]; try (split; [discriminate|discriminate]).
  rewrite String.eqb_eq. split; [intros ->; reflexivity|intros [= ->]; reflexivity].
Qed.

Lemma get_setitem_name k k' (e : entry) (d : list (value * entry)) :
  get value_eqb (VStr k) (setitem value_eqb (VStr k') e d)
  = if String.eqb k k' then Some e else get value_eqb (VStr k) d.
Proof.
  induction d as [|[a x] d IH]; cbn [setitem get]; [reflexivity|].
  destruct (value_eqb (VStr k') a) eqn:E1; cbn [get].
  - apply value_eqb_str in E1. subst a. cbn [value_eqb].
    destruct (String.eqb k k'); reflexivity.
  - rewrite IH. destruct (value_eqb (VStr k) a) eqn:E2; [|reflexivity].
    apply value_eqb_str in E2. subst a. cbn [value_eqb] in E1.
    rewrite String.eqb_sym, E1. reflexivity.
Qed.

(** The value that the dict of dicts holds for [name] and [key]. *)
Lemma setdefault_setitem_get name key v data n :
  get String.eqb n (setdefault_setitem name key v data)
  = if String.eqb n name
    then Some (setitem String.eqb key v
                 (match get String.eqb name data with Some inner => inner | None => [] end))
    else get String.eqb n data.
Proof.
  unfold setdefault_setitem.
  destruct (get String.eqb name data); rewrite get_setitem_entry; reflexivity.
Qed.

Lemma rsplit_1_pair full n k :
  rsplit_1 "__" full = [n; k] <-> rpartition "__" full = Some (n, k).
Proof.
  unfold rsplit_1. destruct (rpartition "__" full) as [[l r]|].
  - split; [intros [= -> ->]; reflexivity|intros [= -> ->]; reflexivity].
  - split; discriminate.
Qed.

Lemma save_loop_keeps_names items :
  forall data data' n i,
    save_loop items data = Ok data' -> get String.eqb n data = Some i ->
    exists i', get String.eqb n data' = Some i'.
Proof.
  induction items as [|[f y] items IH]; intros data data' n i; cbn [save_loop].
  - intros [= <-] H. eauto.
  - destruct (rsplit_1 "__" f) as [|a [|b [|? ?]]]; try discriminate.
    intros Hrun H.
    assert (exists j, get String.eqb n (setdefault_setitem a b y data) = Some j)
      as [j Hj]; [|exact (IH _ _ n j Hrun Hj)].
    rewrite setdefault_setitem_get. destruct (String.eqb n a); eauto.
Qed.

Lemma save_loop_lookup items :
  NoDup (map fst items) ->
  forall data data',
    save_loop items data = Ok data' ->
    (forall full v n k,
       In (full, v) items -> rpartition "__" full = Some (n, k) ->
       exists inner, get String.eqb n data' = Some inner /\
                     get String.eqb k inner = Some v) /\
    (forall n,
       (forall full v k, In (full, v) items -> rpartition "__" full <> Some (n, k)) ->
       get String.eqb n data' = get String.eqb n data) /\
    (forall n k inner inner',
       get String.eqb n data = Some inner -> get String.eqb n data' = Some inner' ->
       (forall full v, In (full, v) items -> rpartition "__" full <> Some (n, k)) ->
       get String.eqb k inner' = get String.eqb k inner) /\
    (forall n k inner',
       get String.eqb n data = None -> get String.eqb n data' = Some inner' ->
       (forall full v, In (full, v) items -> rpartition "__" full <> Some (n, k)) ->
       get String.eqb k inner' = None).
Proof.
  induction items as [|[f x] items IH]; intros Hnd data data'; cbn [save_loop].
  - intros [= <-]. split; [intros ? ? ? ? []|]. split; [reflexivity|].
    split; [intros n k inner inner' H1 H2 _; congruence|].
    intros n k inner' H1 H2 _. congruence.
  - cbn [map fst] in Hnd. inversion Hnd as [|? ? Hf Hnd']; subst.
    destruct (rsplit_1 "__" f) as [|n0 [|k0 [|? ?]]] eqn:Er; try discriminate.
    apply rsplit_1_pair in Er. intros Hrun.
    destruct (IH Hnd' _ _ Hrun) as (Hset & Hkeep & Hin1 & Hin2).
    assert (Hfresh : forall full v, In (full, v) items ->
              rpartition "__" full <> Some (n0, k0)).
    { intros full v Hin Hc. apply Hf. apply rpartition_join in Hc.
      apply rpartition_join in Er. rewrite Er, <- Hc.
      change full with (fst (full, v)). apply in_map. exact Hin. }
    pose proof (setdefault_setitem_get n0 k0 x data) as Hstep.
    split; [|split; [|split]].
    + intros full v n k [[= <- <-]|Hin] Hp; [|eapply Hset; eassumption].
      rewrite Er in Hp. injection Hp as <- <-.
      specialize (Hstep n0). rewrite String.eqb_refl in Hstep.
      destruct (get String.eqb n0 data') as [inner'|] eqn:E'.
      * exists inner'. split; [reflexivity|].
        rewrite (Hin1 n0 k0 _ inner' Hstep E' Hfresh), get_setitem, String.eqb_refl.
        reflexivity.
      * exfalso. destruct (save_loop_keeps_names _ _ _ _ _ Hrun Hstep) as [i Hi].
        congruence.
    + intros n Hn. rewrite Hkeep.
      * rewrite Hstep. destruct (String.eqb n n0) eqn:En; [|reflexivity].
        exfalso. apply String.eqb_eq in En. subst n.
        apply (Hn f x k0); [left; reflexivity|exact Er].
      * intros full v k Hin. apply (Hn full v k). right. exact Hin.
    + intros n k inner inner' H1 H2 Hn.
      specialize (Hstep n). destruct (String.eqb n n0) eqn:En.
      * apply String.eqb_eq in En. subst n.
        rewrite (Hin1 n0 k _ inner' Hstep H2), get_setitem, H1.
        -- destruct (String.eqb k k0) eqn:Ek; [|reflexivity].
           exfalso. apply String.eqb_eq in Ek. subst k.
           apply (Hn f x); [left; reflexivity|exact Er].
        -- intros full v Hin. apply (Hn full v). right. exact Hin.
      * rewrite H1 in Hstep. apply (Hin1 n k inner inner' Hstep H2).
        intros full v Hin. apply (Hn full v). right. exact Hin.
    + intros n k inner' H1 H2 Hn.
      specialize (Hstep n). destruct (String.eqb n n0) eqn:En.
      * apply String.eqb_eq in En. subst n.
        rewrite (Hin1 n0 k _ inner' Hstep H2), get_setitem, H1.
        -- destruct (String.eqb k k0) eqn:Ek; [|reflexivity].
           exfalso. apply String.eqb_eq in Ek. subst k.
           apply (Hn f x); [left; reflexivity|exact Er].
        -- intros full v Hin. apply (Hn full v). right. exact Hin.
      * rewrite H1 in Hstep. apply (Hin2 n k inner' Hstep H2).
        intros full v Hin. apply (Hn full v). right. exact Hin.
Qed.

Lemma save_loop_returns items :
  (forall full v, In (full, v) items -> exists n k, rpartition "__" full = Some (n, k)) ->
  forall data, exists data', save_loop items data = Ok data'.
Proof.
  induction items as [|[f x] items IH]; intros Hsplit data; cbn [save_loop]; [eauto|].
  destruct (Hsplit f x (or_introl eq_refl)) as (n & k & Hp).
  apply rsplit_1_pair in Hp. rewrite Hp. apply IH.
  intros full v Hin. apply (Hsplit full v). right. exact Hin.
Qed.

Lemma get_In {V} k (d : list (string * V)) v :
  get String.eqb k d = Some v -> In (k, v) d.
Proof.
  induction d as [|[a x] d IH]; cbn [get]; [discriminate|].
  destruct (String.eqb k a) eqn:E.
  - apply String.eqb_eq in E. subst a. intros [= ->]. left. reflexivity.
  - intros H. right. apply IH. exact H.
Qed.

Lemma setitem_fst {V} k (v : V) d :
  map fst (setitem String.eqb k v d)
  = if existsb (String.eqb k) (map fst d) then map fst d else map fst d ++ [k].
Proof.
  induction d as [|[a x] d IH]; cbn [setitem map fst existsb app]; [reflexivity|].
  destruct (String.eqb k a); cbn [map fst orb]; [reflexivity|].
  rewrite IH. destruct (existsb (String.eqb k) (map fst d)); reflexivity.
Qed.

Lemma setitem_keys {V} k (v : V) d :
  NoDup (map fst d) -> NoDup (map fst (setitem String.eqb k v d)).
Proof.
  intros Hnd. rewrite setitem_fst.
  destruct (existsb (String.eqb k) (map fst d)) eqn:E; [exact Hnd|].
  apply NoDup_rev in Hnd. rewrite <- (rev_involutive (_ ++ _)). apply NoDup_rev.
  rewrite rev_app_distr. cbn [rev app]. constructor; [|exact Hnd].
  rewrite <- in_rev. intros Hc. apply not_true_iff_false in E. apply E.
  apply existsb_exists. exists k. split; [exact Hc|apply String.eqb_refl].
Qed.

Lemma save_loop_keys items :
  forall data data',
    NoDup (map fst data) -> save_loop items data = Ok data' -> NoDup (map fst data').
Proof.
  induction items as [|[f x] items IH]; intros data data' Hnd; cbn [save_loop].
  - intros [= <-]. exact Hnd.
  - destruct (rsplit_1 "__" f) as [|a [|b [|? ?]]]; try discriminate.
    apply IH. unfold setdefault_setitem.
    destruct (get String.eqb a data); apply setitem_keys; exact Hnd.
Qed.

Lemma named_all_returns data :
  (forall n inner, In (n, inner) data -> get String.eqb "name"%string inner = None) ->
  named_all data
  = Ok (map (fun '(n, inner) => ("name"%string, VStr n) :: inner) data).
Proof.
  induction data as [|[n inner] data IH]; intros H; cbn [named_all map]; [reflexivity|].
  unfold named. rewrite (H n inner (or_introl eq_refl)). cbn [rbind].
  rewrite IH; [reflexivity|]. intros n' i' Hin. apply (H n' i'). right. exact Hin.
Qed.

Lemma by_name_other key (data : list (string * entry)) :
  ~ In key (map fst data) ->
  forall acc,
    get value_eqb (VStr key)
        (by_name (map (fun '(n, inner) => ("name"%string, VStr n) :: inner) data) acc)
    = get value_eqb (VStr key) acc.
Proof.
  induction data as [|[n inner] data IH]; intros Hk acc; cbn [map by_name get];
    [reflexivity|].
  cbn [String.eqb Ascii.eqb Bool.eqb]. cbn [map fst] in Hk.
  rewrite IH by (intros Hc; apply Hk; right; exact Hc).
  rewrite get_setitem_name. destruct (String.eqb key n) eqn:E; [|reflexivity].
  apply String.eqb_eq in E. subst n. exfalso. apply Hk. left. reflexivity.
Qed.

Lemma by_name_get key inner (data : list (string * entry)) :
  NoDup (map fst data) -> In (key, inner) data ->
  forall acc,
    get value_eqb (VStr key)
        (by_name (map (fun '(n, inner) => ("name"%string, VStr n) :: inner) data) acc)
    = Some (("name"%string, VStr key) :: inner).
Proof.
  induction data as [|[n i] data IH]; intros Hnd Hin acc; [destruct Hin|].
  cbn [map fst] in Hnd. inversion Hnd as [|? ? Hn Hd]; subst.
  cbn [map by_name get]. cbn [String.eqb Ascii.eqb Bool.eqb].
  destruct Hin as [[= -> ->]|Hin].
  - rewrite by_name_other by exact Hn. rewrite get_setitem_name, String.eqb_refl.
    reflexivity.
  - apply IH; assumption.
Qed.

Lemma initial_stored form key full_name field_initial :
  initial (Some form) key full_name field_initial
  = match get String.eqb (List.last (rsplit_1 "__" full_name) EmptyString)
              (match get value_eqb (VStr key) (by_name form []) with
               | Some e => e
               | None => []
               end) with
    | Some v => v
    | None => field_initial
    end.
Proof. unfold initial. destruct form; reflexivity. Qed.

Lemma setitem_In {V} k (v : V) d k' x :
  In (k', x) (setitem String.eqb k v d) -> In (k', x) d \/ x = v.
Proof.
  induction d as [|[a y] d IH]; cbn [setitem In].
  - intros [[= _ <-]|[]]. auto.
  - destruct (String.eqb k a); cbn [In].
    + intros [[= <- <-]|H]; auto.
    + intros [H|H]; [auto|]. destruct (IH H); auto.
Qed.

(** The values that the loop of [save] files are those of the cleaned
    data. *)
Lemma save_loop_values (P : value -> Prop) items :
  (forall full x, In (full, x) items -> P x) ->
  forall data data' : list (string * entry),
    (forall n (inner : entry) k x, In (n, inner) data -> In (k, x) inner -> P x) ->
    save_loop items data = Ok data' ->
    forall n (inner : entry) k x, In (n, inner) data' -> In (k, x) inner -> P x.
Proof.
  induction items as [|[full v] items IH]; intros Hitems data data' Hdata;
    cbn [save_loop].
  - intros [= <-]. exact Hdata.
  - destruct (rsplit_1 "__" full) as [|name [|key [|? ?]]]; try discriminate.
    apply IH; [intros f x Hx; apply (Hitems f x); right; exact Hx|].
    intros n inner k x Hn Hk.
    assert (Hv : P v) by (apply (Hitems full v); left; reflexivity).
    revert Hn. unfold setdefault_setitem.
    destruct (get String.eqb name data) as [old|] eqn:E; intros Hn.
    + destruct (setitem_In _ _ _ _ _ Hn) as [Hin| ->]; [eauto|].
      destruct (setitem_In _ _ _ _ _ Hk) as [Hin| ->]; [|exact Hv].
      apply (Hdata name old k x); [apply get_In; exact E|exact Hin].
    + destruct (setitem_In _ _ _ _ _ Hn) as [Hin| ->]; [eauto|].
      destruct (setitem_In _ _ _ _ _ Hk) as [[]| ->]. exact Hv.
Qed.

(** X22: the settings that [save] stores are the ones [__init__] reads
    back, unless a cleaned value is a [Decimal].  Take cleaned data (a
    dict: no key twice) in which every field name has a "__" and none ends
    in "__name", and the form field [key__suffix] of the model field
    [key], with a suffix in which "__" occurs nowhere (as in "position",
    "default" and "default_date").  When JSON can hold every cleaned
    value, [save] returns, and the initial value that [__init__] finds in
    the stored list for that form field is the value that was cleaned.
    When the value cleaned for that form field is a [Decimal], which JSON
    cannot hold, [save] raises TypeError and stores nothing. *)
Theorem save_then_initial cleaned_data key suffix v field_initial :
  NoDup (map fst cleaned_data) ->
  (forall full x, In (full, x) cleaned_data ->
     exists n k, rpartition "__" full = Some (n, k) /\ k <> "name"%string) ->
  rpartition "__" ("_" ++ suffix) = None ->
  In ((key ++ "__" ++ suffix)%string, v) cleaned_data ->
  ((forall full x, In (full, x) cleaned_data -> serializable x = true) ->
   exists registration_form,
     save cleaned_data = Ok registration_form /\
     initial (Some registration_form) key (key ++ "__" ++ suffix) field_initial = v) /\
  (serializable v = false -> save cleaned_data = Raise TypeError).
Proof.
  intros Hnd Hsplit Hplain Hin.
  destruct (save_loop_returns cleaned_data) with (data := @nil (string * entry))
    as [data Hdata].
  { intros full x Hx. destruct (Hsplit full x Hx) as (n & k & Hp & _). eauto. }
  destruct (save_loop_lookup cleaned_data Hnd _ _ Hdata) as (Hset & _ & _ & Hnone).
  pose proof (save_loop_keys cleaned_data [] data (NoDup_nil _) Hdata) as Hkeys.
  pose proof (rpartition_plain key suffix Hplain) as Hcut.
  destruct (Hset _ v key suffix Hin Hcut) as (inner & Hinner & Hv).
  assert (Hnames : forall n i, In (n, i) data -> get String.eqb "name"%string i = None).
  { intros n i Hi. apply (Hnone n "name"%string i); [reflexivity| |].
    - clear - Hi Hkeys. induction data as [|[a x] data IH]; [destruct Hi|].
      cbn [map fst] in Hkeys. inversion Hkeys as [|? ? Ha Hd]; subst. cbn [get].
      destruct Hi as [[= -> ->]|Hi]; [rewrite String.eqb_refl; reflexivity|].
      destruct (String.eqb n a) eqn:E; [|apply IH; assumption].
      apply String.eqb_eq in E. subst a. exfalso. apply Ha.
      change n with (fst (n, i)). apply in_map. exact Hi.
    - intros full x Hx Hc. destruct (Hsplit full x Hx) as (n' & k' & Hp & Hk).
      rewrite Hp in Hc. injection Hc as -> ->. congruence. }
  set (form := map (fun '(n, inner) => ("name"%string, VStr n) :: inner) data).
  assert (Hform : named_all data = Ok form) by (apply named_all_returns; exact Hnames).
  split.
  - intros Hjson. exists form. split.
    + unfold save. rewrite Hdata. cbn [rbind]. rewrite Hform. cbn [rbind].
      unfold config_save.
      assert (forallb (fun e : entry => forallb (fun kv => serializable (snd kv)) e) form
              = true) as ->; [|reflexivity].
      apply forallb_forall. intros e He. apply forallb_forall. intros [k x] Hx.
      cbn [snd]. unfold form in He. apply in_map_iff in He.
      destruct He as ([n i] & <- & Hi). destruct Hx as [[= _ <-]|Hx]; [reflexivity|].
      apply (save_loop_values (fun x => serializable x = true) cleaned_data Hjson
               [] data (fun _ _ _ _ H => match H with end) Hdata n i k x Hi Hx).
    + rewrite initial_stored.
      assert (Hentry : get value_eqb (VStr key) (by_name form [])
                       = Some (("name"%string, VStr key) :: inner)).
      { apply by_name_get; [exact Hkeys|]. apply get_In. exact Hinner. }
      rewrite Hentry. unfold rsplit_1. rewrite Hcut. cbn [List.last get].
      destruct (String.eqb suffix "name") eqn:E; [|rewrite Hv; reflexivity].
      exfalso. apply String.eqb_eq in E. subst suffix.
      destruct (Hsplit _ v Hin) as (n' & k' & Hp & Hk). rewrite Hcut in Hp.
      injection Hp as <- <-. congruence.
  - intros Hbad. unfold save. rewrite Hdata. cbn [rbind]. rewrite Hform. cbn [rbind].
    unfold config_save.
    assert (forallb (fun e : entry => forallb (fun kv => serializable (snd kv)) e) form
            = false) as ->; [|reflexivity].
    apply not_true_iff_false. intros Hc. rewrite forallb_forall in Hc.
    specialize (Hc (("name"%string, VStr key) :: inner)).
    rewrite forallb_forall in Hc.
    assert (Htrue : serializable (snd (suffix, v)) = true).
    { apply Hc.
      - unfold form. apply in_map_iff. exists (key, inner).
        split; [reflexivity|apply get_In; exact Hinner].
      - right. apply get_In. exact Hv. }
    cbn [snd] in Htrue. congruence.
Qed.

Lemma save_then_initial_witness :
  exists registration_form,
    save two_at_3 = Ok registration_form /\
    initial (Some registration_form) "member__email" ("member__email" ++ "__" ++ "position")
            (VInt 998) = VInt 3.
Proof.
  refine (proj1 (save_then_initial two_at_3 "member__email" "position" (VInt 3)
                   (VInt 998) _ _ _ _) _).
  - repeat constructor; cbn; intuition discriminate.
  - intros full x [[= <- <-]|[[= <- <-]|[[= <- <-]|[[= <- <-]|[]]]]];
      eexists; eexists; (split; [reflexivity|discriminate]).
  - reflexivity.
  - right. right. left. reflexivity.
  - intros full x [[= <- <-]|[[= <- <-]|[[= <- <-]|[[= <- <-]|[]]]]]; reflexivity.
Defined.

(** A default fee of 10.00 next to a position: the [Decimal] stops the
    save, and the position is not stored either. *)
Example save_decimal_default :
  save [("membership__amount__position"%string, VInt 2);
        ("membership__amount__default"%string, VDecimal 1000)]
  = Raise TypeError.
Proof. reflexivity. Qed.

Lemma save_loop_raises items :
  forall data, (exists data', save_loop items data = Ok data') \/
               save_loop items data = Raise (Of ValueError).
Proof.
  induction items as [|[f x] items IH]; intros data; cbn [save_loop]; [eauto|].
  destruct (rsplit_1 "__" f) as [|a [|b [|? ?]]]; auto.
Qed.

Lemma save_loop_unsplit items full v :
  In (full, v) items -> rpartition "__" full = None ->
  forall data, save_loop items data = Raise (Of ValueError).
Proof.
  induction items as [|[f x] items IH]; intros Hin Hp data; [destruct Hin|].
  cbn [save_loop]. destruct Hin as [[= -> ->]|Hin].
  - unfold rsplit_1. rewrite Hp. reflexivity.
  - destruct (rsplit_1 "__" f) as [|a [|b [|? ?]]]; auto.
Qed.

Lemma named_all_clash data n inner x :
  In (n, inner) data -> get String.eqb "name"%string inner = Some x ->
  named_all data = Raise TypeError.
Proof.
  induction data as [|[a i] data IH]; intros Hin Hx; [destruct Hin|].
  cbn [named_all]. destruct Hin as [[= -> ->]|Hin].
  - unfold named. rewrite Hx. reflexivity.
  - unfold named at 1. destruct (get String.eqb "name"%string i); [reflexivity|].
    cbn [rbind]. rewrite (IH Hin Hx). reflexivity.
Qed.

(** X23: [save] fails on field names it cannot take apart.  When a
    cleaned field name has no "__", [save] raises ValueError; when every
    name has one and some name ends in "__name", it raises TypeError; in
    both cases it gives no list to store. *)
Theorem save_rejects_field_names cleaned_data full v :
  NoDup (map fst cleaned_data) ->
  In (full, v) cleaned_data ->
  (rpartition "__" full = None -> save cleaned_data = Raise (Of ValueError)) /\
  (forall n,
     (forall f x, In (f, x) cleaned_data -> rpartition "__" f <> None) ->
     rpartition "__" full = Some (n, "name"%string) ->
     save cleaned_data = Raise TypeError).
Proof.
  intros Hnd Hin. split.
  - intros Hp. unfold save. rewrite (save_loop_unsplit _ _ _ Hin Hp). reflexivity.
  - intros n Hall Hp. unfold save.
    destruct (save_loop_returns cleaned_data) with (data := @nil (string * entry))
      as [data Hdata].
    { intros f x Hx. specialize (Hall f x Hx).
      destruct (rpartition "__" f) as [[a b]|]; [eauto|congruence]. }
    rewrite Hdata. cbn [rbind].
    destruct (save_loop_lookup cleaned_data Hnd _ _ Hdata) as (Hset & _).
    destruct (Hset _ v n "name"%string Hin Hp) as (inner & Hinner & Hv).
    rewrite (named_all_clash data n inner v); [reflexivity| |exact Hv].
    apply get_In. exact Hinner.
Qed.

Lemma save_rejects_field_names_witness :
  (rpartition "__" "position" = None ->
   save [("position"%string, VInt 1)] = Raise (Of ValueError)) /\
  (forall n,
     (forall f x, In (f, x) [("position"%string, VInt 1)] -> rpartition "__" f <> None) ->
     rpartition "__" "position" = Some (n, "name"%string) ->
     save [("position"%string, VInt 1)] = Raise TypeError).
Proof.
  apply (save_rejects_field_names [("position"%string, VInt 1)] "position" (VInt 1)).
  - repeat constructor. intros [].
  - left. reflexivity.
Defined.
